(** * is_constructs: a shallow embedding of the text-to-similarity pipeline

    The development follows [is_constructs.py] (and, where the two are
    compared, the older [myLSA.py]).  Python values are modelled as
    follows.

    - [str] is [string]; a character is a code point below 256.
    - integers (identifiers, counts) are [Z]; positions are [nat].
    - a numpy array of floats is a list (a matrix: a list of rows).  Where
      only comparisons, sums and means are involved the entries are exact
      rationals [Q], with one extra value for NaN; where logarithms and
      square roots are involved the entries are real numbers [R].
    - a [dict] whose iteration order is observed is an association list in
      insertion order.
    - a call that can raise returns [pyres]; [try]/[except] is a match on
      it.
    - library calls (numpy, pandas, scikit-learn) are modelled by what
      they compute for the arguments the source passes. *)

From Stdlib Require Import List String Ascii Bool Arith ZArith QArith Lia.
From Stdlib Require Import Reals Lra Permutation Sorting.
Import ListNotations.

Close Scope R_scope.
Close Scope Q_scope.
Open Scope nat_scope.

Set Implicit Arguments.

(* ================================================================== *)
(** * Definitions *)
(* ================================================================== *)

(** ** Python results and exceptions *)

Inductive exn : Set :=
| KeyError | ValueError | IndexError | StopIteration | AssertionError.

Inductive pyres (A : Type) : Type :=
| Ok (a : A)
| Raise (e : exn).

Arguments Ok {A} a.
Arguments Raise {A} e.

Definition bind {A B : Type} (m : pyres A) (k : A -> pyres B) : pyres B :=
  match m with
  | Ok a => k a
  | Raise e => Raise e
  end.

Notation "x <- m ;; k" := (bind m (fun x => k))
  (at level 61, m at next level, right associativity).

(** [for x in xs: body] where the body may raise. *)
Fixpoint for_each {A S : Type} (body : S -> A -> pyres S) (xs : list A) (s : S)
  : pyres S :=
  match xs with
  | [] => Ok s
  | x :: rest => s' <- body s x ;; for_each body rest s'
  end.

(** [[f(x) for x in xs]] where [f] may raise. *)
Fixpoint map_res {A B : Type} (f : A -> pyres B) (xs : list A) : pyres (list B) :=
  match xs with
  | [] => Ok []
  | x :: rest => y <- f x ;; ys <- map_res f rest ;; Ok (y :: ys)
  end.

(** ** Lists indexed by position *)

(** [l[i] = v]; the callers only write inside the list. *)
Fixpoint list_set {A : Type} (i : nat) (v : A) (l : list A) : list A :=
  match l, i with
  | [], _ => []
  | _ :: t, O => v :: t
  | h :: t, S k => h :: list_set k v t
  end.

(** [range(a, a + n)]. *)
Definition range (a n : nat) : list nat := seq a n.

(** ** Strings *)

Open Scope string_scope.

Definition code (c : ascii) : nat := nat_of_ascii c.

(** [c.isspace()] on code points below 256: what [str.split()] splits on. *)
Definition is_space (c : ascii) : bool :=
  let n := code c in
  (((9 <=? n) && (n <=? 13)) || ((28 <=? n) && (n <=? 32))
   || (n =? 133) || (n =? 160))%nat.

(** [c.lower()] on code points below 256. *)
Definition lower_char (c : ascii) : ascii :=
  let n := code c in
  if (((65 <=? n) && (n <=? 90))
      || ((192 <=? n) && (n <=? 214)) || ((216 <=? n) && (n <=? 222)))%nat
  then ascii_of_nat (n + 32) else c.

Fixpoint map_string (f : ascii -> ascii) (s : string) : string :=
  match s with
  | EmptyString => EmptyString
  | String c t => String (f c) (map_string f t)
  end.

Definition lower (s : string) : string := map_string lower_char s.

Fixpoint char_in (c : ascii) (s : string) : bool :=
  match s with
  | EmptyString => false
  | String d t => Ascii.eqb c d || char_in c t
  end.

(** [s.translate({ord(c): ' ' for c in ignore_chars})]. *)
Definition translate (ignore_chars s : string) : string :=
  map_string (fun c => if char_in c ignore_chars then " "%char else c) s.

(** [s.split()]: the maximal runs of non-space characters.  [cur] holds
    the run being read, reversed. *)
Fixpoint rev_string (acc s : string) : string :=
  match s with
  | EmptyString => acc
  | String c t => rev_string (String c acc) t
  end.

Definition flush (cur : string) (out : list string) : list string :=
  match cur with
  | EmptyString => out
  | _ => rev_string "" cur :: out
  end.

Fixpoint split_aux (s cur : string) (out : list string) : list string :=
  match s with
  | EmptyString => rev (flush cur out)
  | String c t =>
      if is_space c then split_aux t "" (flush cur out)
      else split_aux t (String c cur) out
  end.

Definition split (s : string) : list string := split_aux s "" [].

(** [sep.join(l)]. *)
Fixpoint join (sep : string) (l : list string) : string :=
  match l with
  | [] => ""
  | [x] => x
  | x :: rest => x ++ sep ++ join sep rest
  end.

Definition mem_string (w : string) (l : list string) : bool :=
  existsb (String.eqb w) l.

(** [d.get(k, default)] on a dict literal. *)
Fixpoint dict_get {V : Type} (k : string) (d : list (string * V)) (default : V) : V :=
  match d with
  | [] => default
  | (k', v) :: rest => if String.eqb k k' then v else dict_get k rest default
  end.

(** ** [parse_text] *)

Section ParseText.

(** The stemmers of the [stemming] package: [None] is a [ValueError],
    the failure the source catches. *)
Variable stem_porter2 stem_paicehusk : string -> option string.
(** [sklearn.feature_extraction.stop_words.ENGLISH_STOP_WORDS]. *)
Variable ENGLISH_STOP_WORDS : list string.

(** The state the loop of [parse_text] works on.  [documents] is the
    caller's sequence: the function assigns to its elements. *)
Record pt_state : Type := {
  documents : list string;
  parsed_docs : list string;
  error_words : list string
}.

(** The body of [for word in documents[i].split()]; [acc] is
    [(parsed_docs[i], error_words)]. *)
Definition parse_word (stemmer : option string) (remove_stop_words : bool)
    (acc : string * list string) (word : string) : string * list string :=
  let '(parsed_i, errs) := acc in
  if remove_stop_words && mem_string word ENGLISH_STOP_WORDS then acc
  else if String.eqb word "" then acc
  else
    match stemmer with
    | Some sel =>
        (* the dict literal evaluates both stemmers before [.get] *)
        match stem_porter2 word with
        | None => (parsed_i ++ word ++ " ", (errs ++ [word])%list)
        | Some p =>
            match stem_paicehusk word with
            | None => (parsed_i ++ word ++ " ", (errs ++ [word])%list)
            | Some h =>
                (parsed_i ++
                   dict_get sel [("porter2", p ++ " "); ("paicehusk", h ++ " ")]
                     (word ++ " "),
                 errs)
            end
        end
    | None => (parsed_i ++ word ++ " ", errs)
    end.

(** The body of [for i in range(len(documents))]. *)
Definition parse_doc (stemmer : option string) (lower_flag remove_stop_words : bool)
    (ignore_chars : string) (st : pt_state) (i : nat) : pt_state :=
  let d0 := nth i (documents st) "" in
  let d1 := if String.eqb ignore_chars "" then d0
            else join " " (split (translate ignore_chars d0)) in
  let d2 := if lower_flag then lower d1 else d1 in
  let docs' := list_set i d2 (list_set i d1 (documents st)) in
  let '(parsed_i, errs) :=
    fold_left (parse_word stemmer remove_stop_words) (split d2)
              ("", error_words st) in
  {| documents := docs';
     parsed_docs := (parsed_docs st ++ [join " " (split parsed_i)])%list;
     error_words := errs |}.

Definition parse_loop (stemmer : option string) (lower_flag remove_stop_words : bool)
    (ignore_chars : string) (docs : list string) : pt_state :=
  fold_left (parse_doc stemmer lower_flag remove_stop_words ignore_chars)
            (range 0 (List.length docs))
            {| documents := docs; parsed_docs := []; error_words := [] |}.

(** [list(filter(None, parsed_docs))]: the empty strings are dropped. *)
Definition drop_empty (l : list string) : list string :=
  filter (fun s => negb (String.eqb s "")) l.

(** The value [parse_text] returns. *)
Definition parse_text (docs : list string) (stemmer : option string)
    (lower_flag remove_stop_words : bool) (ignore_chars : string) : list string :=
  drop_empty (parsed_docs
    (parse_loop stemmer lower_flag remove_stop_words ignore_chars docs)).

(** The caller's [documents] sequence after the call. *)
Definition documents_after (docs : list string) (stemmer : option string)
    (lower_flag remove_stop_words : bool) (ignore_chars : string) : list string :=
  documents (parse_loop stemmer lower_flag remove_stop_words ignore_chars docs).

End ParseText.

(** The default of the [ignore_chars] parameter. *)
Definition default_ignore_chars : string :=
  ".,:;" ++ String (ascii_of_nat 34) "'!?-/()[]{}&%0123456789".

(** ** Real vectors and L2 row normalisation *)

Abbreviation vector := (list R).

Definition zeros (n : nat) : vector := repeat 0%R n.

Definition sum_R (v : vector) : R := fold_right Rplus 0%R v.

Definition sum_sq (v : vector) : R := sum_R (map (fun x => (x * x)%R) v).

Definition l2_norm (v : vector) : R := sqrt (sum_sq v).

(** One row of [Normalizer(norm='l2').fit_transform]: the row is divided
    by its norm, a norm of zero being replaced by one first. *)
Definition normalize_row (v : vector) : vector :=
  let n := l2_norm v in
  let scale := if Req_dec_T n 0%R then 1%R else n in
  map (fun x => (x / scale)%R) v.

Definition normalize_l2 (m : list vector) : list vector := map normalize_row m.

(** [Normalizer(norm='l2', copy=True).fit_transform(m)]: scikit-learn
    validates the array first and refuses one without rows or without
    columns with a [ValueError]. *)
Definition Normalizer_fit_transform (m : list vector) : pyres (list vector) :=
  match m with
  | [] => Raise ValueError
  | [] :: _ => Raise ValueError
  | _ => Ok (normalize_l2 m)
  end.

(** ** [term_vectors_from_dict] *)

(** A vector dictionary in insertion order. *)
Definition vector_dict : Type := list (string * vector).

(** [vector_dict[term]]; [None] is the [KeyError]. *)
Fixpoint dict_lookup (term : string) (d : vector_dict) : option vector :=
  match d with
  | [] => None
  | (k, v) :: rest => if String.eqb term k then Some v else dict_lookup term rest
  end.

(** [next(iter(vector_dict.values()))]. *)
Definition first_value (d : vector_dict) : pyres vector :=
  match d with
  | [] => Raise StopIteration
  | (_, v) :: _ => Ok v
  end.

(** [term_vectors[i] = v] on an array whose rows have [dim] entries:
    numpy copies a sequence of that length, repeats a single entry, and
    refuses any other length. *)
Definition assign_row (dim i : nat) (v : vector) (m : list vector)
  : pyres (list vector) :=
  if Nat.eqb (List.length v) dim then Ok (list_set i v m)
  else match v with
       | [x] => Ok (list_set i (repeat x dim) m)
       | _ => Raise ValueError
       end.

Record tv_state : Type := {
  term_vectors : list vector;
  tv_i : nat;
  ctr_oov : nat
}.

(** The body of [for term in target_terms]. *)
Definition tv_body (d : vector_dict) (dim : nat) (st : tv_state) (term : string)
  : pyres tv_state :=
  match dict_lookup term d with
  | Some v =>
      m <- assign_row dim (tv_i st) v (term_vectors st) ;;
      Ok {| term_vectors := m; tv_i := tv_i st + 1; ctr_oov := ctr_oov st |}
  | None =>
      (* except KeyError *)
      probe <- first_value d ;;
      m <- assign_row dim (tv_i st) (zeros (List.length probe)) (term_vectors st) ;;
      Ok {| term_vectors := m; tv_i := tv_i st + 1; ctr_oov := ctr_oov st + 1 |}
  end.

(** The array allocation and the loop. *)
Definition tv_loop (d : vector_dict) (target_terms : list string) : pyres tv_state :=
  probe <- first_value d ;;
  let dim := List.length probe in
  for_each (tv_body d dim) target_terms
           {| term_vectors := repeat (zeros dim) (List.length target_terms);
              tv_i := 0; ctr_oov := 0 |}.

(** A [DataFrame] with a row index. *)
Record dataframe : Type := {
  df_index : list string;
  df_values : list vector
}.

(** [term_vectors_from_dict]: the returned frame, and the OOV counts the
    call printed (one line when [verbose], none otherwise). *)
Definition term_vectors_from_dict (d : vector_dict) (target_terms : list string)
    (normalize verbose : bool) : pyres (dataframe * list nat) :=
  st <- tv_loop d target_terms ;;
  let printed := if verbose then [ctr_oov st] else [] in
  m <- (if normalize then Normalizer_fit_transform (term_vectors st)
        else Ok (term_vectors st)) ;;
  Ok ({| df_index := target_terms; df_values := m |}, printed).

(** ** Arrays of two dimensions *)

(** [m[i, j]], with [d] where the position is outside the array. *)
Definition mget {A : Type} (d : A) (m : list (list A)) (i j : nat) : A :=
  nth j (nth i m []) d.

(** [m[i, j] = v]. *)
Definition mset {A : Type} (i j : nat) (v : A) (m : list (list A)) : list (list A) :=
  list_set i (list_set j v (nth i m [])) m.

(** The array of [rows] by [cols] entries whose entry [(i, j)] is [f i j]. *)
Definition tabulate {A : Type} (rows cols : nat) (f : nat -> nat -> A) : list (list A) :=
  map (fun i => map (f i) (range 0 cols)) (range 0 rows).

(** [np.zeros([rows, cols])]. *)
Definition mzeros {A : Type} (zero : A) (rows cols : nat) : list (list A) :=
  repeat (repeat zero cols) rows.

(** An array of [rows] rows of [cols] entries. *)
Definition shaped {A : Type} (rows cols : nat) (m : list (list A)) : Prop :=
  List.length m = rows /\ Forall (fun r => List.length r = cols) m.

(** ** [recreate_construct_identity_gold] *)

(** The rows [(Poolid, VariableID)] of the gold standard sheet. *)
Definition gold_standard_t : Type := list (Z * Z).

Definition mem_Z (x : Z) (l : list Z) : bool := existsb (Z.eqb x) l.

Fixpoint insert_unique (x : Z) (l : list Z) : list Z :=
  match l with
  | [] => [x]
  | h :: t =>
      if (x <? h)%Z then x :: l
      else if (x =? h)%Z then l
      else h :: insert_unique x t
  end.

(** [np.unique]: the distinct values in increasing order. *)
Definition np_unique (l : list Z) : list Z := fold_right insert_unique [] l.

(** The position of a label in an index. *)
Fixpoint index_of (x : Z) (labels : list Z) : option nat :=
  match labels with
  | [] => None
  | h :: t => if (x =? h)%Z then Some 0
              else match index_of x t with
                   | Some k => Some (S k)
                   | None => None
                   end
  end.

(** [gold_standard['VariableID'][gold_standard['Poolid'].isin(pool_ids)]]. *)
Definition ids_in_pools (gs : gold_standard_t) (pool_ids : list Z) : list Z :=
  map snd (filter (fun r => mem_Z (fst r) pool_ids) gs).

(** [gold_standard['VariableID'][gold_standard['Poolid'] == pool_id]]. *)
Definition pool_var_ids (gs : gold_standard_t) (pool_id : Z) : list Z :=
  map snd (filter (fun r => (fst r =? pool_id)%Z) gs).

(** [frame[col][row] = 1] on a frame labelled by [labels] on both axes.
    Selecting a column that is no label is a [KeyError]; assigning at a
    row that is no label enlarges the selected column only, and the
    frame keeps its entries. *)
Definition set_cell (labels : list Z) (col row : Z) (m : list (list Z))
  : pyres (list (list Z)) :=
  match index_of col labels with
  | None => Raise KeyError
  | Some j =>
      match index_of row labels with
      | None => Ok m
      | Some i => Ok (mset i j 1%Z m)
      end
  end.

(** The body of the two index loops over one pool. *)
Definition gold_pair (labels pvs : list Z) (ind_1 : nat) (m : list (list Z))
    (ind_2 : nat) : pyres (list (list Z)) :=
  let var_id_1 := nth ind_1 pvs 0%Z in
  let var_id_2 := nth ind_2 pvs 0%Z in
  (* indices = np.sort([var_id_1, var_id_2]) *)
  let lo := Z.min var_id_1 var_id_2 in
  let hi := Z.max var_id_1 var_id_2 in
  set_cell labels hi lo m.

Definition gold_row (labels pvs : list Z) (m : list (list Z)) (ind_1 : nat)
  : pyres (list (list Z)) :=
  for_each (gold_pair labels pvs ind_1)
           (range (ind_1 + 1) (List.length pvs - (ind_1 + 1))) m.

Definition gold_pool (gs : gold_standard_t) (labels : list Z) (m : list (list Z))
    (pool_id : Z) : pyres (list (list Z)) :=
  let pvs := pool_var_ids gs pool_id in
  for_each (gold_row labels pvs) (range 0 (List.length pvs - 1)) m.

(** [np.add(m, m.T)] followed by [np.fill_diagonal(., 1)], on a square
    array of [n] rows. *)
Definition mirror_add (n : nat) (m : list (list Z)) : list (list Z) :=
  tabulate n n (fun i j => (mget 0 m i j + mget 0 m j i)%Z).

Definition fill_diagonal (n : nat) (v : Z) (m : list (list Z)) : list (list Z) :=
  tabulate n n (fun i j => if Nat.eqb i j then v else mget 0%Z m i j).

(** A frame labelled by construct identifiers on both axes. *)
Record id_frame : Type := {
  id_labels : list Z;
  id_values : list (list Z)
}.

Definition recreate_construct_identity_gold (gs : gold_standard_t)
    (pool_ids : list Z) (full_var_ids : option (list Z)) : pyres id_frame :=
  let variable_ids :=
    match full_var_ids with
    | Some ids => ids
    | None => np_unique (ids_in_pools gs pool_ids)
    end in
  let n := List.length variable_ids in
  m <- for_each (gold_pool gs variable_ids) pool_ids (mzeros 0%Z n n) ;;
  Ok {| id_labels := variable_ids;
        id_values := fill_diagonal n 1%Z (mirror_add n m) |}.

(** ** The vectorizers of scikit-learn, as the source configures them *)

(** A character the pattern [\w] matches: letters, digits and the
    underscore, on code points below 256. *)
Definition is_word_char (c : ascii) : bool :=
  let n := code c in
  (((48 <=? n) && (n <=? 57)) || ((65 <=? n) && (n <=? 90)) || (n =? 95)
   || ((97 <=? n) && (n <=? 122))
   || (n =? 170) || (n =? 178) || (n =? 179) || (n =? 181) || (n =? 185)
   || (n =? 186) || ((188 <=? n) && (n <=? 190))
   || ((192 <=? n) && (n <=? 214)) || ((216 <=? n) && (n <=? 246))
   || (248 <=? n))%nat.

(** A finished run of word characters is a token when it has two
    characters or more. *)
Definition flush_token (cur : string) (out : list string) : list string :=
  match cur with
  | String _ (String _ _) => rev_string "" cur :: out
  | _ => out
  end.

(** The default [token_pattern] of [CountVectorizer], [\b\w\w+\b]: the
    maximal runs of word characters of length two or more, in order.
    Neither vectorizer folds case ([lowercase=False]) or removes stop
    words ([stop_words=None]). *)
Fixpoint tokenize_aux (s cur : string) (out : list string) : list string :=
  match s with
  | EmptyString => rev (flush_token cur out)
  | String c t =>
      if is_word_char c then tokenize_aux t (String c cur) out
      else tokenize_aux t "" (flush_token cur out)
  end.

Definition tokenize (doc : string) : list string := tokenize_aux doc "" [].

Fixpoint insert_term (x : string) (l : list string) : list string :=
  match l with
  | [] => [x]
  | h :: t =>
      if String.eqb x h then l
      else if String.ltb x h then x :: l
      else h :: insert_term x t
  end.

(** The fitted vocabulary in feature order: the distinct tokens of the
    corpus, sorted. *)
Definition vocabulary (corpus : list string) : list string :=
  fold_right insert_term [] (List.concat (map tokenize corpus)).

(** The number of times [term] occurs among [toks]. *)
Fixpoint count_term (term : string) (toks : list string) : Z :=
  match toks with
  | [] => 0%Z
  | t :: rest => ((if String.eqb term t then 1 else 0) + count_term term rest)%Z
  end.

Definition count_row (terms : list string) (doc : string) : list Z :=
  let toks := tokenize doc in map (fun term => count_term term toks) terms.

(** [CountVectorizer(...).fit_transform(corpus).toarray()] with
    [get_feature_names()]; fitting a corpus without any token is a
    [ValueError] (empty vocabulary). *)
Definition count_vectorizer (corpus : list string) : pyres (list (list Z) * list string) :=
  match vocabulary corpus with
  | [] => Raise ValueError
  | terms => Ok (map (count_row terms) corpus, terms)
  end.

(** ** Real matrices *)

Fixpoint zip_with {A B C : Type} (f : A -> B -> C) (a : list A) (b : list B) : list C :=
  match a, b with
  | x :: a', y :: b' => f x y :: zip_with f a' b'
  | _, _ => []
  end.

Definition mmap {A B : Type} (f : A -> B) (m : list (list A)) : list (list B) :=
  map (map f) m.

(** Element-wise operations of numpy on two arrays of one shape. *)
Definition mzip (f : R -> R -> R) (a b : list (list R)) : list (list R) :=
  zip_with (zip_with f) a b.

(** [np.sum(m, axis=0)] on an array of [cols] columns. *)
Definition col_sums (cols : nat) (m : list (list R)) : list R :=
  map (fun j => sum_R (map (fun row => nth j row 0%R) m)) (range 0 cols).

(** [np.tile(v, (n, 1))]. *)
Definition tile (v : list R) (n : nat) : list (list R) := repeat v n.

(** [np.log(x)] on an entry, and the assignment
    [m[np.isneginf(m)] = 0] that follows it: the logarithm of zero,
    minus infinity, is replaced by zero. *)
Definition np_log_masked (x : R) : R :=
  if Req_dec_T x 0%R then 0%R else ln x.

(** The count matrix as numpy promotes it to floats. *)
Definition to_float (counts : list (list Z)) : list (list R) := mmap IZR counts.

(** The [log_l2] branch of [document_term_cooccurrence], before the
    final normalisation. *)
Definition log_entropy (cols : nat) (dt_matrix : list (list R)) : list (list R) :=
  let n_docs := List.length dt_matrix in
  let local_weight_matrix := mmap (fun x => ln (x + 1)%R) dt_matrix in
  let p_matrix := mzip Rdiv dt_matrix (tile (col_sums cols dt_matrix) n_docs) in
  let log_p_matrix := mmap (fun p => np_log_masked (p + 1)%R) p_matrix in
  let global_weight_matrix :=
    tile (map (fun x => (1 + x / ln (INR n_docs + 1))%R)
              (col_sums cols (mzip Rmult p_matrix log_p_matrix))) n_docs in
  let final_weight_matrix := mzip Rmult local_weight_matrix global_weight_matrix in
  mzip Rmult dt_matrix final_weight_matrix.

(** The module-level weighting of [myLSA.py], before its normalisation:
    the same steps, with [np.log(p_matrix)] in place of
    [np.log(p_matrix + 1)]. *)
Definition myLSA_log_entropy (cols : nat) (dt_matrix : list (list R)) : list (list R) :=
  let n_docs := List.length dt_matrix in
  let local_weight_matrix := mmap (fun x => ln (x + 1)%R) dt_matrix in
  let p_matrix := mzip Rdiv dt_matrix (tile (col_sums cols dt_matrix) n_docs) in
  let log_matrix := mmap np_log_masked p_matrix in
  let global_weight_matrix :=
    tile (map (fun x => (1 + x / ln (INR n_docs + 1))%R)
              (col_sums cols (mzip Rmult p_matrix log_matrix))) n_docs in
  let final_weight_matrix := mzip Rmult local_weight_matrix global_weight_matrix in
  mzip Rmult dt_matrix final_weight_matrix.

Definition myLSA_dt_matrix_log_l2 (cols : nat) (dt_matrix : list (list R))
  : pyres (list (list R)) :=
  Normalizer_fit_transform (myLSA_log_entropy cols dt_matrix).

(** The document frequency of column [j]: the number of rows with a
    non-zero count. *)
Definition doc_freq (counts : list (list Z)) (j : nat) : nat :=
  List.length (filter (fun row => negb (Z.eqb (nth j row 0%Z) 0)) counts).

(** The weighting of [TfidfVectorizer(norm='l2', use_idf=True,
    smooth_idf=True)] before its normalisation: the count times
    [ln((1 + n_docs) / (1 + df)) + 1]. *)
Definition tfidf (cols : nat) (counts : list (list Z)) : list (list R) :=
  let n_docs := List.length counts in
  let idf := map (fun j => (ln ((1 + INR n_docs) / (1 + INR (doc_freq counts j))) + 1)%R)
                 (range 0 cols) in
  mzip Rmult (to_float counts) (tile idf n_docs).

(** [TfidfVectorizer(...).fit_transform(corpus).toarray()] on a corpus
    that has a vocabulary. *)
Definition tfidf_l2 (cols : nat) (counts : list (list Z)) : list (list R) :=
  normalize_l2 (tfidf cols counts).

(** ** [document_term_cooccurrence] *)

Inductive dt_values : Type :=
| IntMatrix (m : list (list Z))
| RealMatrix (m : list (list R)).

(** The frame returned: rows labelled by the documents, columns by the
    terms. *)
Record dt_frame : Type := {
  dt_index : list string;
  dt_columns : list string;
  dt_data : dt_values
}.

Definition document_term_cooccurrence (corpus : list string) (processing : string)
  : pyres (dt_frame * list string) :=
  fitted <- count_vectorizer corpus ;;
  let '(dt_matrix, terms) := fitted in
  let frame v := {| dt_index := corpus; dt_columns := terms; dt_data := v |} in
  let cols := List.length terms in
  if String.eqb processing "count" then
    Ok (frame (IntMatrix dt_matrix), terms)
  else if String.eqb processing "l2" then
    dt_matrix_l2 <- Normalizer_fit_transform (to_float dt_matrix) ;;
    Ok (frame (RealMatrix dt_matrix_l2), terms)
  else if String.eqb processing "tfidf_l2" then
    Ok (frame (RealMatrix (tfidf_l2 cols dt_matrix)), terms)
  else if String.eqb processing "log_l2" then
    dt_matrix_log_l2 <- Normalizer_fit_transform (log_entropy cols (to_float dt_matrix)) ;;
    Ok (frame (RealMatrix dt_matrix_log_l2), terms)
  else Raise AssertionError.

(** ** The log-entropy weighting, entry by entry

    The formula of the specification, written on the entries of the
    float count matrix [dt]: the code is compared with it below. *)

Definition column_total (dt : list (list R)) (j : nat) : R :=
  sum_R (map (fun d => mget 0%R dt d j) (range 0 (List.length dt))).

Definition p_at (dt : list (list R)) (i j : nat) : R :=
  (mget 0%R dt i j / column_total dt j)%R.

Definition global_weight (dt : list (list R)) (j : nat) : R :=
  (1 + sum_R (map (fun d => p_at dt d j * ln (p_at dt d j + 1)) (range 0 (List.length dt)))
       / ln (INR (List.length dt) + 1))%R.

Definition log_l2_cell (dt : list (list R)) (i j : nat) : R :=
  (mget 0%R dt i j * ln (mget 0%R dt i j + 1) * global_weight dt j)%R.

(** The same with the logarithm as [myLSA.py] takes it. *)
Definition myLSA_global_weight (dt : list (list R)) (j : nat) : R :=
  (1 + sum_R (map (fun d => p_at dt d j * np_log_masked (p_at dt d j))
                  (range 0 (List.length dt)))
       / ln (INR (List.length dt) + 1))%R.

Definition myLSA_cell (dt : list (list R)) (i j : nat) : R :=
  (mget 0%R dt i j * ln (mget 0%R dt i j + 1) * myLSA_global_weight dt j)%R.

(** The counts of the corpus [["aa bb"; "aa"]]. *)
Definition counts_2x2 : list (list Z) := [[1; 1]; [1; 0]]%Z.

(** What C5 asks of the rows of a normalised matrix: the row of a
    document without any token is all zero, every other row has norm 1. *)
Definition unit_rows (corpus : list string) (m : list (list R)) : Prop :=
  List.length m = List.length corpus /\
  forall (i : nat) (row : list R),
    nth_error m i = Some row ->
    (tokenize (nth i corpus "") = [] /\ Forall (eq 0%R) row)
    \/ (tokenize (nth i corpus "") <> [] /\ l2_norm row = 1%R).

(** The smoothed inverse document frequency of column [j]. *)
Definition idf_at (counts : list (list Z)) (j : nat) : R :=
  (ln ((1 + INR (List.length counts)) / (1 + INR (doc_freq counts j))) + 1)%R.

(** What [document_term_cooccurrence] returns for a corpus with a
    vocabulary, given the values of the frame. *)
Definition dtm_result (corpus : list string) (data : list (list Z) -> dt_values)
  : pyres (dt_frame * list string) :=
  match vocabulary corpus with
  | [] => Raise ValueError
  | terms =>
      Ok ({| dt_index := corpus; dt_columns := terms;
             dt_data := data (map (count_row terms) corpus) |}, terms)
  end.

Fixpoint all_chars (f : ascii -> bool) (s : string) : bool :=
  match s with
  | EmptyString => true
  | String c t => f c && all_chars f t
  end.

(** Text made of word characters and white space only. *)
Definition plain_text (s : string) : bool :=
  all_chars (fun c => is_word_char c || is_space c) s.

Definition long_token (w : string) : bool := (2 <=? String.length w)%nat.

(** ** Similarity values *)

(** A float of a similarity matrix: an exact rational, or NaN. *)
Inductive npfloat : Type :=
| Num (q : Q)
| NaN.

Definition sum_Q (l : list Q) : Q := fold_right Qplus 0%Q l.

Fixpoint insert_sorted (x : Q) (l : list Q) : list Q :=
  match l with
  | [] => [x]
  | h :: t => if Qle_bool x h then x :: l else h :: insert_sorted x t
  end.

(** [np.sort(values, axis=None)]: the values in increasing order. *)
Definition np_sort (l : list Q) : list Q := fold_right insert_sorted [] l.

(** [a[-k:]] for a positive [k]: the last [k] entries, or all of them. *)
Definition last_n {A : Type} (k : nat) (l : list A) : list A :=
  skipn (List.length l - k) l.

Definition mean_Q (l : list Q) : Q :=
  (sum_Q l / inject_Z (Z.of_nat (List.length l)))%Q.

(** [np.average]: the mean; of no value at all it is NaN, with a
    warning and without an exception. *)
Definition np_average (l : list Q) : pyres npfloat :=
  match l with
  | [] => Ok NaN
  | _ => Ok (Num (mean_Q l))
  end.

(** [np.nan_to_num] on an entry. *)
Definition nan_to_num (x : npfloat) : npfloat :=
  match x with
  | Num q => Num q
  | NaN => Num 0%Q
  end.

(** [m[(i, j)]] on an array: outside of it an [IndexError]. *)
Definition mlookup {A : Type} (m : list (list A)) (p : nat * nat) : pyres A :=
  match nth_error m (fst p) with
  | None => Raise IndexError
  | Some row =>
      match nth_error row (snd p) with
      | None => Raise IndexError
      | Some x => Ok x
      end
  end.

(** [np.where(...)[0]]: the positions at which [f] holds. *)
Fixpoint positions_from {A : Type} (f : A -> bool) (start : nat) (l : list A) : list nat :=
  match l with
  | [] => []
  | x :: t => if f x then start :: positions_from f (S start) t
              else positions_from f (S start) t
  end.

Definition np_where {A : Type} (f : A -> bool) (l : list A) : list nat :=
  positions_from f 0 l.

(** The pairs of the two loops
    [for i1 in ix_1: all += [(i1, i2) for i2 in ix_2]]. *)
Definition cross (ix_1 ix_2 : list nat) : list (nat * nat) :=
  flat_map (fun i1 => map (fun i2 => (i1, i2)) ix_2) ix_1.

(** The slice length [np.max([n_similarities, 2])]. *)
Definition top_k (n_similarities : Z) : nat := Z.to_nat (Z.max n_similarities 2).

(** [np.average(np.sort(values, axis=None)[-np.max([n_similarities, 2]):])]. *)
Definition top_average (n_similarities : Z) (values : list Q) : pyres npfloat :=
  np_average (last_n (top_k n_similarities) (np_sort values)).

(** A loop body either goes on or leaves the loop. *)
Inductive flow (S : Type) : Type :=
| Continue (s : S)
| Break (s : S).

Arguments Continue {S} s.
Arguments Break {S} s.

(** [for x in xs: body] where the body may raise or [break]. *)
Fixpoint for_break {A S : Type} (body : S -> A -> pyres (flow S)) (xs : list A) (s : S)
  : pyres S :=
  match xs with
  | [] => Ok s
  | x :: rest =>
      r <- body s x ;;
      match r with
      | Continue s' => for_break body rest s'
      | Break s' => Ok s'
      end
  end.

(** ** [aggregate_construct_similarity] *)

Fixpoint insert_Z (x : Z) (l : list Z) : list Z :=
  match l with
  | [] => [x]
  | h :: t => if (x <=? h)%Z then x :: l else h :: insert_Z x t
  end.

(** [np.sort] on identifiers. *)
Definition np_sort_Z (l : list Z) : list Z := fold_right insert_Z [] l.

(** A similarity frame: its row labels and its entries. *)
Record sim_frame : Type := {
  sim_index : list string;
  sim_values : list (list Q)
}.

(** The frame of construct similarities returned. *)
Record construct_frame : Type := {
  cf_labels : list Z;
  cf_values : list (list npfloat)
}.

Fixpoint lookup_Z {V : Type} (k : Z) (d : list (Z * V)) : option V :=
  match d with
  | [] => None
  | (k', v) :: rest => if (k =? k')%Z then Some v else lookup_Z k rest
  end.

Section AggregateConstruct.

(** The module-level dictionary [gold2funk] the legacy branch reads. *)
Variable gold2funk : list (Z * Z).

Variable constituent_similarity : sim_frame.
(** The column [gold_items['VariableId']]. *)
Variable gold_items : list Z.
(** [np.sort(variable_ids)]. *)
Variable variable_ids : list Z.
Variable construct_authors : option (list (Z * string)).
Variable n_similarities : Z.

(** The constituents of a construct on the legacy branch; [None] is the
    [KeyError] of one of the two dictionaries. *)
Definition author_constituents (authors : list (Z * string)) (var_id : Z)
  : option (list nat) :=
  match lookup_Z var_id gold2funk with
  | None => None
  | Some funk_id =>
      match lookup_Z funk_id authors with
      | None => None
      | Some name => Some (np_where (String.eqb name) (sim_index constituent_similarity))
      end
  end.

Definition item_constituents (var_id : Z) : list nat :=
  np_where (Z.eqb var_id) gold_items.

(** The similarity of two groups of constituents. *)
Definition group_similarity (constit_ix_1 constit_ix_2 : list nat) : pyres npfloat :=
  item_sim_sub <- map_res (mlookup (sim_values constituent_similarity))
                          (cross constit_ix_1 constit_ix_2) ;;
  top_average n_similarities item_sim_sub.

(** The body of the loop over [ind_2]. *)
Definition acs_body (ind_1 : nat) (m : list (list npfloat)) (ind_2 : nat)
  : pyres (flow (list (list npfloat))) :=
  let id_1 := nth ind_1 variable_ids 0%Z in
  let id_2 := nth ind_2 variable_ids 0%Z in
  match construct_authors with
  | Some authors =>
      match author_constituents authors id_1, author_constituents authors id_2 with
      | Some ix_1, Some ix_2 =>
          sim_avg <- group_similarity ix_1 ix_2 ;;
          Ok (Continue (mset ind_1 ind_2 sim_avg m))
      | _, _ =>
          (* except KeyError *)
          Ok (Break (mset ind_1 ind_2 (Num 0%Q) m))
      end
  | None =>
      sim_avg <- group_similarity (item_constituents id_1) (item_constituents id_2) ;;
      Ok (Continue (mset ind_1 ind_2 sim_avg m))
  end.

Definition acs_row (m : list (list npfloat)) (ind_1 : nat) : pyres (list (list npfloat)) :=
  let n := List.length variable_ids in
  for_break (acs_body ind_1) (range (ind_1 + 1) (n - (ind_1 + 1))) m.

Definition acs_loop : pyres (list (list npfloat)) :=
  let n := List.length variable_ids in
  for_each acs_row (range 0 (n - 1)) (mzeros (Num 0%Q) n n).

End AggregateConstruct.

Definition aggregate_construct_similarity (gold2funk : list (Z * Z))
    (constituent_similarity : sim_frame) (gold_items variable_ids : list Z)
    (construct_authors : option (list (Z * string))) (n_similarities : Z)
  : pyres construct_frame :=
  let variable_ids := np_sort_Z variable_ids in
  m <- acs_loop gold2funk constituent_similarity gold_items variable_ids
                construct_authors n_similarities ;;
  Ok {| cf_labels := variable_ids; cf_values := mmap nan_to_num m |}.

(** ** [aggregate_item_similarity] *)

Definition dot_Q (u v : list Q) : Q := sum_Q (zip_with Qmult u v).

(** [np.asmatrix(v) * np.asmatrix(v).T]. *)
Definition gram (v : list (list Q)) : list (list Q) :=
  tabulate (List.length v) (List.length v)
           (fun i j => dot_Q (nth i v []) (nth j v [])).

Definition np_add (x y : npfloat) : npfloat :=
  match x, y with
  | Num a, Num b => Num (a + b)%Q
  | _, _ => NaN
  end.

Definition nonzero_Q (q : Q) : bool := negb (Qeq_bool q 0).

(** [values[-1]]. *)
Definition last_value (l : list Q) : pyres Q :=
  match rev l with
  | [] => Raise IndexError
  | x :: _ => Ok x
  end.

(** A frame of item similarities: row labels (the documents) and
    entries. *)
Record item_frame : Type := {
  if_index : list string;
  if_values : list (list npfloat)
}.

Record ais_state : Type := {
  item_similarity : list (list npfloat);
  ctr_one : nat;
  ctr_none : nat
}.

Section AggregateItem.

(** The entries of the document-term frame and of the term vectors. *)
Variable dt_matrix : list (list Q).
Variable term_vectors : list (list Q).
Variable n_similarities : Z.

Definition term_indices (ind : nat) : list nat :=
  np_where nonzero_Q (nth ind dt_matrix []).

(** The body of the loop over [ind_2]. *)
Definition ais_body (ind_1 : nat) (st : ais_state) (ind_2 : nat) : pyres ais_state :=
  term_sim_sub <- map_res (mlookup (gram term_vectors))
                          (cross (term_indices ind_1) (term_indices ind_2)) ;;
  match top_average n_similarities term_sim_sub with
  | Ok sim_avg =>
      Ok {| item_similarity := mset ind_1 ind_2 sim_avg (item_similarity st);
            ctr_one := ctr_one st; ctr_none := ctr_none st |}
  | Raise ValueError =>
      if negb (Nat.eqb (List.length (filter nonzero_Q term_sim_sub)) 0) then
        sim_avg <- last_value (np_sort term_sim_sub) ;;
        Ok {| item_similarity := mset ind_1 ind_2 (Num sim_avg) (item_similarity st);
              ctr_one := ctr_one st + 1; ctr_none := ctr_none st |}
      else
        Ok {| item_similarity := mset ind_1 ind_2 (Num 0%Q) (item_similarity st);
              ctr_one := ctr_one st; ctr_none := ctr_none st + 1 |}
  | Raise e => Raise e
  end.

Definition ais_row (st : ais_state) (ind_1 : nat) : pyres ais_state :=
  let n := List.length dt_matrix in
  for_each (ais_body ind_1) (range (ind_1 + 1) (n - (ind_1 + 1))) st.

Definition ais_loop : pyres ais_state :=
  let n := List.length dt_matrix in
  for_each ais_row (range 0 (n - 1))
           {| item_similarity := mzeros (Num 0%Q) n n; ctr_one := 0; ctr_none := 0 |}.

End AggregateItem.

(** [np.add(m, m.T)] and [np.fill_diagonal(., 1)] on similarities. *)
Definition mirror_sim (n : nat) (m : list (list npfloat)) : list (list npfloat) :=
  tabulate n n (fun i j =>
    if Nat.eqb i j then Num 1%Q
    else np_add (mget (Num 0%Q) m i j) (mget (Num 0%Q) m j i)).

(** [aggregate_item_similarity]: the returned frame, and the two
    counters the call printed (when [verbose]). *)
Definition aggregate_item_similarity (items : list string) (dt_matrix : list (list Q))
    (term_vectors : list (list Q)) (n_similarities : Z) (verbose : bool)
  : pyres (item_frame * list nat) :=
  st <- ais_loop dt_matrix term_vectors n_similarities ;;
  let printed := if verbose then [ctr_one st; ctr_none st] else [] in
  Ok ({| if_index := items;
         if_values := mirror_sim (List.length dt_matrix) (item_similarity st) |},
      printed).

(** The values the two aggregators average for a pair of groups, and
    the entry they store: the mean of the last [top_k] of the sorted
    values, NaN when there is no value. *)
Definition pair_values (m : list (list Q)) (ix_1 ix_2 : list nat) : list Q :=
  map (fun p => mget 0%Q m (fst p) (snd p)) (cross ix_1 ix_2).

Definition avg_value (n_similarities : Z) (values : list Q) : npfloat :=
  match last_n (top_k n_similarities) (np_sort values) with
  | [] => NaN
  | l => Num (mean_Q l)
  end.

(** The strict upper triangle holding [w], zero elsewhere. *)
Definition upper (n : nat) (w : nat -> nat -> npfloat) : list (list npfloat) :=
  tabulate n n (fun a b => if Nat.ltb a b then w a b else Num 0%Q).

Definition mem_nat (x : nat) (l : list nat) : bool := existsb (Nat.eqb x) l.

(** The constituent-pair similarities of the constructs at positions
    [i] and [j] of the sorted identifiers: the full cross-product. *)
Definition construct_values (sim : sim_frame) (gold_items ids : list Z) (i j : nat)
  : list Q :=
  pair_values (sim_values sim)
              (item_constituents gold_items (nth i ids 0%Z))
              (item_constituents gold_items (nth j ids 0%Z)).

(** The term-pair similarities of the documents at rows [i] and [j]. *)
Definition item_values (dt_matrix term_vectors : list (list Q)) (i j : nat) : list Q :=
  pair_values (gram term_vectors) (term_indices dt_matrix i) (term_indices dt_matrix j).

(** The example of the specification: items 10 and 20 belong to
    construct 1, item 30 to construct 2; similarity(10, 30) = 0.5 and
    similarity(20, 30) = 0.9. *)
Definition example_gold_items : list Z :=
  map (fun i => if Nat.eqb i 10 || Nat.eqb i 20 then 1%Z
                else if Nat.eqb i 30 then 2%Z else 0%Z) (range 0 31).

Definition example_similarity : sim_frame :=
  {| sim_index := map (fun _ => "item") (range 0 31);
     sim_values :=
       tabulate 31 31 (fun i j =>
         if (Nat.eqb i 10 && Nat.eqb j 30) || (Nat.eqb i 30 && Nat.eqb j 10)
         then (5 # 10)%Q
         else if (Nat.eqb i 20 && Nat.eqb j 30) || (Nat.eqb i 30 && Nat.eqb j 20)
         then (9 # 10)%Q
         else if Nat.eqb i j then 1%Q else 0%Q) |}.

(** Three items, the first two of construct 1 and the third of
    construct 2, with similarities 0.2 and 0.8 across the two. *)
Definition sim_3 : sim_frame :=
  {| sim_index := ["i0"; "i1"; "i2"];
     sim_values := [[1; 0; 2 # 10]; [0; 1; 8 # 10]; [2 # 10; 8 # 10; 1]]%Q |}.

(** ** Notions used in the statements *)

(** The cleaned form [parse_text] stores in [documents[i]]. *)
Definition cleaned (lower_flag : bool) (ignore_chars d : string) : string :=
  let d1 := if String.eqb ignore_chars "" then d
            else join " " (split (translate ignore_chars d)) in
  if lower_flag then lower d1 else d1.

(** Two runs agree on everything but the diagnostic word list. *)
Definition same_output (s t : pt_state) : Prop :=
  documents s = documents t /\ parsed_docs s = parsed_docs t.

(** A stemmer for the examples: it cuts a final "s". *)
Definition toy_stem (w : string) : option string :=
  match rev_string "" w with
  | String "s" r => Some (rev_string "" r)
  | _ => Some w
  end.

(** The row the loop stores for a target term. *)
Definition resolve (d : vector_dict) (dim : nat) (term : string) : vector :=
  match dict_lookup term d with
  | Some v => v
  | None => zeros dim
  end.

Definition is_oov (d : vector_dict) (term : string) : bool :=
  match dict_lookup term d with
  | Some _ => false
  | None => true
  end.

Definition count_oov (d : vector_dict) (terms : list string) : nat :=
  List.length (filter (is_oov d) terms).

(** Every vector of the dictionary has [dim] entries. *)
Definition uniform (dim : nat) (d : vector_dict) : Prop :=
  Forall (fun kv => List.length (snd kv) = dim) d.

(** A dictionary of three vectors of four entries. *)
Definition dict_3x4 : vector_dict :=
  [("it", [1; 0; 0; 0]%R); ("technolog", [0; 1; 0; 0]%R); ("advanc", [0; 0; 1; 0]%R)].

(** What the loops keep true of the array under construction: it is
    square, its entries are 0 or 1, and a 1 sits at the positions of two
    labels of which the row label is the smaller. *)
Definition gold_inv (labels : list Z) (m : list (list Z)) : Prop :=
  let n := List.length labels in
  shaped n n m /\
  forall i j, i < n -> j < n ->
    mget 0%Z m i j = 0%Z \/
    (mget 0%Z m i j = 1%Z /\
     exists r c, (r <= c)%Z /\ index_of r labels = Some i /\ index_of c labels = Some j).

(** The properties C6 asks of the identity matrix of [n] constructs. *)
Definition identity_matrix_ok (n : nat) (g : list (list Z)) : Prop :=
  shaped n n g
  /\ (forall i j, i < n -> j < n -> mget 0%Z g i j = 0%Z \/ mget 0%Z g i j = 1%Z)
  /\ (forall i j, i < n -> j < n -> mget 0%Z g i j = mget 0%Z g j i)
  /\ (forall i, i < n -> mget 0%Z g i i = 1%Z).

Definition no_flag (st : ais_state) : Prop := ctr_one st = 0 /\ ctr_none st = 0.

(** One row of the double loop of the aggregators: the columns right of
    the diagonal. *)
Definition fill_rows {S : Type} (n : nat) (body : nat -> S -> nat -> pyres S)
    (s : S) (i : nat) : pyres S :=
  for_each (body i) (range (i + 1) (n - (i + 1))) s.

(** Equality of two similarity values: the same rational, or NaN twice. *)
Definition npfloat_equiv (x y : npfloat) : Prop :=
  match x, y with
  | Num a, Num b => (a == b)%Q
  | NaN, NaN => True
  | _, _ => False
  end.

(** What [parse_text] makes of one document: the text collected in
    [parsed_docs[i]], white space collapsed. *)
Definition parse_one (stem_porter2 stem_paicehusk : string -> option string)
    (ENGLISH_STOP_WORDS : list string) (stemmer : option string)
    (lower_flag remove_stop_words : bool) (ignore_chars d : string) : string :=
  join " "
    (split (fst (fold_left
                   (parse_word stem_porter2 stem_paicehusk ENGLISH_STOP_WORDS stemmer
                               remove_stop_words)
                   (split (cleaned lower_flag ignore_chars d)) ("", [])))).

(** A word: at least one character, none of them white space. *)
Definition is_word (w : string) : bool :=
  negb (String.eqb w "") && all_chars (fun c => negb (is_space c)) w.

(** The text the inner loop of [parse_text] collects from the words it
    keeps: each word followed by a space. *)
Fixpoint trail (ws : list string) : string :=
  match ws with
  | [] => ""
  | w :: rest => w ++ " " ++ trail rest
  end.

(** Two construct identifiers share one of the pools. *)
Definition share_pool (gs : gold_standard_t) (pool_ids : list Z) (x y : Z) : bool :=
  existsb (fun p => mem_Z x (pool_var_ids gs p) && mem_Z y (pool_var_ids gs p)) pool_ids.

(** The pairs [(var_id_1, var_id_2)] the two index loops visit in one
    pool, in the order of the visits. *)
Definition pool_pairs (pvs : list Z) : list (Z * Z) :=
  List.concat
    (map (fun ind_1 =>
            map (fun ind_2 => (nth ind_1 pvs 0%Z, nth ind_2 pvs 0%Z))
                (range (ind_1 + 1) (List.length pvs - (ind_1 + 1))))
         (range 0 (List.length pvs - 1))).

(** The assignment made for one visited pair. *)
Definition write_pair (labels : list Z) (m : list (list Z)) (p : Z * Z)
  : pyres (list (list Z)) :=
  set_cell labels (Z.max (fst p) (snd p)) (Z.min (fst p) (snd p)) m.

(** A pair among [ps] is written at row [i], column [j]. *)
Definition written (labels : list Z) (ps : list (Z * Z)) (i j : nat) : Prop :=
  exists a b, In (a, b) ps
              /\ index_of (Z.min a b) labels = Some i
              /\ index_of (Z.max a b) labels = Some j.

(** ** [myLSA.recreate_construct_identity_gold] *)

(** [Series.unique()]: the distinct values in the order of their first
    appearance. *)
Fixpoint pd_unique (l : list Z) : list Z :=
  match l with
  | [] => []
  | h :: t => h :: filter (fun y => negb (y =? h)%Z) (pd_unique t)
  end.

(** [variableIDs = sorted(list(set(gold_items['VariableId'])))]. *)
Definition myLSA_variableIDs (item_var_ids : list Z) : list Z := np_unique item_var_ids.

(** [construct_identity_gold[var_id_1][var_id_2] = 1]: the column is
    selected by the first identifier, the row by the second. *)
Definition myLSA_gold_pair (labels pvs : list Z) (ind_1 : nat) (m : list (list Z))
    (ind_2 : nat) : pyres (list (list Z)) :=
  let var_id_1 := nth ind_1 pvs 0%Z in
  let var_id_2 := nth ind_2 pvs 0%Z in
  set_cell labels var_id_1 var_id_2 m.

Definition myLSA_gold_row (labels pvs : list Z) (m : list (list Z)) (ind_1 : nat)
  : pyres (list (list Z)) :=
  for_each (myLSA_gold_pair labels pvs ind_1)
           (range (ind_1 + 1) (List.length pvs - (ind_1 + 1))) m.

Definition myLSA_gold_pool (gs : gold_standard_t) (labels : list Z) (m : list (list Z))
    (poolID : Z) : pyres (list (list Z)) :=
  let pvs := pool_var_ids gs poolID in
  for_each (myLSA_gold_row labels pvs) (range 0 (List.length pvs - 1)) m.

Definition myLSA_recreate_construct_identity_gold (item_var_ids : list Z)
    (gs : gold_standard_t) : pyres id_frame :=
  let variableIDs := myLSA_variableIDs item_var_ids in
  let n := List.length variableIDs in
  let pool_ids := pd_unique (map fst gs) in
  m <- for_each (myLSA_gold_pool gs variableIDs) pool_ids (mzeros 0%Z n n) ;;
  Ok {| id_labels := variableIDs; id_values := m |}.

(** [x] stands before [y] in a list. *)
Fixpoint occurs_before (x y : Z) (l : list Z) : bool :=
  match l with
  | [] => false
  | h :: t => ((h =? x)%Z && mem_Z y t) || occurs_before x y t
  end.

(** [x] stands before [y] in the list of one of the pools. *)
Definition precedes (gs : gold_standard_t) (x y : Z) : bool :=
  existsb (fun p => occurs_before x y (pool_var_ids gs p)) (pd_unique (map fst gs)).

(** A pair [(column label, row label)] among [ps] addresses row [i],
    column [j]. *)
Definition addressed (labels : list Z) (ps : list (Z * Z)) (i j : nat) : Prop :=
  exists a b, In (a, b) ps
              /\ index_of b labels = Some i
              /\ index_of a labels = Some j.

(** ** [evaluate] *)

(** The arrays [evaluate] is given: a flat one, or one of rows. *)
Inductive ndarray (A : Type) : Type :=
| Arr1 (v : list A)
| Arr2 (m : list (list A)).

Arguments Arr1 {A} v.
Arguments Arr2 {A} m.

Definition arr_len {A : Type} (a : ndarray A) : nat :=
  match a with
  | Arr1 v => List.length v
  | Arr2 m => List.length m
  end.

(** [np.triu_indices(n, k=1)]: the positions right of the diagonal, row
    by row. *)
Definition triu_indices (n : nat) : list (nat * nat) :=
  flat_map (fun i => map (fun j => (i, j)) (range (i + 1) (n - (i + 1)))) (range 0 n).

(** [a[triu_indices]]: two index arrays are one too many for a flat
    array, and a position outside of the array is an [IndexError] too. *)
Definition take_pairs {A : Type} (a : ndarray A) (ix : list (nat * nat))
  : pyres (list A) :=
  match a with
  | Arr1 _ => Raise IndexError
  | Arr2 m => map_res (mlookup m) ix
  end.

Section Evaluate.

Variables A B : Type.
(** The results of scikit-learn's [roc_curve] and [roc_auc_score]. *)
Variables Fpr Tpr Thresholds Auc : Type.
Variable roc_curve : ndarray B -> ndarray A -> pyres (Fpr * Tpr * Thresholds).
Variable roc_auc_score : ndarray B -> ndarray A -> pyres Auc.

(** The [try] block: both assignments are undone by the handler. *)
Definition flatten_both (construct_similarity : ndarray A)
    (construct_identity_gold : ndarray B) : pyres (ndarray A * ndarray B) :=
  let triu := triu_indices (arr_len construct_similarity) in
  match take_pairs construct_similarity triu with
  | Ok construct_sim_flat =>
      match take_pairs construct_identity_gold triu with
      | Ok construct_idn_gold_flat =>
          Ok (Arr1 construct_sim_flat, Arr1 construct_idn_gold_flat)
      | Raise IndexError => Ok (construct_similarity, construct_identity_gold)
      | Raise e => Raise e
      end
  | Raise IndexError => Ok (construct_similarity, construct_identity_gold)
  | Raise e => Raise e
  end.

Definition evaluate (construct_similarity : ndarray A)
    (construct_identity_gold : ndarray B) : pyres (Fpr * Tpr * Auc) :=
  flat <- flatten_both construct_similarity construct_identity_gold ;;
  curve <- roc_curve (snd flat) (fst flat) ;;
  roc_auc <- roc_auc_score (snd flat) (fst flat) ;;
  Ok (fst (fst curve), snd (fst curve), roc_auc).

(** [arr[row_ind, range(row_ind + 1, n)]]: a row index outside of the
    array is an [IndexError], also when the range of columns is empty. *)
Definition row_right {C : Type} (arr : list (list C)) (row_ind n : nat)
  : pyres (list C) :=
  match nth_error arr row_ind with
  | None => Raise IndexError
  | Some _ =>
      map_res (mlookup arr)
              (map (fun j => (row_ind, j)) (range (row_ind + 1) (n - (row_ind + 1))))
  end.

(** The body of [for row_ind in range(len(construct_similarity))] of
    [myLSA.evaluate]. *)
Definition myLSA_flat_body (construct_similarity : list (list A))
    (construct_identity_gold : list (list B)) (st : list A * list B) (row_ind : nat)
  : pyres (list A * list B) :=
  sim_row <- row_right construct_similarity row_ind (List.length construct_similarity) ;;
  gold_row <- row_right construct_identity_gold row_ind
                        (List.length construct_identity_gold) ;;
  Ok ((fst st ++ sim_row)%list, (snd st ++ gold_row)%list).

(** [myLSA.evaluate], given what [np.loadtxt] finds ([None]: no file)
    and what [recreate_construct_identity_gold()] would return. *)
Definition myLSA_evaluate (gold_txt : option (list (list B)))
    (recreated : pyres (list (list B))) (construct_similarity : list (list A))
  : pyres (Fpr * Tpr * Auc) :=
  construct_identity_gold <-
    match gold_txt with
    | Some g => Ok g
    | None => recreated
    end ;;
  flat <- for_each (myLSA_flat_body construct_similarity construct_identity_gold)
                   (range 0 (List.length construct_similarity)) ([], []) ;;
  curve <- roc_curve (Arr1 (snd flat)) (Arr1 (fst flat)) ;;
  roc_auc <- roc_auc_score (Arr1 (snd flat)) (Arr1 (fst flat)) ;;
  Ok (fst (fst curve), snd (fst curve), roc_auc).

End Evaluate.

(** The entries right of the diagonal, row by row. *)
Definition triu_flat {A : Type} (d : A) (n : nat) (m : list (list A)) : list A :=
  map (fun p => mget d m (fst p) (snd p)) (triu_indices n).

(** Stand-ins for the two scoring functions, for the examples: the
    curve is the two flat arrays as they are handed over, the score
    their length. *)
Definition echo_curve (y_true : ndarray Z) (y_score : ndarray Q)
  : pyres (list Z * list Q * list Q) :=
  match y_true, y_score with
  | Arr1 y, Arr1 sc =>
      if Nat.eqb (List.length y) (List.length sc) then Ok (y, sc, sc)
      else Raise ValueError
  | _, _ => Raise ValueError
  end.

Definition echo_score (y_true : ndarray Z) (y_score : ndarray Q) : pyres nat :=
  match y_true, y_score with
  | Arr1 y, Arr1 sc =>
      if Nat.eqb (List.length y) (List.length sc) then Ok (List.length y)
      else Raise ValueError
  | _, _ => Raise ValueError
  end.

(** The arrays of [test_e], the similarities rounded. *)
Definition test_e_similarity : list (list Q) :=
  [[0; 86 # 100; 89 # 100; 0];
   [0; 0; 18 # 100; 0];
   [0; 0; 0; 0];
   [0; 0; 0; 0]]%Q.

Definition test_e_gold : list (list Z) :=
  [[1; 1; 1; 0];
   [1; 1; 1; 1];
   [1; 1; 1; 0];
   [0; 1; 0; 1]]%Z.

(** ** [myLSA.compute_construct_similarity] *)

(** [sim_1, sim_2 = ...]: unpacking asks for exactly two values. *)
Definition unpack_two {A : Type} (l : list A) : pyres (A * A) :=
  match l with
  | [a; b] => Ok (a, b)
  | _ => Raise ValueError
  end.

(** The body of the loop over [ind_2]. *)
Definition ccs_body (item_similarity : list (list Q)) (gold_items variableIDs : list Z)
    (ind_1 : nat) (construct_similarity : list (list npfloat)) (ind_2 : nat)
  : pyres (list (list npfloat)) :=
  let item_indices_1 := np_where (Z.eqb (nth ind_1 variableIDs 0%Z)) gold_items in
  let item_indices_2 := np_where (Z.eqb (nth ind_2 variableIDs 0%Z)) gold_items in
  item_sim_sub <- map_res (mlookup item_similarity) (cross item_indices_1 item_indices_2) ;;
  sims <- unpack_two (last_n 2 (np_sort item_sim_sub)) ;;
  sim_avg <- np_average [fst sims; snd sims] ;;
  Ok (mset ind_1 ind_2 sim_avg construct_similarity).

Definition compute_construct_similarity (gold_items : list Z)
    (item_vectors : list (list Q)) : pyres (list (list npfloat)) :=
  let variableIDs := myLSA_variableIDs gold_items in
  let item_similarity := gram item_vectors in
  let n := List.length variableIDs in
  for_each (fill_rows n (ccs_body item_similarity gold_items variableIDs))
           (range 0 (n - 1)) (mzeros (Num 0%Q) n n).

(** The similarities between the items of the constructs at positions
    [i] and [j] of [variableIDs]. *)
Definition myLSA_values (gold_items : list Z) (item_vectors : list (list Q)) (i j : nat)
  : list Q :=
  construct_values {| sim_index := []; sim_values := gram item_vectors |}
                   gold_items (myLSA_variableIDs gold_items) i j.

(** ** [term_term_cooccurrence] *)

Fixpoint lookup_nat {V : Type} (k : nat) (d : list (nat * V)) : option V :=
  match d with
  | [] => None
  | (k', v) :: rest => if Nat.eqb k k' then Some v else lookup_nat k rest
  end.

Fixpoint lookup_str {V : Type} (k : string) (d : list (string * V)) : option V :=
  match d with
  | [] => None
  | (k', v) :: rest => if String.eqb k k' then Some v else lookup_str k rest
  end.

(** [d[k] = v] on a dictionary in insertion order: a key that is there
    keeps its place and takes the new value. *)
Fixpoint dict_set_str {V : Type} (k : string) (v : V) (d : list (string * V))
  : list (string * V) :=
  match d with
  | [] => [(k, v)]
  | (k', v') :: rest =>
      if String.eqb k k' then (k', v) :: rest else (k', v') :: dict_set_str k v rest
  end.

(** [try: d[k] += x  except KeyError: d[k] = x]. *)
Fixpoint dict_add (k : nat) (x : Q) (d : list (nat * Q)) : list (nat * Q) :=
  match d with
  | [] => [(k, x)]
  | (k', v) :: rest =>
      if Nat.eqb k k' then (k', (v + x)%Q) :: rest else (k', v) :: dict_add k x rest
  end.

(** [{i: terms[i] for i in range(len(terms))}]. *)
Definition make_dict_ix_term (terms : list string) : list (nat * string) :=
  combine (range 0 (List.length terms)) terms.

(** [{v: k for k, v in dict_ix_term.items()}]. *)
Definition make_dict_term_ix (dict_ix_term : list (nat * string)) : list (string * nat) :=
  fold_left (fun d kv => dict_set_str (snd kv) (fst kv) d) dict_ix_term [].

Definition column (j : nat) (m : list (list Q)) : list Q :=
  map (fun row => nth j row 0%Q) m.

(** [np.asarray(dt_matrix).T.dot(np.asarray(dt_matrix))] for a matrix of
    [n] columns. *)
Definition transpose_dot (n : nat) (dt_matrix : list (list Q)) : list (list Q) :=
  tabulate n n (fun a b => dot_Q (column a dt_matrix) (column b dt_matrix)).

(** [frame[col][row]] read as a number, on a frame labelled by [labels]
    on both axes.  A label that stands once selects one entry.  A
    column label that stands several times selects a frame, of which
    [[row]] selects a column again; a row label that stands several
    times selects a series; and neither a frame nor a series has a
    truth value ([ValueError]). *)
Definition frame_at (labels : list nat) (m : list (list Q)) (col row : nat) : pyres Q :=
  match np_where (Nat.eqb col) labels with
  | [] => Raise KeyError
  | [j] =>
      match np_where (Nat.eqb row) labels with
      | [] => Raise KeyError
      | [i] => mlookup m (i, j)
      | _ => Raise ValueError
      end
  | _ => if Nat.eqb row col then Raise ValueError else Raise KeyError
  end.

(** The body of [for k in terms_ix]. *)
Definition tt_body (labels : list nat) (tt_matrix : list (list Q)) (i : nat)
    (tt_dict : list (list (nat * Q))) (k : nat) : pyres (list (list (nat * Q))) :=
  x <- frame_at labels tt_matrix i k ;;
  if nonzero_Q x then
    match nth_error tt_dict i with
    | None => Raise KeyError
    | Some inner => Ok (list_set i (dict_add k x inner) tt_dict)
    end
  else Ok tt_dict.

Record tt_result : Type := {
  (** [tt_dict]: its keys are [0 .. n-1], in this order. *)
  ttr_dict : list (list (nat * Q));
  ttr_term_ix : list (string * nat);
  ttr_ix_term : list (nat * string)
}.

Definition term_term_cooccurrence (terms : list string) (dt_matrix : list (list Q))
  : pyres tt_result :=
  let dict_ix_term := make_dict_ix_term terms in
  let dict_term_ix := make_dict_term_ix dict_ix_term in
  terms_ix <- map_res (fun term => match lookup_str term dict_term_ix with
                                   | Some i => Ok i
                                   | None => Raise KeyError
                                   end) terms ;;
  let tt_matrix := transpose_dot (List.length terms) dt_matrix in
  tt_dict <- for_each (fun d i => for_each (tt_body terms_ix tt_matrix i) terms_ix d)
                      terms_ix (repeat [] (List.length terms_ix)) ;;
  Ok {| ttr_dict := tt_dict; ttr_term_ix := dict_term_ix; ttr_ix_term := dict_ix_term |}.

(** How often the terms at columns [i] and [k] occur together: the sum
    over the documents of the products of their entries. *)
Definition cooccurrence (dt_matrix : list (list Q)) (i k : nat) : Q :=
  dot_Q (column i dt_matrix) (column k dt_matrix).

(** The entries of row [i] of the dictionary for the columns of
    [cols]. *)
Definition tt_entries (dt_matrix : list (list Q)) (i : nat) (cols : list nat)
  : list (nat * Q) :=
  map (fun k => (k, cooccurrence dt_matrix k i))
      (filter (fun k => nonzero_Q (cooccurrence dt_matrix k i)) cols).

(** ** [load_data]: the translation of construct identifiers *)

(** [d[k] = v] on a dictionary in insertion order. *)
Fixpoint dict_set_Z (k v : Z) (d : list (Z * Z)) : list (Z * Z) :=
  match d with
  | [] => [(k, v)]
  | (k', v') :: rest =>
      if (k =? k')%Z then (k', v) :: rest else (k', v') :: dict_set_Z k v rest
  end.

(** The frame of edit distances: gold identifiers label the rows,
    Funk's identifiers the columns. *)
Record distance_frame : Type := {
  cd_index : list Z;
  cd_columns : list Z;
  cd_values : list (list Z)
}.

(** [construct_distances[funk_id][gold_id]] read as a number; a label
    that stands several times selects more than one entry, which has
    no truth value. *)
Definition distance_at (fr : distance_frame) (funk_id gold_id : Z) : pyres Z :=
  match np_where (Z.eqb funk_id) (cd_columns fr) with
  | [] => Raise KeyError
  | [j] =>
      match np_where (Z.eqb gold_id) (cd_index fr) with
      | [] => Raise KeyError
      | [i] => mlookup (cd_values fr) (i, j)
      | _ => Raise ValueError
      end
  | _ => if (gold_id =? funk_id)%Z then Raise ValueError else Raise KeyError
  end.

(** The body of [for gold_id in gold_construct_ids]. *)
Definition match_body (construct_distances : distance_frame) (max_editdistance : Z)
    (funk_id : Z) (funk2gold : list (Z * Z)) (gold_id : Z)
  : pyres (flow (list (Z * Z))) :=
  if mem_Z gold_id (map snd funk2gold) then Ok (Continue funk2gold)
  else
    distance <- distance_at construct_distances funk_id gold_id ;;
    if (distance <=? max_editdistance)%Z
    then Ok (Break (dict_set_Z funk_id gold_id funk2gold))
    else Ok (Continue funk2gold).

(** [{g: f for f, g in funk2gold.items()}]. *)
Definition mirror_dict (funk2gold : list (Z * Z)) : list (Z * Z) :=
  fold_left (fun d fg => dict_set_Z (snd fg) (fst fg) d) funk2gold [].

(** The two translation dictionaries [load_data] builds, from the
    identifier columns of the two data sets and the frame of edit
    distances: [(funk2gold, gold2funk)]. *)
Definition load_data_translation (construct_distances : distance_frame)
    (max_editdistance : Z) (gold_variable_ids funk_construct_column : list Z)
  : pyres (list (Z * Z) * list (Z * Z)) :=
  let gold_construct_ids := np_unique gold_variable_ids in
  let funk_construct_ids := np_unique funk_construct_column in
  funk2gold <-
    for_each (fun funk2gold funk_id =>
                for_break (match_body construct_distances max_editdistance funk_id)
                          gold_construct_ids funk2gold)
             funk_construct_ids [] ;;
  Ok (funk2gold, mirror_dict funk2gold).

(** The two names are close enough. *)
Definition close_enough (construct_distances : distance_frame) (max_editdistance : Z)
    (funk_id gold_id : Z) : Prop :=
  exists distance, distance_at construct_distances funk_id gold_id = Ok distance
                   /\ (distance <= max_editdistance)%Z.

(** What the two loops of the translation keep: every key and every
    value stands once, and every pair is close enough. *)
Definition matching (construct_distances : distance_frame) (max_editdistance : Z)
    (gold_construct_ids funk_construct_ids : list Z) (s : list (Z * Z)) : Prop :=
  NoDup (map fst s) /\ NoDup (map snd s)
  /\ forall f g, In (f, g) s ->
       In f funk_construct_ids /\ In g gold_construct_ids
       /\ close_enough construct_distances max_editdistance f g.

(** Every pair of the translation took the first gold identifier that
    was free: a smaller gold identifier that is close enough to the
    Funk identifier of a pair belongs to an earlier pair. *)
Definition first_match (construct_distances : distance_frame) (max_editdistance : Z)
    (gold_construct_ids : list Z) (s : list (Z * Z)) : Prop :=
  forall f g, In (f, g) s ->
    forall g', In g' gold_construct_ids -> (g' < g)%Z ->
      close_enough construct_distances max_editdistance f g' ->
      exists f', In (f', g') s /\ (f' < f)%Z.

(* ================================================================== *)
(** * Theorems *)
(* ================================================================== *)

(** ** Lists *)

Lemma nth_middle_string (l1 l2 : list string) (x d : string) :
  nth (List.length l1) (l1 ++ x :: l2)%list d = x.
Proof. induction l1 as [|h t IH]; simpl; auto. Qed.

Lemma list_set_middle (A : Type) (l1 l2 : list A) (x v : A) :
  list_set (List.length l1) v (l1 ++ x :: l2)%list = (l1 ++ v :: l2)%list.
Proof. induction l1 as [|h t IH]; simpl; [reflexivity | now rewrite IH]. Qed.

Lemma length_list_set (A : Type) (i : nat) (v : A) (l : list A) :
  List.length (list_set i v l) = List.length l.
Proof.
  revert i. induction l as [|h t IH]; intros [|i]; simpl; auto.
Qed.

Lemma nth_list_set (A : Type) (i k : nat) (v d : A) (l : list A) :
  i < List.length l ->
  nth k (list_set i v l) d = if Nat.eqb k i then v else nth k l d.
Proof.
  revert i k. induction l as [|h t IH]; intros i k Hi; simpl in Hi; [lia|].
  destruct i as [|i], k as [|k]; simpl; auto.
  apply IH. lia.
Qed.

Lemma nth_range (a n k d : nat) : k < n -> nth k (range a n) d = a + k.
Proof. intros Hk. unfold range. now rewrite seq_nth. Qed.

Lemma in_range (a n k : nat) : In k (range a n) <-> a <= k < a + n.
Proof. unfold range. apply in_seq. Qed.

(** ** Arrays *)

Section Arrays.

Variable A : Type.
Variable d : A.

Lemma shaped_mzeros (rows cols : nat) : shaped rows cols (mzeros d rows cols).
Proof.
  unfold shaped, mzeros. split; [apply repeat_length|].
  apply Forall_forall. intros r Hr. apply repeat_spec in Hr. subst r.
  apply repeat_length.
Qed.

Lemma mget_mzeros (rows cols i j : nat) : mget d (mzeros d rows cols) i j = d.
Proof.
  unfold mget, mzeros.
  destruct (Nat.lt_ge_cases i rows) as [Hi|Hi].
  - rewrite nth_repeat_lt by exact Hi.
    destruct (Nat.lt_ge_cases j cols) as [Hj|Hj].
    + now rewrite nth_repeat_lt.
    + apply nth_overflow. now rewrite repeat_length.
  - rewrite (nth_overflow (repeat (repeat d cols) rows)) by now rewrite repeat_length.
    now destruct j.
Qed.

Lemma shaped_row (rows cols i : nat) (m : list (list A)) :
  shaped rows cols m -> i < rows -> List.length (nth i m []) = cols.
Proof.
  intros [Hl Hr] Hi. rewrite Forall_forall in Hr. apply Hr, nth_In. lia.
Qed.

Lemma shaped_mset (rows cols i j : nat) (v : A) (m : list (list A)) :
  shaped rows cols m -> shaped rows cols (mset i j v m).
Proof.
  intros [Hl Hr]. unfold mset. split; [now rewrite length_list_set|].
  apply Forall_forall. intros r Hin.
  destruct (In_nth _ _ [] Hin) as [k [Hk Hnth]].
  rewrite length_list_set in Hk.
  destruct (Nat.lt_ge_cases i (List.length m)) as [Hi|Hi].
  - rewrite nth_list_set in Hnth by exact Hi.
    rewrite Forall_forall in Hr.
    destruct (Nat.eqb k i); subst r.
    + rewrite length_list_set. apply Hr, nth_In, Hi.
    + apply Hr, nth_In, Hk.
  - assert (Hid : forall (l : list (list A)) (n : nat) (x : list A),
               List.length l <= n -> list_set n x l = l).
    { induction l as [|h t IH]; intros [|n] x Hn; simpl in *; auto; try lia.
      rewrite IH; [reflexivity | lia]. }
    rewrite Hid in Hin by exact Hi.
    rewrite Forall_forall in Hr. now apply Hr.
Qed.

Lemma mget_mset (rows cols i j a b : nat) (v : A) (m : list (list A)) :
  shaped rows cols m -> i < rows -> j < cols ->
  mget d (mset i j v m) a b
  = if Nat.eqb a i && Nat.eqb b j then v else mget d m a b.
Proof.
  intros Hs Hi Hj. unfold mget, mset.
  rewrite nth_list_set by (destruct Hs as [Hl _]; lia).
  destruct (Nat.eqb a i) eqn:Ha; simpl; [|reflexivity].
  apply Nat.eqb_eq in Ha. subst a.
  rewrite nth_list_set by now rewrite (shaped_row Hs Hi).
  reflexivity.
Qed.

Lemma shaped_tabulate (rows cols : nat) (f : nat -> nat -> A) :
  shaped rows cols (tabulate rows cols f).
Proof.
  unfold shaped, tabulate, range. split; [now rewrite length_map, length_seq|].
  apply Forall_forall. intros r Hr. apply in_map_iff in Hr.
  destruct Hr as [i [<- _]]. now rewrite length_map, length_seq.
Qed.

Lemma mget_tabulate (rows cols i j : nat) (f : nat -> nat -> A) :
  i < rows -> j < cols -> mget d (tabulate rows cols f) i j = f i j.
Proof.
  intros Hi Hj. unfold mget, tabulate, range.
  rewrite nth_indep with (d' := map (f 0) (seq 0 cols))
    by now rewrite length_map, length_seq.
  rewrite (map_nth (fun i => map (f i) (seq 0 cols)) (seq 0 rows) 0 i).
  rewrite seq_nth by exact Hi. simpl.
  rewrite nth_indep with (d' := f i 0) by now rewrite length_map, length_seq.
  rewrite (map_nth (f i) (seq 0 cols) 0 j).
  now rewrite seq_nth.
Qed.

End Arrays.

(** Two arrays of one shape with the same entries are the same array. *)
Lemma list_ext (A : Type) (d : A) (a b : list A) :
  List.length a = List.length b ->
  (forall i, i < List.length a -> nth i a d = nth i b d) -> a = b.
Proof.
  revert b. induction a as [|x a IH]; intros [|y b] Hl Hn; simpl in Hl;
    try discriminate; [reflexivity|].
  f_equal.
  - apply (Hn 0). simpl. lia.
  - apply IH; [lia|]. intros i Hi. apply (Hn (S i)). simpl. lia.
Qed.

Lemma shaped_ext (A : Type) (d : A) (rows cols : nat) (a b : list (list A)) :
  shaped rows cols a -> shaped rows cols b ->
  (forall i j, i < rows -> j < cols -> mget d a i j = mget d b i j) -> a = b.
Proof.
  intros Ha Hb Hcell. apply (list_ext []).
  - destruct Ha, Hb. congruence.
  - intros i Hi. assert (Hi' : i < rows) by (destruct Ha; lia).
    apply (list_ext d).
    + now rewrite (shaped_row Ha Hi'), (shaped_row Hb Hi').
    + intros j Hj. rewrite (shaped_row Ha Hi') in Hj. now apply Hcell.
Qed.

Lemma length_zip_with (A B C : Type) (f : A -> B -> C) (a : list A) (b : list B) :
  List.length (zip_with f a b) = Nat.min (List.length a) (List.length b).
Proof.
  revert b. induction a as [|x a IH]; intros [|y b]; simpl; auto.
Qed.

Lemma nth_zip_with (A B C : Type) (f : A -> B -> C) (a : list A) (b : list B)
      (i : nat) (da : A) (db : B) (dc : C) :
  i < List.length a -> i < List.length b ->
  nth i (zip_with f a b) dc = f (nth i a da) (nth i b db).
Proof.
  revert b i. induction a as [|x a IH]; intros [|y b] i Ha Hb; simpl in *; try lia.
  destruct i as [|i]; [reflexivity|]. apply IH; lia.
Qed.

Lemma map_by_index (A B : Type) (d : A) (f : A -> B) (l : list A) :
  map f l = map (fun i => f (nth i l d)) (range 0 (List.length l)).
Proof.
  unfold range. induction l as [|x l IH]; simpl; [reflexivity|].
  f_equal. rewrite <- seq_shift, map_map. exact IH.
Qed.

Section RealArrays.

Variables rows cols : nat.

Local Abbreviation get := (mget 0%R).

Lemma shaped_mmap (A B : Type) (f : A -> B) (m : list (list A)) :
  shaped rows cols m -> shaped rows cols (mmap f m).
Proof.
  intros [Hl Hr]. unfold mmap. split; [now rewrite length_map|].
  apply Forall_forall. intros r Hin. apply in_map_iff in Hin.
  destruct Hin as [r0 [<- Hin]]. rewrite length_map.
  rewrite Forall_forall in Hr. now apply Hr.
Qed.

Lemma mget_mmap (A B : Type) (da : A) (db : B) (f : A -> B) (m : list (list A))
      (i j : nat) :
  shaped rows cols m -> i < rows -> j < cols ->
  mget db (mmap f m) i j = f (mget da m i j).
Proof.
  intros Hs Hi Hj. unfold mget, mmap.
  rewrite nth_indep with (d' := map f []) by (destruct Hs; rewrite length_map; lia).
  rewrite map_nth.
  rewrite nth_indep with (d' := f da)
    by (rewrite length_map, (shaped_row Hs Hi); exact Hj).
  apply map_nth.
Qed.

Lemma shaped_mzip (f : R -> R -> R) (a b : list (list R)) :
  shaped rows cols a -> shaped rows cols b -> shaped rows cols (mzip f a b).
Proof.
  intros Ha Hb. unfold mzip. split.
  - destruct Ha as [Ha _], Hb as [Hb _]. rewrite length_zip_with. lia.
  - apply Forall_forall. intros r Hin.
    destruct (In_nth _ _ [] Hin) as [i [Hi <-]].
    rewrite length_zip_with in Hi.
    assert (Hi' : i < rows) by (destruct Ha; lia).
    rewrite nth_zip_with with (da := []) (db := []) by (destruct Ha, Hb; lia).
    rewrite length_zip_with, (shaped_row Ha Hi'), (shaped_row Hb Hi'). lia.
Qed.

Lemma mget_mzip (f : R -> R -> R) (a b : list (list R)) (i j : nat) :
  shaped rows cols a -> shaped rows cols b -> i < rows -> j < cols ->
  get (mzip f a b) i j = f (get a i j) (get b i j).
Proof.
  intros Ha Hb Hi Hj. unfold mget, mzip.
  rewrite nth_zip_with with (da := []) (db := []) by (destruct Ha, Hb; lia).
  apply nth_zip_with; [now rewrite (shaped_row Ha Hi) | now rewrite (shaped_row Hb Hi)].
Qed.

Lemma shaped_tile (v : list R) :
  List.length v = cols -> shaped rows cols (tile v rows).
Proof.
  intros Hv. unfold tile. split; [apply repeat_length|].
  apply Forall_forall. intros r Hr. apply repeat_spec in Hr. now subst r.
Qed.

Lemma mget_tile (v : list R) (i j : nat) :
  i < rows -> get (tile v rows) i j = nth j v 0%R.
Proof. intros Hi. unfold mget, tile. now rewrite nth_repeat_lt. Qed.

Lemma length_col_sums (m : list (list R)) : List.length (col_sums cols m) = cols.
Proof. unfold col_sums, range. now rewrite length_map, length_seq. Qed.

Lemma nth_col_sums (m : list (list R)) (j : nat) :
  shaped rows cols m -> j < cols ->
  nth j (col_sums cols m) 0%R
  = sum_R (map (fun i => get m i j) (range 0 rows)).
Proof.
  intros [Hl _] Hj. unfold col_sums.
  rewrite nth_indep with (d' := (fun j => sum_R (map (fun row => nth j row 0%R) m)) 0)
    by (unfold range; now rewrite length_map, length_seq).
  rewrite (map_nth (fun j => sum_R (map (fun row => nth j row 0%R) m))).
  rewrite nth_range by exact Hj. simpl.
  rewrite (map_by_index [] (fun row => nth j row 0%R) m), Hl. reflexivity.
Qed.

End RealArrays.

(** ** Loops that may raise *)

Lemma for_each_invariant (A S : Type) (body : S -> A -> pyres S) (P : S -> Prop)
      (xs : list A) :
  (forall s x s', In x xs -> P s -> body s x = Ok s' -> P s') ->
  forall s s', P s -> for_each body xs s = Ok s' -> P s'.
Proof.
  induction xs as [|x xs IH]; intros Hbody s s' Hs Hrun; simpl in Hrun.
  - now injection Hrun as <-.
  - destruct (body s x) as [s1|e] eqn:Hb; simpl in Hrun; [|discriminate].
    apply IH with (s := s1); auto.
    + intros t y t' Hy. apply Hbody. now right.
    + apply (Hbody s x s1); auto. now left.
Qed.

Lemma for_each_total (A S : Type) (body : S -> A -> pyres S) (P : S -> Prop)
      (xs : list A) :
  (forall s x, In x xs -> P s -> exists s', body s x = Ok s' /\ P s') ->
  forall s, P s -> exists s', for_each body xs s = Ok s' /\ P s'.
Proof.
  induction xs as [|x xs IH]; intros Hbody s Hs; simpl.
  - now exists s.
  - destruct (Hbody s x) as [s1 [Hb Hs1]]; auto; [now left|].
    rewrite Hb. simpl. apply IH; auto.
    intros t y Hy. apply Hbody. now right.
Qed.

(** ** [parse_text] *)

Example split_example : split "  it's   a  test " = ["it's"; "a"; "test"].
Proof. reflexivity. Qed.

Example join_example : join " " ["it's"; "a"; "test"] = "it's a test".
Proof. reflexivity. Qed.


Section ParseTextFacts.

Variable stem_porter2 stem_paicehusk : string -> option string.
Variable ENGLISH_STOP_WORDS : list string.

Local Abbreviation word_step :=
  (parse_word stem_porter2 stem_paicehusk ENGLISH_STOP_WORDS).
Local Abbreviation doc_step :=
  (parse_doc stem_porter2 stem_paicehusk ENGLISH_STOP_WORDS).

(** With a selector that is no key of the dict literal, [.get] falls
    back to the word itself, and a [ValueError] of either stemmer is
    answered by the same text. *)
Lemma parse_word_unknown (sel : string) (rsw : bool) (word p : string)
      (e1 e2 : list string) :
  sel <> "porter2" -> sel <> "paicehusk" ->
  fst (word_step (Some sel) rsw (p, e1) word) = fst (word_step None rsw (p, e2) word).
Proof.
  intros Hp Hh. unfold parse_word.
  destruct (rsw && mem_string word ENGLISH_STOP_WORDS); [reflexivity|].
  destruct (String.eqb word ""); [reflexivity|].
  destruct (stem_porter2 word) as [sp|]; [|reflexivity].
  destruct (stem_paicehusk word) as [sh|]; [|reflexivity].
  simpl. apply String.eqb_neq in Hp, Hh. now rewrite Hp, Hh.
Qed.

Lemma parse_words_unknown (sel : string) (rsw : bool) (ws : list string) :
  sel <> "porter2" -> sel <> "paicehusk" ->
  forall (p : string) (e1 e2 : list string),
    fst (fold_left (word_step (Some sel) rsw) ws (p, e1))
    = fst (fold_left (word_step None rsw) ws (p, e2)).
Proof.
  intros Hp Hh. induction ws as [|w ws IH]; intros p e1 e2; [reflexivity|].
  cbn [fold_left].
  pose proof (parse_word_unknown rsw w p e1 e2 Hp Hh) as Hw.
  destruct (word_step (Some sel) rsw (p, e1) w) as [p1 e1'].
  destruct (word_step None rsw (p, e2) w) as [p2 e2'].
  simpl in Hw. subst p2. apply IH.
Qed.


Lemma parse_doc_unknown (sel : string) (lf rsw : bool) (ic : string)
      (s t : pt_state) (i : nat) :
  sel <> "porter2" -> sel <> "paicehusk" ->
  same_output s t ->
  same_output (doc_step (Some sel) lf rsw ic s i) (doc_step None lf rsw ic t i).
Proof.
  intros Hp Hh [Hd Hq]. unfold parse_doc. rewrite Hd.
  set (d2 := if lf then _ else _).
  pose proof (parse_words_unknown rsw (split d2) Hp Hh ""
                (error_words s) (error_words t)) as Hw.
  destruct (fold_left (word_step (Some sel) rsw) (split d2) ("", error_words s))
    as [p1 e1].
  destruct (fold_left (word_step None rsw) (split d2) ("", error_words t))
    as [p2 e2].
  simpl in Hw. subst p2. split; simpl; [reflexivity | now rewrite Hq].
Qed.

Lemma parse_loop_unknown (sel : string) (lf rsw : bool) (ic : string)
      (ixs : list nat) :
  sel <> "porter2" -> sel <> "paicehusk" ->
  forall s t, same_output s t ->
    same_output (fold_left (doc_step (Some sel) lf rsw ic) ixs s)
                (fold_left (doc_step None lf rsw ic) ixs t).
Proof.
  intros Hp Hh. induction ixs as [|i ixs IH]; intros s t Hst; [exact Hst|].
  cbn [fold_left]. apply IH. now apply parse_doc_unknown.
Qed.

(** C8.  With a stemmer selector other than ['porter2'] and
    ['paicehusk'], [parse_text] returns what it returns with no stemmer
    at all: every token goes through unstemmed, whatever the two
    stemmers do on it (the model has no raising path for the selector). *)
Theorem parse_text_unknown_stemmer (docs : list string) (sel : string)
        (lf rsw : bool) (ic : string) :
  sel <> "porter2" -> sel <> "paicehusk" ->
  parse_text stem_porter2 stem_paicehusk ENGLISH_STOP_WORDS docs (Some sel) lf rsw ic
  = parse_text stem_porter2 stem_paicehusk ENGLISH_STOP_WORDS docs None lf rsw ic.
Proof.
  intros Hp Hh. unfold parse_text, parse_loop.
  destruct (parse_loop_unknown lf rsw ic (range 0 (List.length docs)) Hp Hh
              (s := {| documents := docs; parsed_docs := []; error_words := [] |})
              (t := {| documents := docs; parsed_docs := []; error_words := [] |}))
    as [_ Hq]; [split; reflexivity|].
  now rewrite Hq.
Qed.

(** The loop leaves the documents it has not reached alone and stores
    the cleaned form of each one it visits. *)
Lemma parse_loop_documents (stemmer : option string) (lf rsw : bool) (ic : string)
      (todo : list string) :
  forall (done : list string) (st : pt_state),
    documents st = (done ++ todo)%list ->
    documents (fold_left (doc_step stemmer lf rsw ic)
                         (range (List.length done) (List.length todo)) st)
    = (done ++ map (cleaned lf ic) todo)%list.
Proof.
  induction todo as [|d todo IH]; intros done st Hst.
  - simpl. now rewrite Hst.
  - unfold range in *. simpl.
    replace (S (List.length done)) with (List.length (done ++ [cleaned lf ic d])%list)
      by (rewrite length_app; simpl; lia).
    rewrite IH with (done := (done ++ [cleaned lf ic d])%list).
    + now rewrite <- app_assoc.
    + unfold parse_doc. rewrite Hst, nth_middle_string.
      destruct (fold_left _ _ _) as [p e]. simpl.
      rewrite !list_set_middle, <- app_assoc. reflexivity.
Qed.

(** C9, as the code has it.  After the call every element of the
    caller's [documents] sequence holds its cleaned form: ignore
    characters blanked and white space collapsed (when [ignore_chars] is
    not empty), then lower-cased (when [lower] is set).  Stop-word
    removal and stemming are not written back. *)
Theorem parse_text_overwrites_documents (docs : list string)
        (stemmer : option string) (lf rsw : bool) (ic : string) :
  documents_after stem_porter2 stem_paicehusk ENGLISH_STOP_WORDS docs stemmer lf rsw ic
  = map (cleaned lf ic) docs.
Proof.
  unfold documents_after, parse_loop.
  apply (parse_loop_documents stemmer lf rsw ic docs []). reflexivity.
Qed.

End ParseTextFacts.


Lemma parse_text_unknown_stemmer_witness :
  "lovins" <> "porter2" /\ "lovins" <> "paicehusk" /\
  parse_text toy_stem toy_stem ["the"] ["The Dogs, the cats!"] (Some "lovins")
             true true default_ignore_chars
  = ["dogs cats"].
Proof.
  split; [discriminate|]. split; [discriminate|].
  rewrite (@parse_text_unknown_stemmer toy_stem toy_stem ["the"]
             ["The Dogs, the cats!"] "lovins" true true default_ignore_chars);
    [reflexivity | discriminate | discriminate].
Defined.

Example parse_text_porter2_example :
  parse_text toy_stem toy_stem ["the"] ["The Dogs, the cats!"] (Some "porter2")
             true true default_ignore_chars
  = ["dog cat"].
Proof. reflexivity. Qed.

(** C9 as stated fails: the call changes the caller's sequence. *)
Lemma parse_text_mutates_documents :
  documents_after toy_stem toy_stem ["the"] ["The Dogs, the cats!"] None
                  true true default_ignore_chars
  <> ["The Dogs, the cats!"].
Proof. vm_compute. discriminate. Qed.

(** ** L2 normalisation *)

Lemma sum_sq_zeros (n : nat) : sum_sq (zeros n) = 0%R.
Proof.
  unfold sum_sq, zeros, sum_R. induction n as [|n IH]; simpl; [reflexivity|].
  rewrite IH. lra.
Qed.

Lemma normalize_row_zeros (n : nat) : normalize_row (zeros n) = zeros n.
Proof.
  unfold normalize_row, l2_norm. rewrite sum_sq_zeros, sqrt_0.
  destruct (Req_dec_T 0 0) as [_|H]; [|now elim H].
  unfold zeros. induction n as [|n IH]; simpl; [reflexivity|].
  rewrite IH. f_equal. lra.
Qed.

Lemma Normalizer_ok (rows cols : nat) (m : list vector) :
  shaped rows cols m -> 0 < rows -> 0 < cols ->
  Normalizer_fit_transform m = Ok (normalize_l2 m).
Proof.
  intros [Hl Hr] Hrows Hcols. destruct m as [|r m]; simpl in Hl; [lia|].
  inversion Hr as [|? ? Hlen _]; subst.
  destruct r; simpl in Hcols; [lia | reflexivity].
Qed.

(** ** [term_vectors_from_dict] *)





Lemma dict_lookup_uniform (dim : nat) (d : vector_dict) (term : string) (v : vector) :
  uniform dim d -> dict_lookup term d = Some v -> List.length v = dim.
Proof.
  induction 1 as [|[k w] rest Hk _ IH]; simpl; [discriminate|].
  destruct (String.eqb term k); [|exact IH].
  intros [= <-]. exact Hk.
Qed.

Lemma length_zeros (n : nat) : List.length (zeros n) = n.
Proof. apply repeat_length. Qed.

Lemma tv_loop_invariant (d : vector_dict) (dim : nat) (k0 : string) (v0 : vector)
      (rest : vector_dict) :
  d = (k0, v0) :: rest -> uniform dim d ->
  forall (todo : list string) (done : list vector) (c : nat),
    for_each (tv_body d dim) todo
      {| term_vectors := (done ++ repeat (zeros dim) (List.length todo))%list;
         tv_i := List.length done; ctr_oov := c |}
    = Ok {| term_vectors := (done ++ map (resolve d dim) todo)%list;
            tv_i := List.length done + List.length todo;
            ctr_oov := c + count_oov d todo |}.
Proof.
  intros Hd Hu. induction todo as [|t todo IH]; intros done c.
  - simpl. unfold count_oov. simpl. now rewrite !Nat.add_0_r.
  - assert (Hv0 : List.length v0 = dim).
    { rewrite Hd in Hu. now inversion Hu. }
    cbn [for_each List.length repeat map].
    assert (Hstep : tv_body d dim
              {| term_vectors := (done ++ zeros dim :: repeat (zeros dim) (List.length todo))%list;
                 tv_i := List.length done; ctr_oov := c |} t
            = Ok {| term_vectors :=
                      ((done ++ [resolve d dim t]) ++ repeat (zeros dim) (List.length todo))%list;
                    tv_i := List.length (done ++ [resolve d dim t])%list;
                    ctr_oov := c + (if is_oov d t then 1 else 0) |}).
    { unfold tv_body, resolve, is_oov. cbn [term_vectors tv_i ctr_oov].
      destruct (dict_lookup t d) as [v|] eqn:Hl.
      - unfold assign_row. rewrite (dict_lookup_uniform t Hu Hl), Nat.eqb_refl.
        cbn [bind]. rewrite list_set_middle, <- app_assoc, length_app.
        cbn [List.length app]. now rewrite Nat.add_0_r.
      - rewrite Hd. cbn [first_value bind]. unfold assign_row.
        rewrite Hv0, length_zeros, Nat.eqb_refl. cbn [bind].
        rewrite list_set_middle, <- app_assoc, length_app. reflexivity. }
    rewrite Hstep. cbn [bind]. rewrite IH. f_equal.
    rewrite <- app_assoc, length_app. cbn [app List.length].
    unfold count_oov. cbn [filter].
    f_equal; [lia|]. destruct (is_oov d t); cbn [List.length]; lia.
Qed.

Lemma tv_loop_ok (d : vector_dict) (dim : nat) (targets : list string) :
  d <> [] -> uniform dim d ->
  tv_loop d targets
  = Ok {| term_vectors := map (resolve d dim) targets;
          tv_i := List.length targets;
          ctr_oov := count_oov d targets |}.
Proof.
  intros Hne Hu. destruct d as [|[k0 v0] rest]; [now elim Hne|].
  assert (Hv0 : List.length v0 = dim) by now inversion Hu.
  unfold tv_loop. cbn [first_value bind]. rewrite Hv0.
  exact (tv_loop_invariant eq_refl Hu targets [] 0).
Qed.

Lemma length_resolve (d : vector_dict) (dim : nat) (term : string) :
  uniform dim d -> List.length (resolve d dim term) = dim.
Proof.
  intros Hu. unfold resolve. destruct (dict_lookup term d) as [v|] eqn:Hl.
  - exact (dict_lookup_uniform term Hu Hl).
  - apply length_zeros.
Qed.

(** C7, as the code has it.  For a non-empty dictionary whose vectors all
    have [dim] entries (and, when normalisation is requested, at least
    one target term and one entry: scikit-learn refuses an empty array)
    the call returns a frame indexed by the target terms, with one row
    per target; the row of every target that is absent from the
    dictionary is the zero vector of [dim] entries, with or without
    normalisation; the misses are counted, and the count is printed when
    [verbose] is set (it is no part of the returned value). *)
Theorem term_vectors_from_dict_oov (d : vector_dict) (dim : nat)
        (targets : list string) (normalize verbose : bool) :
  d <> [] -> uniform dim d ->
  (normalize = true -> targets <> [] /\ 0 < dim) ->
  exists rows : list vector,
    term_vectors_from_dict d targets normalize verbose
    = Ok ({| df_index := targets; df_values := rows |},
          if verbose then [count_oov d targets] else [])
    /\ List.length rows = List.length targets
    /\ forall (i : nat) (term : string),
         nth_error targets i = Some term -> dict_lookup term d = None ->
         nth_error rows i = Some (zeros dim).
Proof.
  intros Hne Hu Hnorm. unfold term_vectors_from_dict.
  rewrite (tv_loop_ok targets Hne Hu). cbn [bind term_vectors ctr_oov].
  assert (Hrow : forall i term,
            nth_error targets i = Some term -> dict_lookup term d = None ->
            nth_error (map (resolve d dim) targets) i = Some (zeros dim)).
  { intros i term Hi Hmiss. rewrite nth_error_map, Hi. cbn.
    unfold resolve. now rewrite Hmiss. }
  destruct normalize.
  - destruct (Hnorm eq_refl) as [Ht Hdim].
    assert (Hs : shaped (List.length targets) dim (map (resolve d dim) targets)).
    { split; [apply length_map|]. apply Forall_forall. intros r Hr.
      apply in_map_iff in Hr. destruct Hr as [t [<- _]]. now apply length_resolve. }
    rewrite (Normalizer_ok Hs);
      [|destruct targets; [now elim Ht | simpl; lia] | exact Hdim].
    cbn [bind]. eexists. split; [reflexivity|]. split.
    + unfold normalize_l2. now rewrite !length_map.
    + intros i term Hi Hmiss. unfold normalize_l2.
      rewrite nth_error_map, (Hrow i term Hi Hmiss). cbn.
      now rewrite normalize_row_zeros.
  - cbn [bind]. eexists. split; [reflexivity|]. split; [apply length_map | exact Hrow].
Qed.


Lemma term_vectors_from_dict_oov_witness :
  dict_3x4 <> [] /\ uniform 4 dict_3x4 /\
  (true = true -> ["situat"] <> [] /\ 0 < 4) /\
  exists rows : list vector,
    term_vectors_from_dict dict_3x4 ["situat"] true true
    = Ok ({| df_index := ["situat"]; df_values := rows |}, [1])
    /\ List.length rows = 1
    /\ forall (i : nat) (term : string),
         nth_error ["situat"] i = Some term -> dict_lookup term dict_3x4 = None ->
         nth_error rows i = Some (zeros 4).
Proof.
  assert (H3 : true = true -> ["situat"] <> [] /\ 0 < 4)
    by (intros _; split; [discriminate | lia]).
  split; [discriminate|]. split; [repeat constructor|]. split; [exact H3|].
  apply (@term_vectors_from_dict_oov dict_3x4 4 ["situat"] true true);
    [discriminate | repeat constructor | exact H3].
Defined.

(** The normaliser refuses an array without rows. *)
Example term_vectors_no_target :
  term_vectors_from_dict dict_3x4 [] true false = Raise ValueError.
Proof. reflexivity. Qed.

(** C7 as stated fails in one point: the caller is not told the tally.
    Without [verbose] a call with one miss and a call with none return
    the same value and print nothing. *)
Lemma oov_tally_not_reported :
  term_vectors_from_dict [("a", [0%R])] ["b"] true false
  = term_vectors_from_dict [("b", [0%R])] ["b"] true false
  /\ (exists s, tv_loop [("a", [0%R])] ["b"] = Ok s /\ ctr_oov s = 1)
  /\ (exists s, tv_loop [("b", [0%R])] ["b"] = Ok s /\ ctr_oov s = 0).
Proof.
  split; [reflexivity|]. split; eexists; split; reflexivity.
Qed.

Lemma for_each_never (A S : Type) (body : S -> A -> pyres S) (e : exn) (xs : list A) :
  (forall s x, body s x <> Raise e) -> forall s, for_each body xs s <> Raise e.
Proof.
  intros Hb. induction xs as [|x xs IH]; intros s; [discriminate|].
  cbn [for_each]. destruct (body s x) as [s1|e1] eqn:E; cbn [bind]; [apply IH|].
  rewrite <- E. apply Hb.
Qed.

Lemma assign_row_no_stop (dim i : nat) (v : vector) (m : list vector) :
  assign_row dim i v m <> Raise StopIteration.
Proof.
  unfold assign_row. destruct (Nat.eqb (List.length v) dim); [discriminate|].
  destruct v as [|x [|y v]]; discriminate.
Qed.

(** Only the probe can stop the iteration, and only on an empty
    dictionary. *)
Lemma tv_loop_no_stop (d : vector_dict) (targets : list string) :
  d <> [] -> tv_loop d targets <> Raise StopIteration.
Proof.
  intros Hne. destruct d as [|[k0 v0] rest]; [now elim Hne|].
  unfold tv_loop. cbn [first_value bind]. apply for_each_never.
  intros st term. unfold tv_body.
  destruct (dict_lookup term ((k0, v0) :: rest)) as [v|]; cbn [first_value bind].
  - destruct (assign_row _ _ v _) eqn:E; cbn [bind]; [discriminate|].
    intros [= ->]. exact (assign_row_no_stop _ _ _ _ E).
  - destruct (assign_row _ _ (zeros _) _) eqn:E; cbn [bind]; [discriminate|].
    intros [= ->]. exact (assign_row_no_stop _ _ _ _ E).
Qed.

(** C10.  With an empty dictionary the dimensionality probe has nothing
    to take: the call raises [StopIteration], whatever the target terms
    are; and this is the only way for the call to raise it. *)
Theorem term_vectors_from_dict_empty :
  (forall (targets : list string) (normalize verbose : bool),
     term_vectors_from_dict [] targets normalize verbose = Raise StopIteration)
  /\ (forall (d : vector_dict) (targets : list string) (normalize verbose : bool),
        term_vectors_from_dict d targets normalize verbose = Raise StopIteration ->
        d = []).
Proof.
  split; [reflexivity|].
  intros d targets normalize verbose Hrun.
  destruct d as [|kv rest]; [reflexivity|]. exfalso.
  unfold term_vectors_from_dict in Hrun.
  pose proof (@tv_loop_no_stop (kv :: rest) targets) as Hloop.
  destruct (tv_loop (kv :: rest) targets) as [st|e]; cbn [bind] in Hrun.
  - destruct normalize; cbn [bind] in Hrun; [|discriminate].
    unfold Normalizer_fit_transform in Hrun.
    destruct (term_vectors st) as [|[|x r] m]; discriminate.
  - injection Hrun as ->. now apply Hloop.
Qed.

Lemma term_vectors_from_dict_empty_witness :
  term_vectors_from_dict [] ["situat"] true false = Raise StopIteration
  /\ (term_vectors_from_dict [] ["situat"] true false = Raise StopIteration ->
      ([] : vector_dict) = []).
Proof.
  split.
  - exact (proj1 term_vectors_from_dict_empty ["situat"] true false).
  - exact (proj2 term_vectors_from_dict_empty [] ["situat"] true false).
Defined.

(** ** [recreate_construct_identity_gold] *)

Example test_rcig :
  recreate_construct_identity_gold
    [(1, 1); (1, 3); (2, 4); (2, 7); (2, 8)]%Z [1; 2]%Z None
  = Ok {| id_labels := [1; 3; 4; 7; 8]%Z;
          id_values := [[1; 1; 0; 0; 0];
                        [1; 1; 0; 0; 0];
                        [0; 0; 1; 1; 1];
                        [0; 0; 1; 1; 1];
                        [0; 0; 1; 1; 1]]%Z |}.
Proof. reflexivity. Qed.

Lemma index_of_Some (x : Z) (labels : list Z) (i : nat) :
  index_of x labels = Some i -> i < List.length labels /\ nth i labels 0%Z = x.
Proof.
  revert i. induction labels as [|h t IH]; intros i; simpl; [discriminate|].
  destruct (Z.eqb_spec x h) as [->|Hne].
  - intros [= <-]. split; [lia | reflexivity].
  - destruct (index_of x t) as [k|]; [|discriminate].
    intros [= <-]. destruct (IH k eq_refl). split; [lia | assumption].
Qed.

Lemma index_of_In (x : Z) (labels : list Z) :
  In x labels -> exists i, index_of x labels = Some i.
Proof.
  induction labels as [|h t IH]; simpl; [contradiction|].
  intros Hin. destruct (Z.eqb_spec x h) as [->|Hne]; [now exists 0|].
  destruct Hin as [->|Hin]; [now elim Hne|].
  destruct (IH Hin) as [k ->]. now exists (S k).
Qed.

Lemma in_insert_unique (x y : Z) (l : list Z) :
  In x (insert_unique y l) <-> x = y \/ In x l.
Proof.
  induction l as [|h t IH]; simpl; [intuition|].
  destruct (Z.ltb_spec y h); simpl; [intuition|].
  destruct (Z.eqb_spec y h) as [->|Hne]; simpl; [intuition|].
  rewrite IH. intuition.
Qed.

Lemma in_np_unique (x : Z) (l : list Z) : In x (np_unique l) <-> In x l.
Proof.
  unfold np_unique. induction l as [|h t IH]; simpl; [reflexivity|].
  rewrite in_insert_unique, IH. intuition.
Qed.


Lemma gold_inv_zeros (labels : list Z) :
  gold_inv labels (mzeros 0%Z (List.length labels) (List.length labels)).
Proof.
  split; [apply shaped_mzeros|]. intros i j _ _. left. apply mget_mzeros.
Qed.

Lemma gold_inv_set_cell (labels : list Z) (lo hi : Z) (m m' : list (list Z)) :
  (lo <= hi)%Z -> gold_inv labels m -> set_cell labels hi lo m = Ok m' ->
  gold_inv labels m'.
Proof.
  intros Hle [Hs Hcell]. unfold set_cell.
  destruct (index_of hi labels) as [j|] eqn:Hj; [|discriminate].
  destruct (index_of lo labels) as [i|] eqn:Hi; intros [= <-]; [|now split].
  destruct (index_of_Some _ _ Hj) as [Hjn _].
  destruct (index_of_Some _ _ Hi) as [Hin _].
  split; [now apply shaped_mset|].
  intros a b Ha Hb. rewrite (mget_mset 0%Z a b 1%Z Hs Hin Hjn).
  destruct (Nat.eqb a i && Nat.eqb b j) eqn:Hab; [|now apply Hcell].
  apply andb_prop in Hab. destruct Hab as [Hai Hbj].
  apply Nat.eqb_eq in Hai, Hbj. subst a b.
  right. split; [reflexivity|]. now exists lo, hi.
Qed.

Lemma gold_inv_pool (gs : gold_standard_t) (labels : list Z) (pool_id : Z)
      (m m' : list (list Z)) :
  gold_inv labels m -> gold_pool gs labels m pool_id = Ok m' -> gold_inv labels m'.
Proof.
  unfold gold_pool. intros Hm Hrun.
  eapply (@for_each_invariant _ _ _ (gold_inv labels)); [|exact Hm|exact Hrun].
  intros s ind_1 s' _ Hs Hrow. unfold gold_row in Hrow.
  eapply (@for_each_invariant _ _ _ (gold_inv labels)); [|exact Hs|exact Hrow].
  intros t ind_2 t' _ Ht Hpair. unfold gold_pair in Hpair.
  refine (gold_inv_set_cell _ Ht Hpair).
  apply Z.le_trans with (nth ind_1 (pool_var_ids gs pool_id) 0%Z);
    [apply Z.le_min_l | apply Z.le_max_l].
Qed.

Lemma gold_inv_loop (gs : gold_standard_t) (labels pool_ids : list Z)
      (m : list (list Z)) :
  for_each (gold_pool gs labels) pool_ids
           (mzeros 0%Z (List.length labels) (List.length labels)) = Ok m ->
  gold_inv labels m.
Proof.
  intros Hrun.
  eapply (@for_each_invariant _ _ _ (gold_inv labels));
    [|exact (gold_inv_zeros labels)|exact Hrun].
  intros s pool_id s' _. apply gold_inv_pool.
Qed.

(** Off the diagonal the array and its transpose never both hold a 1. *)
Lemma gold_inv_one_sided (labels : list Z) (m : list (list Z)) (i j : nat) :
  gold_inv labels m -> i < List.length labels -> j < List.length labels -> i <> j ->
  mget 0%Z m i j = 0%Z \/ mget 0%Z m j i = 0%Z.
Proof.
  intros [_ Hcell] Hi Hj Hne.
  destruct (Hcell i j Hi Hj) as [H0|[_ [r [c [Hrc [Hr Hc]]]]]]; [now left|].
  destruct (Hcell j i Hj Hi) as [H0|[_ [r' [c' [Hrc' [Hr' Hc']]]]]]; [now right|].
  exfalso. apply Hne.
  destruct (index_of_Some _ _ Hr) as [_ Er], (index_of_Some _ _ Hc) as [_ Ec].
  destruct (index_of_Some _ _ Hr') as [_ Er'], (index_of_Some _ _ Hc') as [_ Ec'].
  assert (Heq : r = c) by lia. congruence.
Qed.


Lemma mirrored_ok (labels : list Z) (m : list (list Z)) :
  gold_inv labels m ->
  identity_matrix_ok (List.length labels)
    (fill_diagonal (List.length labels) 1%Z (mirror_add (List.length labels) m)).
Proof.
  intros Hinv. set (n := List.length labels).
  assert (Hget : forall i j, i < n -> j < n ->
            mget 0%Z (fill_diagonal n 1%Z (mirror_add n m)) i j
            = if Nat.eqb i j then 1%Z else (mget 0%Z m i j + mget 0%Z m j i)%Z).
  { intros i j Hi Hj. unfold fill_diagonal. rewrite mget_tabulate by assumption.
    destruct (Nat.eqb i j); [reflexivity|].
    unfold mirror_add. now rewrite mget_tabulate. }
  repeat split.
  - unfold fill_diagonal, tabulate, range. now rewrite length_map, length_seq.
  - apply (shaped_tabulate n n).
  - intros i j Hi Hj. rewrite Hget by assumption.
    destruct (Nat.eqb_spec i j) as [_|Hne]; [now right|].
    destruct Hinv as [Hs Hcell].
    destruct (gold_inv_one_sided (conj Hs Hcell) Hi Hj Hne) as [H0|H0]; rewrite H0.
    + destruct (Hcell j i Hj Hi) as [->|[-> _]]; [now left | now right].
    + destruct (Hcell i j Hi Hj) as [->|[-> _]]; [now left | now right].
  - intros i j Hi Hj. rewrite !Hget by assumption.
    rewrite (Nat.eqb_sym j i). destruct (Nat.eqb i j); [reflexivity | lia].
  - intros i Hi. rewrite Hget by assumption. now rewrite Nat.eqb_refl.
Qed.

(** With the labels taken from the pools every label the loops ask for
    is there: the call returns. *)
Lemma gold_loop_total (gs : gold_standard_t) (pool_ids : list Z) :
  let labels := np_unique (ids_in_pools gs pool_ids) in
  exists m,
    for_each (gold_pool gs labels) pool_ids
             (mzeros 0%Z (List.length labels) (List.length labels)) = Ok m.
Proof.
  intros labels.
  destruct (@for_each_total _ _ (gold_pool gs labels) (fun _ => True) pool_ids)
    with (s := mzeros 0%Z (List.length labels) (List.length labels))
    as [m [Hm _]]; auto; [|now exists m].
  intros s pool_id Hpool _. unfold gold_pool.
  set (pvs := pool_var_ids gs pool_id).
  assert (Hlab : forall k, k < List.length pvs -> In (nth k pvs 0%Z) labels).
  { intros k Hk. apply in_np_unique. unfold ids_in_pools.
    assert (Hin : In (nth k pvs 0%Z) pvs) by now apply nth_In.
    unfold pvs, pool_var_ids in Hin. apply in_map_iff in Hin.
    destruct Hin as [r [Hr Hf]]. apply filter_In in Hf. destruct Hf as [Hgs Heq].
    apply in_map_iff. exists r. split; [exact Hr|].
    apply filter_In. split; [exact Hgs|].
    unfold mem_Z. apply existsb_exists. exists pool_id. now split. }
  apply for_each_total with (P := fun _ => True); auto.
  intros s1 ind_1 H1 _. unfold gold_row.
  apply for_each_total with (P := fun _ => True); auto.
  intros s2 ind_2 H2 _. apply in_range in H1, H2.
  unfold gold_pair, set_cell.
  assert (Hhi : In (Z.max (nth ind_1 pvs 0%Z) (nth ind_2 pvs 0%Z)) labels).
  { destruct (Z.max_spec (nth ind_1 pvs 0%Z) (nth ind_2 pvs 0%Z)) as [[_ ->]|[_ ->]];
      apply Hlab; lia. }
  destruct (index_of_In _ _ Hhi) as [j ->].
  destruct (index_of _ labels); eauto.
Qed.

(** C6.  For a non-empty pool list the call with the default labels
    returns, and whatever frame a call returns (with the labels taken
    from the pools, or with duplicate-free labels passed in) is square,
    holds only 0 and 1, is symmetric and has ones on its diagonal. *)
Theorem recreate_construct_identity_gold_ok (gs : gold_standard_t) (pool_ids : list Z) :
  pool_ids <> [] ->
  (exists g, recreate_construct_identity_gold gs pool_ids None = Ok g)
  /\ forall (full_var_ids : option (list Z)) (g : id_frame),
       match full_var_ids with Some ids => NoDup ids | None => True end ->
       recreate_construct_identity_gold gs pool_ids full_var_ids = Ok g ->
       identity_matrix_ok (List.length (id_labels g)) (id_values g).
Proof.
  intros _. split.
  - unfold recreate_construct_identity_gold.
    destruct (gold_loop_total gs pool_ids) as [m Hm]. cbv zeta in Hm.
    rewrite Hm. simpl. eauto.
  - intros full g _ Hrun. unfold recreate_construct_identity_gold in Hrun.
    set (labels := match full with Some ids => ids | None => _ end) in Hrun.
    destruct (for_each _ _ _) as [m|e] eqn:Hloop; simpl in Hrun; [|discriminate].
    injection Hrun as <-. simpl.
    apply mirrored_ok. now apply gold_inv_loop with (gs := gs) (pool_ids := pool_ids).
Qed.

Lemma recreate_construct_identity_gold_ok_witness :
  [1; 2]%Z <> [] /\
  ((exists g, recreate_construct_identity_gold
                [(1, 1); (1, 3); (2, 4); (2, 7); (2, 8)]%Z [1; 2]%Z None = Ok g)
   /\ forall (full_var_ids : option (list Z)) (g : id_frame),
       match full_var_ids with Some ids => NoDup ids | None => True end ->
       recreate_construct_identity_gold
         [(1, 1); (1, 3); (2, 4); (2, 7); (2, 8)]%Z [1; 2]%Z full_var_ids = Ok g ->
       identity_matrix_ok (List.length (id_labels g)) (id_values g)).
Proof.
  split; [discriminate|].
  apply (@recreate_construct_identity_gold_ok
           [(1, 1); (1, 3); (2, 4); (2, 7); (2, 8)]%Z [1; 2]%Z).
  discriminate.
Defined.

(** C6 as stated fails for the function of this name in [myLSA.py],
    which fills one side of the diagonal only: on the gold standard of
    [test_rcig] its diagonal is zero and the frame is not symmetric. *)
Lemma myLSA_identity_gold_not_symmetric :
  exists g : id_frame,
    myLSA_recreate_construct_identity_gold
      [1; 3; 4; 7; 8]%Z [(1, 1); (1, 3); (2, 4); (2, 7); (2, 8)]%Z = Ok g
    /\ pd_unique (map fst [(1, 1); (1, 3); (2, 4); (2, 7); (2, 8)]%Z) = [1; 2]%Z
    /\ mget 0%Z (id_values g) 0 0 = 0%Z
    /\ mget 0%Z (id_values g) 1 0 = 1%Z
    /\ mget 0%Z (id_values g) 0 1 = 0%Z
    /\ ~ identity_matrix_ok (List.length (id_labels g)) (id_values g).
Proof.
  eexists. split; [reflexivity|]. cbn [id_labels id_values].
  split; [reflexivity|]. split; [reflexivity|]. split; [reflexivity|].
  split; [reflexivity|].
  intros [_ [_ [_ Hdiag]]]. specialize (Hdiag 0 ltac:(cbn; lia)). discriminate.
Qed.

(** ** [document_term_cooccurrence] *)

Example tokenize_example :
  tokenize "mari don't like a situat" = ["mari"; "don"; "like"; "situat"].
Proof. reflexivity. Qed.

Example count_mode_example :
  document_term_cooccurrence ["aa bb"; "bb cc"] "count"
  = Ok ({| dt_index := ["aa bb"; "bb cc"];
           dt_columns := ["aa"; "bb"; "cc"];
           dt_data := IntMatrix [[1; 1; 0]; [0; 1; 1]]%Z |},
        ["aa"; "bb"; "cc"]).
Proof. reflexivity. Qed.

(** C3 as stated fails: the tokens of one character are no terms, and a
    corpus of such tokens only has no vocabulary at all. *)
Lemma single_letter_corpus_raises :
  document_term_cooccurrence ["a b"; "b c"] "count" = Raise ValueError.
Proof. reflexivity. Qed.

(** *** The log-entropy weighting *)

Lemma np_log_masked_ln (x : R) : np_log_masked x = ln x.
Proof.
  unfold np_log_masked. destruct (Req_dec_T x 0) as [->|_]; [|reflexivity].
  unfold ln. destruct (Rlt_dec 0 0) as [H|_]; [|reflexivity].
  exfalso. apply (Rlt_irrefl 0 H).
Qed.

Section LogEntropy.

Variables rows cols : nat.
Variable dt : list (list R).
Hypothesis Hdt : shaped rows cols dt.

Local Abbreviation get := (mget 0%R).

Lemma dt_rows : List.length dt = rows.
Proof. exact (proj1 Hdt). Qed.

Lemma shaped_p_matrix :
  shaped rows cols (mzip Rdiv dt (tile (col_sums cols dt) rows)).
Proof.
  apply shaped_mzip; [exact Hdt|]. apply shaped_tile, length_col_sums.
Qed.

Lemma mget_p_matrix (i j : nat) :
  i < rows -> j < cols ->
  get (mzip Rdiv dt (tile (col_sums cols dt) rows)) i j = p_at dt i j.
Proof.
  intros Hi Hj.
  assert (Hcs : shaped rows cols (tile (col_sums cols dt) rows))
    by apply shaped_tile, length_col_sums.
  rewrite (mget_mzip Rdiv Hdt Hcs Hi Hj).
  rewrite mget_tile by exact Hi.
  rewrite (nth_col_sums Hdt Hj). unfold p_at, column_total. now rewrite dt_rows.
Qed.

(** The weighting shared by the two sources, for any way [lg] of taking
    the logarithm of the proportions. *)
Lemma weighting_cell (lg : R -> R) (i j : nat) :
  i < rows -> j < cols ->
  let p_matrix := mzip Rdiv dt (tile (col_sums cols dt) rows) in
  get (mzip Rmult dt
         (mzip Rmult (mmap (fun x => ln (x + 1)%R) dt)
            (tile (map (fun x => (1 + x / ln (INR rows + 1))%R)
                       (col_sums cols (mzip Rmult p_matrix (mmap lg p_matrix))))
                  rows))) i j
  = (get dt i j * ln (get dt i j + 1)
     * (1 + sum_R (map (fun d => p_at dt d j * lg (p_at dt d j)) (range 0 rows))
            / ln (INR rows + 1)))%R.
Proof.
  intros Hi Hj p_matrix.
  pose proof shaped_p_matrix as Hp. fold p_matrix in Hp.
  assert (Hlp : shaped rows cols (mmap lg p_matrix)) by now apply shaped_mmap.
  assert (Hpl : shaped rows cols (mzip Rmult p_matrix (mmap lg p_matrix)))
    by now apply shaped_mzip.
  set (gw := map _ (col_sums cols _)).
  assert (Hgw : List.length gw = cols)
    by (unfold gw; now rewrite length_map, length_col_sums).
  assert (Hloc : shaped rows cols (mmap (fun x => ln (x + 1)%R) dt))
    by now apply shaped_mmap.
  assert (Hgt : shaped rows cols (tile gw rows)) by now apply shaped_tile.
  rewrite (mget_mzip Rmult Hdt (shaped_mzip Rmult Hloc Hgt) Hi Hj).
  rewrite (mget_mzip Rmult Hloc Hgt Hi Hj).
  rewrite (mget_mmap 0%R 0%R _ Hdt Hi Hj), mget_tile by exact Hi.
  unfold gw.
  rewrite nth_indep with (d' := (fun x => (1 + x / ln (INR rows + 1))%R) 0%R)
    by (rewrite length_map, length_col_sums; exact Hj).
  rewrite (map_nth (fun x => (1 + x / ln (INR rows + 1))%R)).
  rewrite (nth_col_sums Hpl Hj).
  rewrite Rmult_assoc. do 3 f_equal. f_equal. f_equal.
  apply map_ext_in. intros d Hd. apply in_range in Hd.
  rewrite (mget_mzip Rmult Hp Hlp) by (lia || exact Hj).
  rewrite (mget_mmap 0%R 0%R lg Hp) by (lia || exact Hj).
  unfold p_matrix. rewrite mget_p_matrix by (lia || exact Hj). reflexivity.
Qed.

Lemma log_entropy_cell (i j : nat) :
  i < rows -> j < cols -> get (log_entropy cols dt) i j = log_l2_cell dt i j.
Proof.
  intros Hi Hj. unfold log_entropy. rewrite dt_rows.
  rewrite (weighting_cell (fun p => np_log_masked (p + 1)) Hi Hj).
  unfold log_l2_cell, global_weight. rewrite dt_rows.
  do 3 f_equal. f_equal. apply map_ext. intros d. now rewrite np_log_masked_ln.
Qed.

Lemma myLSA_log_entropy_cell (i j : nat) :
  i < rows -> j < cols -> get (myLSA_log_entropy cols dt) i j = myLSA_cell dt i j.
Proof.
  intros Hi Hj. unfold myLSA_log_entropy. rewrite dt_rows.
  rewrite (weighting_cell np_log_masked Hi Hj).
  unfold myLSA_cell, myLSA_global_weight. now rewrite dt_rows.
Qed.

Lemma shaped_log_entropy : shaped rows cols (log_entropy cols dt).
Proof.
  unfold log_entropy. rewrite dt_rows.
  apply shaped_mzip; [exact Hdt|]. apply shaped_mzip; [now apply shaped_mmap|].
  apply shaped_tile. now rewrite length_map, length_col_sums.
Qed.

(** The matrix operations of the [log_l2] branch compute the formula of
    the specification at every entry. *)
Lemma log_entropy_tabulate :
  log_entropy cols dt = tabulate rows cols (log_l2_cell dt).
Proof.
  apply (shaped_ext 0%R shaped_log_entropy (shaped_tabulate rows cols _)).
  intros i j Hi Hj. rewrite mget_tabulate by assumption.
  now apply log_entropy_cell.
Qed.

End LogEntropy.

Lemma myLSA_log_entropy_tabulate (rows cols : nat) (dt : list (list R)) :
  shaped rows cols dt ->
  myLSA_log_entropy cols dt = tabulate rows cols (myLSA_cell dt).
Proof.
  intros Hdt.
  assert (Hs : shaped rows cols (myLSA_log_entropy cols dt)).
  { unfold myLSA_log_entropy. destruct Hdt as [Hl Hr]. rewrite Hl.
    apply shaped_mzip; [now split|]. apply shaped_mzip; [now apply shaped_mmap|].
    apply shaped_tile. now rewrite length_map, length_col_sums. }
  apply (shaped_ext 0%R Hs (shaped_tabulate rows cols _)).
  intros i j Hi Hj. rewrite mget_tabulate by assumption.
  now apply myLSA_log_entropy_cell with (rows := rows) (cols := cols).
Qed.

(** Two rows of two entries with one normalised form are proportional. *)
Lemma normalize_row_pair (a0 a1 b0 b1 : R) :
  normalize_row [a0; a1] = normalize_row [b0; b1] -> (a0 * b1 = a1 * b0)%R.
Proof.
  unfold normalize_row.
  set (sa := if Req_dec_T (l2_norm [a0; a1]) 0 then 1%R else l2_norm [a0; a1]).
  set (sb := if Req_dec_T (l2_norm [b0; b1]) 0 then 1%R else l2_norm [b0; b1]).
  assert (Hsa : sa <> 0%R).
  { unfold sa. destruct (Req_dec_T (l2_norm [a0; a1]) 0); [lra | assumption]. }
  assert (Hsb : sb <> 0%R).
  { unfold sb. destruct (Req_dec_T (l2_norm [b0; b1]) 0); [lra | assumption]. }
  simpl. intros [= H0 H1].
  assert (E0 : (a0 * sb = b0 * sa)%R).
  { apply (f_equal (fun x => (x * sa * sb)%R)) in H0. field_simplify in H0; lra. }
  assert (E1 : (a1 * sb = b1 * sa)%R).
  { apply (f_equal (fun x => (x * sa * sb)%R)) in H1. field_simplify in H1; lra. }
  apply (Rmult_eq_reg_r sb); [|exact Hsb].
  replace (a0 * b1 * sb)%R with (b1 * (a0 * sb))%R by ring.
  replace (a1 * b0 * sb)%R with (b0 * (a1 * sb))%R by ring.
  rewrite E0, E1. ring.
Qed.

Lemma ln_2_bounds : (0 < ln 2 < ln 3)%R.
Proof.
  split.
  - rewrite <- ln_1. apply ln_increasing; lra.
  - apply ln_increasing; lra.
Qed.

(** C4 as stated fails in its second half: on the counts of
    [["aa bb"; "aa"]] the weighting of [myLSA.py] and the [log_l2]
    branch return different matrices. *)
Lemma log_entropy_variants_differ :
  count_vectorizer ["aa bb"; "aa"] = Ok (counts_2x2, ["aa"; "bb"])
  /\ Normalizer_fit_transform (log_entropy 2 (to_float counts_2x2))
     <> myLSA_dt_matrix_log_l2 2 (to_float counts_2x2).
Proof.
  split; [reflexivity|].
  assert (Hs : shaped 2 2 (to_float counts_2x2)) by (split; repeat constructor).
  unfold myLSA_dt_matrix_log_l2.
  rewrite (log_entropy_tabulate Hs), (myLSA_log_entropy_tabulate Hs).
  rewrite !(Normalizer_ok (shaped_tabulate 2 2 _)) by lia.
  cbn [tabulate range seq map normalize_l2].
  intros Hrow.
  apply (f_equal (fun r => match r with Ok m => hd [] m | Raise _ => [] end)) in Hrow.
  cbn [hd] in Hrow.
  apply normalize_row_pair in Hrow. revert Hrow.
  unfold log_l2_cell, myLSA_cell, global_weight, myLSA_global_weight, p_at,
    column_total.
  cbn [to_float counts_2x2 mmap map List.length range seq mget nth sum_R fold_right INR].
  rewrite !np_log_masked_ln.
  replace (1 / (1 + (1 + 0)) + 1)%R with (3 / 2)%R by lra.
  replace (1 / (1 + (1 + 0)))%R with (/ 2)%R by lra.
  replace (1 / (1 + (0 + 0)) + 1)%R with 2%R by lra.
  replace (1 / (1 + (0 + 0)))%R with 1%R by lra.
  replace (0 / (1 + (0 + 0)) + 1)%R with 1%R by lra.
  replace (0 / (1 + (0 + 0)))%R with 0%R by lra.
  replace (1 + 1 + 1)%R with 3%R by lra.
  replace (1 + 1)%R with 2%R by lra.
  rewrite ln_1, (ln_Rinv 2) by lra.
  replace (ln (3 / 2)) with (ln 3 - ln 2)%R by (unfold Rdiv; rewrite ln_mult, ln_Rinv; lra).
  destruct ln_2_bounds as [H2 H3].
  set (x := ln 2) in *. set (y := ln 3) in *.
  intros H.
  assert (Hy : (0 < y)%R) by lra.
  assert (Hq : (0 < x / y < 1)%R).
  { split; [apply Rdiv_lt_0_compat; lra|].
    apply (Rmult_lt_reg_r y); [lra|]. unfold Rdiv. rewrite Rmult_assoc, Rinv_l; lra. }
  set (q := (x / y)%R) in *.
  assert (E1 : ((/ 2 * (y - x) + (/ 2 * (y - x) + 0)) / y = 1 - q)%R)
    by (unfold q; field; lra).
  assert (E2 : ((1 * x + (0 * 0 + 0)) / y = q)%R) by (unfold q; field; lra).
  assert (E3 : ((/ 2 * - x + (/ 2 * - x + 0)) / y = - q)%R) by (unfold q; field; lra).
  assert (E4 : ((1 * 0 + (0 * ln 0 + 0)) / y = 0)%R) by (field; lra).
  rewrite ?E1, ?E2, ?E3, ?E4 in H.
  nra.
Qed.

(** *** The count matrix *)

Lemma in_insert_term (x y : string) (l : list string) :
  In x (insert_term y l) <-> x = y \/ In x l.
Proof.
  induction l as [|h t IH]; simpl; [intuition|].
  destruct (String.eqb_spec y h) as [->|Hne]; simpl; [intuition|].
  destruct (String.ltb y h); simpl; [intuition|].
  rewrite IH. intuition.
Qed.

Lemma in_vocabulary (corpus : list string) (t : string) :
  In t (vocabulary corpus) <-> exists doc, In doc corpus /\ In t (tokenize doc).
Proof.
  unfold vocabulary.
  assert (H : forall l, In t (fold_right insert_term [] l) <-> In t l).
  { induction l as [|h l IH]; simpl; [reflexivity|].
    rewrite in_insert_term, IH. intuition. }
  rewrite H, in_concat. split.
  - intros [toks [Hm Ht]]. apply in_map_iff in Hm. destruct Hm as [doc [<- Hd]].
    now exists doc.
  - intros [doc [Hd Ht]]. exists (tokenize doc). split; [|exact Ht].
    now apply in_map.
Qed.

Lemma count_term_nonneg (t : string) (toks : list string) : (0 <= count_term t toks)%Z.
Proof.
  induction toks as [|h toks IH]; simpl; [lia|].
  destruct (String.eqb t h); lia.
Qed.

Lemma count_term_pos (t : string) (toks : list string) :
  In t toks -> (1 <= count_term t toks)%Z.
Proof.
  induction toks as [|h toks IH]; simpl; [contradiction|].
  pose proof (count_term_nonneg t toks).
  intros [->|Hin]; [rewrite String.eqb_refl; lia|].
  specialize (IH Hin). destruct (String.eqb t h); lia.
Qed.

Section CountMatrix.

Variable corpus terms : list string.

Local Abbreviation counts := (map (count_row terms) corpus).
Local Abbreviation n_docs := (List.length corpus).
Local Abbreviation n_terms := (List.length terms).

Lemma shaped_counts : shaped n_docs n_terms counts.
Proof.
  split; [apply length_map|]. apply Forall_forall. intros r Hr.
  apply in_map_iff in Hr. destruct Hr as [doc [<- _]].
  unfold count_row. apply length_map.
Qed.

Lemma mget_counts (i j : nat) :
  i < n_docs -> j < n_terms ->
  mget 0%Z counts i j = count_term (nth j terms "") (tokenize (nth i corpus "")).
Proof.
  intros Hi Hj. unfold mget.
  rewrite nth_indep with (d' := count_row terms "") by now rewrite length_map.
  rewrite (map_nth (count_row terms)). unfold count_row.
  rewrite nth_indep with (d' := (fun term => count_term term (tokenize (nth i corpus ""))) "")
    by now rewrite length_map.
  apply (map_nth (fun term => count_term term (tokenize (nth i corpus "")))).
Qed.

Lemma mget_counts_nonneg (i j : nat) :
  i < n_docs -> j < n_terms -> (0 <= mget 0%Z counts i j)%Z.
Proof. intros Hi Hj. rewrite mget_counts by assumption. apply count_term_nonneg. Qed.

Lemma shaped_float_counts : shaped n_docs n_terms (to_float counts).
Proof. apply shaped_mmap, shaped_counts. Qed.

Lemma mget_float_counts (i j : nat) :
  i < n_docs -> j < n_terms ->
  mget 0%R (to_float counts) i j = IZR (mget 0%Z counts i j).
Proof. intros Hi Hj. apply (mget_mmap 0%Z 0%R IZR shaped_counts Hi Hj). Qed.

(** A document without tokens has a row of zero counts. *)
Lemma counts_of_empty_doc (i j : nat) :
  i < n_docs -> j < n_terms -> tokenize (nth i corpus "") = [] ->
  mget 0%Z counts i j = 0%Z.
Proof. intros Hi Hj He. rewrite mget_counts by assumption. now rewrite He. Qed.

(** A document with a token counts it in the column of that term, when
    the terms are the fitted vocabulary. *)
Lemma counts_of_doc_with_token (i : nat) :
  terms = vocabulary corpus -> i < n_docs -> tokenize (nth i corpus "") <> [] ->
  exists j, j < n_terms /\ (1 <= mget 0%Z counts i j)%Z.
Proof.
  intros Hv Hi Hne.
  destruct (tokenize (nth i corpus "")) as [|t toks] eqn:Ht; [now elim Hne|].
  assert (Hin : In t terms).
  { rewrite Hv. apply in_vocabulary. exists (nth i corpus ""). split.
    - now apply nth_In.
    - rewrite Ht. now left. }
  destruct (In_nth _ _ "" Hin) as [j [Hj Hnth]]. exists j. split; [exact Hj|].
  rewrite mget_counts, Hnth, Ht by assumption. apply count_term_pos. now left.
Qed.

End CountMatrix.

Lemma count_vectorizer_ok (corpus : list string) (counts : list (list Z))
      (terms : list string) :
  count_vectorizer corpus = Ok (counts, terms) ->
  terms = vocabulary corpus /\ counts = map (count_row terms) corpus.
Proof.
  unfold count_vectorizer. destruct (vocabulary corpus) as [|t ts]; [discriminate|].
  intros [= <- <-]. now split.
Qed.

(** *** Rows of norm one *)

Lemma sum_R_nonneg (v : list R) : Forall (Rle 0) v -> (0 <= sum_R v)%R.
Proof.
  unfold sum_R. induction 1 as [|x v Hx _ IH]; simpl; lra.
Qed.

Lemma sum_R_ge_member (v : list R) (y : R) :
  Forall (Rle 0) v -> In y v -> (y <= sum_R v)%R.
Proof.
  induction 1 as [|x v Hx Hv IH]; [contradiction|].
  pose proof (sum_R_nonneg Hv) as Hs. unfold sum_R in *. simpl.
  intros [->|Hin]; [lra|]. specialize (IH Hin). lra.
Qed.

Lemma sum_sq_nonneg (v : list R) : (0 <= sum_sq v)%R.
Proof.
  unfold sum_sq. apply sum_R_nonneg, Forall_forall. intros y Hy.
  apply in_map_iff in Hy. destruct Hy as [x [<- _]]. apply Rle_0_sqr.
Qed.

Lemma sum_sq_pos (v : list R) (x : R) : In x v -> x <> 0%R -> (0 < sum_sq v)%R.
Proof.
  intros Hin Hx.
  assert (Hle : (x * x <= sum_sq v)%R).
  { unfold sum_sq. apply sum_R_ge_member.
    - apply Forall_forall. intros y Hy. apply in_map_iff in Hy.
      destruct Hy as [z [<- _]]. apply Rle_0_sqr.
    - apply in_map_iff. now exists x. }
  nra.
Qed.

Lemma sum_sq_scale (v : list R) (s : R) :
  s <> 0%R -> sum_sq (map (fun x => (x / s)%R) v) = (sum_sq v / (s * s))%R.
Proof.
  intros Hs. unfold sum_sq, sum_R.
  induction v as [|x v IH]; simpl; [field; exact Hs|].
  rewrite IH. field. exact Hs.
Qed.

(** Normalising a row that is not all zero gives a row of norm one. *)
Lemma normalize_row_unit (v : list R) :
  (0 < sum_sq v)%R -> l2_norm (normalize_row v) = 1%R.
Proof.
  intros Hpos. unfold normalize_row.
  assert (Hn : (0 < l2_norm v)%R) by now apply sqrt_lt_R0.
  destruct (Req_dec_T (l2_norm v) 0) as [H0|_]; [lra|].
  unfold l2_norm at 1. rewrite sum_sq_scale by lra.
  unfold l2_norm. rewrite sqrt_sqrt by lra.
  replace (sum_sq v / sum_sq v)%R with 1%R by (field; lra).
  apply sqrt_1.
Qed.

Lemma nth_error_row (A : Type) (rows cols i : nat) (m : list (list A)) (row : list A) :
  shaped rows cols m -> nth_error m i = Some row ->
  i < rows /\ row = nth i m [] /\ List.length row = cols.
Proof.
  intros Hs Hn.
  assert (Hi : i < rows).
  { destruct Hs as [Hl _]. rewrite <- Hl. apply nth_error_Some. congruence. }
  assert (Hr : row = nth i m []) by (symmetry; now apply nth_error_nth).
  repeat split; auto. rewrite Hr. now apply (shaped_row Hs).
Qed.

(** A weighting that multiplies every count by a factor which is
    positive wherever the count is, followed by the normalisation,
    gives rows as C5 asks. *)
Lemma weighted_unit_rows (corpus terms : list string) (w : list (list R))
      (f : nat -> nat -> R) :
  terms = vocabulary corpus ->
  shaped (List.length corpus) (List.length terms) w ->
  (forall i j, i < List.length corpus -> j < List.length terms ->
     mget 0%R w i j = (IZR (mget 0%Z (map (count_row terms) corpus) i j) * f i j)%R) ->
  (forall i j, i < List.length corpus -> j < List.length terms ->
     (1 <= mget 0%Z (map (count_row terms) corpus) i j)%Z -> (0 < f i j)%R) ->
  unit_rows corpus (normalize_l2 w).
Proof.
  intros Hv Hs Hcell Hpos. unfold unit_rows, normalize_l2. split.
  - rewrite length_map. now destruct Hs.
  - intros i row Hrow. rewrite nth_error_map in Hrow.
    destruct (nth_error w i) as [r|] eqn:Hr; cbn in Hrow; [|discriminate].
    injection Hrow as <-.
    destruct (nth_error_row i Hs Hr) as [Hi [Er Hlen]].
    destruct (tokenize (nth i corpus "")) as [|t toks] eqn:Ht.
    + left. split; [reflexivity|].
      assert (Hz : r = zeros (List.length terms)).
      { apply (list_ext 0%R); [now rewrite length_zeros|].
        intros j Hj. rewrite Hlen in Hj. unfold zeros.
        rewrite nth_repeat_lt by exact Hj.
        change (nth j r 0%R) with (mget 0%R [r] 0 j).
        rewrite Er. change (mget 0%R [nth i w []] 0 j) with (mget 0%R w i j).
        rewrite Hcell, (counts_of_empty_doc corpus terms Hi Hj Ht) by assumption.
        lra. }
      rewrite Hz, normalize_row_zeros. apply Forall_forall.
      intros x Hx. apply repeat_spec in Hx. now subst x.
    + right. split; [discriminate|].
      destruct (@counts_of_doc_with_token corpus terms i Hv Hi) as [j [Hj Hc]];
        [rewrite Ht; discriminate|].
      apply normalize_row_unit.
      apply sum_sq_pos with (x := mget 0%R w i j).
      * unfold mget. rewrite <- Er. apply nth_In. now rewrite Hlen.
      * rewrite Hcell by assumption.
        specialize (Hpos i j Hi Hj Hc). apply IZR_le in Hc.
        assert (0 < IZR (mget 0%Z (map (count_row terms) corpus) i j) * f i j)%R
          by (apply Rmult_lt_0_compat; lra).
        lra.
Qed.

(** *** The weights are positive where the counts are *)

Lemma doc_freq_le (counts : list (list Z)) (j : nat) :
  doc_freq counts j <= List.length counts.
Proof. unfold doc_freq. apply filter_length_le. Qed.

Lemma idf_at_pos (counts : list (list Z)) (j : nat) : (1 <= idf_at counts j)%R.
Proof.
  unfold idf_at. pose proof (doc_freq_le counts j) as Hle. apply le_INR in Hle.
  pose proof (pos_INR (doc_freq counts j)) as Hdf.
  assert (H1 : (1 <= (1 + INR (List.length counts)) / (1 + INR (doc_freq counts j)))%R).
  { apply (Rmult_le_reg_r (1 + INR (doc_freq counts j))); [lra|].
    unfold Rdiv. rewrite Rmult_assoc, Rinv_l; lra. }
  destruct H1 as [Hlt|<-]; [|rewrite ln_1; lra].
  apply ln_increasing in Hlt; [|lra]. rewrite ln_1 in Hlt. lra.
Qed.

Lemma tfidf_cell (rows cols i j : nat) (counts : list (list Z)) :
  shaped rows cols counts -> i < rows -> j < cols ->
  mget 0%R (tfidf cols counts) i j = (IZR (mget 0%Z counts i j) * idf_at counts j)%R.
Proof.
  intros Hs Hi Hj. unfold tfidf. destruct Hs as [Hl Hr]. rewrite Hl.
  set (idf := map _ (range 0 cols)).
  assert (Hidf : List.length idf = cols)
    by (unfold idf, range; now rewrite length_map, length_seq).
  assert (Hf : shaped rows cols (to_float counts)) by (apply shaped_mmap; now split).
  assert (Ht : shaped rows cols (tile idf rows)) by now apply shaped_tile.
  rewrite (mget_mzip Rmult Hf Ht Hi Hj), mget_tile by exact Hi.
  unfold to_float. rewrite (mget_mmap 0%Z 0%R IZR (conj Hl Hr) Hi Hj).
  f_equal. unfold idf, idf_at. rewrite Hl.
  set (g := fun j => (ln ((1 + INR rows) / (1 + INR (doc_freq counts j))) + 1)%R).
  rewrite nth_indep with (d' := g 0)
    by (unfold range; now rewrite length_map, length_seq).
  rewrite (map_nth g). now rewrite nth_range.
Qed.

Lemma ln_pos (x : R) : (1 < x)%R -> (0 < ln x)%R.
Proof. intros H. apply ln_increasing in H; [|lra]. now rewrite ln_1 in H. Qed.

Lemma ln_succ_nonneg (x : R) : (0 <= x)%R -> (0 <= ln (x + 1))%R.
Proof.
  intros [Hx|<-].
  - left. apply ln_pos. lra.
  - replace (0 + 1)%R with 1%R by lra. rewrite ln_1. lra.
Qed.

(** The global weight of a column is at least one as soon as one of its
    counts is positive and none is negative. *)
Lemma global_weight_ge_1 (rows cols i j : nat) (dt : list (list R)) :
  shaped rows cols dt -> i < rows -> j < cols ->
  (forall d, d < rows -> (0 <= mget 0%R dt d j)%R) ->
  (0 < mget 0%R dt i j)%R ->
  (1 <= global_weight dt j)%R.
Proof.
  intros [Hl Hr] Hi Hj Hnn Hpos. unfold global_weight. rewrite Hl.
  assert (Htot : (0 < column_total dt j)%R).
  { apply Rlt_le_trans with (mget 0%R dt i j); [exact Hpos|].
    unfold column_total. rewrite Hl. apply sum_R_ge_member.
    - apply Forall_forall. intros y Hy. apply in_map_iff in Hy.
      destruct Hy as [d [<- Hd]]. apply in_range in Hd. apply Hnn. lia.
    - apply in_map_iff. exists i. split; [reflexivity|]. apply in_range. lia. }
  assert (Hsum : (0 <= sum_R (map (fun d => p_at dt d j * ln (p_at dt d j + 1))
                                  (range 0 rows)))%R).
  { apply sum_R_nonneg, Forall_forall. intros y Hy. apply in_map_iff in Hy.
    destruct Hy as [d [<- Hd]]. apply in_range in Hd.
    assert (Hp : (0 <= p_at dt d j)%R).
    { unfold p_at. apply Rmult_le_pos; [apply Hnn; lia|].
      left. now apply Rinv_0_lt_compat. }
    apply Rmult_le_pos; [exact Hp | now apply ln_succ_nonneg]. }
  assert (Hln : (0 < ln (INR rows + 1))%R).
  { apply ln_pos.
    assert (1 <= INR rows)%R by (change 1%R with (INR 1); apply le_INR; lia). lra. }
  assert (0 <= sum_R (map (fun d => p_at dt d j * ln (p_at dt d j + 1)) (range 0 rows))
               / ln (INR rows + 1))%R.
  { apply Rmult_le_pos; [exact Hsum|]. left. now apply Rinv_0_lt_compat. }
  lra.
Qed.

(** *** The three normalised modes *)

Section NormalisedModes.

Variable corpus terms : list string.
Hypothesis Hterms : terms = vocabulary corpus.

Local Abbreviation counts := (map (count_row terms) corpus).
Local Abbreviation n_docs := (List.length corpus).
Local Abbreviation n_terms := (List.length terms).

Lemma l2_unit_rows : unit_rows corpus (normalize_l2 (to_float counts)).
Proof.
  apply weighted_unit_rows with (terms := terms) (f := fun _ _ => 1%R).
  - exact Hterms.
  - apply shaped_float_counts.
  - intros i j Hi Hj. rewrite mget_float_counts by assumption. lra.
  - intros. lra.
Qed.

Lemma tfidf_unit_rows : unit_rows corpus (normalize_l2 (tfidf n_terms counts)).
Proof.
  apply weighted_unit_rows with (terms := terms) (f := fun _ j => idf_at counts j).
  - exact Hterms.
  - unfold tfidf. rewrite length_map.
    apply shaped_mzip; [apply shaped_float_counts|].
    apply shaped_tile. unfold range. now rewrite length_map, length_seq.
  - intros i j Hi Hj. apply (tfidf_cell (shaped_counts corpus terms) Hi Hj).
  - intros i j _ _ _. pose proof (idf_at_pos counts j). lra.
Qed.

Lemma log_l2_unit_rows :
  unit_rows corpus (normalize_l2 (log_entropy n_terms (to_float counts))).
Proof.
  pose proof (shaped_float_counts corpus terms) as Hs.
  apply weighted_unit_rows with (terms := terms)
    (f := fun i j => (ln (mget 0%R (to_float counts) i j + 1)
                      * global_weight (to_float counts) j)%R).
  - exact Hterms.
  - now apply shaped_log_entropy.
  - intros i j Hi Hj. rewrite (log_entropy_cell Hs Hi Hj). unfold log_l2_cell.
    rewrite mget_float_counts by assumption. ring.
  - intros i j Hi Hj Hc.
    assert (Hc' : (1 <= mget 0%R (to_float counts) i j)%R).
    { rewrite mget_float_counts by assumption. now apply IZR_le. }
    apply Rmult_lt_0_compat.
    + apply ln_pos. lra.
    + apply Rlt_le_trans with 1%R; [lra|].
      apply (global_weight_ge_1 (i := i) Hs Hi Hj); [|lra].
      intros d Hd. rewrite mget_float_counts by assumption.
      apply IZR_le. now apply mget_counts_nonneg.
Qed.

End NormalisedModes.

(** The call, mode by mode. *)
Lemma document_term_cooccurrence_modes (corpus : list string) :
  document_term_cooccurrence corpus "count" = dtm_result corpus IntMatrix
  /\ document_term_cooccurrence corpus "l2"
     = dtm_result corpus (fun c => RealMatrix (normalize_l2 (to_float c)))
  /\ document_term_cooccurrence corpus "tfidf_l2"
     = dtm_result corpus
         (fun c => RealMatrix (tfidf_l2 (List.length (vocabulary corpus)) c))
  /\ document_term_cooccurrence corpus "log_l2"
     = dtm_result corpus
         (fun c => RealMatrix (normalize_l2
                     (log_entropy (List.length (vocabulary corpus)) (to_float c)))).
Proof.
  unfold document_term_cooccurrence, dtm_result, count_vectorizer, tfidf_l2.
  destruct (vocabulary corpus) as [|t ts] eqn:Hv; [repeat split; reflexivity|].
  assert (Hc : 0 < List.length corpus).
  { destruct corpus; [discriminate Hv | simpl; lia]. }
  assert (Ht : 0 < List.length (t :: ts)) by (simpl; lia).
  pose proof (shaped_float_counts corpus (t :: ts)) as Hs.
  pose proof (shaped_log_entropy Hs) as Hlog.
  cbn [bind String.eqb Ascii.eqb Bool.eqb andb].
  rewrite (Normalizer_ok Hs Hc Ht), (Normalizer_ok Hlog Hc Ht).
  repeat split; reflexivity.
Qed.

(** *** Tokens and space-separated words *)

Lemma word_char_not_space (c : ascii) : is_word_char c = true -> is_space c = false.
Proof.
  destruct c as [[] [] [] [] [] [] [] []]; vm_compute; congruence.
Qed.

Lemma length_rev_string (s acc : string) :
  String.length (rev_string acc s) = String.length acc + String.length s.
Proof.
  revert acc. induction s as [|c s IH]; intros acc; simpl; [lia|].
  rewrite IH. simpl. lia.
Qed.

Lemma flush_token_filter (cur : string) (out : list string) :
  flush_token cur (filter long_token out) = filter long_token (flush cur out).
Proof.
  destruct cur as [|c [|c' r]]; [reflexivity | reflexivity |].
  unfold flush_token, flush. cbn [filter].
  unfold long_token at 2. rewrite length_rev_string. reflexivity.
Qed.

Lemma filter_rev_string (f : string -> bool) (l : list string) :
  filter f (rev l) = rev (filter f l).
Proof.
  induction l as [|x l IH]; simpl; [reflexivity|].
  rewrite filter_app, IH. simpl.
  destruct (f x); simpl; [reflexivity | apply app_nil_r].
Qed.

Lemma tokenize_aux_plain (s : string) :
  plain_text s = true ->
  forall (cur : string) (out : list string),
    tokenize_aux s cur (filter long_token out)
    = filter long_token (split_aux s cur out).
Proof.
  unfold plain_text. induction s as [|c s IH]; intros Hp cur out.
  - cbn [tokenize_aux split_aux]. now rewrite flush_token_filter, filter_rev_string.
  - cbn [all_chars] in Hp. apply andb_prop in Hp. destruct Hp as [Hc Hs].
    cbn [tokenize_aux split_aux].
    destruct (is_word_char c) eqn:Hw.
    + rewrite (word_char_not_space c Hw). now apply IH.
    + simpl in Hc. rewrite Hc, flush_token_filter. now apply IH.
Qed.

(** On text of word characters and white space the tokens are the
    space-separated words of two characters or more. *)
Lemma tokenize_plain_text (doc : string) :
  plain_text doc = true -> tokenize doc = filter long_token (split doc).
Proof. intros Hp. exact (tokenize_aux_plain doc Hp "" []). Qed.

(** C3, as the code has it.  In mode ['count'] the call raises on a
    corpus without any token and otherwise returns the fitted terms with
    their counts; the terms are exactly the tokens of the documents, a
    token being a maximal run of two or more word characters taken as it
    stands (so, on text of word characters and white space, a
    space-separated word of two characters or more). *)
Theorem document_term_cooccurrence_vocabulary (corpus : list string) :
  document_term_cooccurrence corpus "count" = dtm_result corpus IntMatrix
  /\ (forall t : string,
        In t (vocabulary corpus)
        <-> exists doc, In doc corpus /\ In t (tokenize doc))
  /\ (forall doc : string,
        plain_text doc = true -> tokenize doc = filter long_token (split doc)).
Proof.
  split; [apply document_term_cooccurrence_modes|].
  split; [apply in_vocabulary | apply tokenize_plain_text].
Qed.

Lemma document_term_cooccurrence_vocabulary_witness :
  document_term_cooccurrence ["aa bb"; "bb cc"] "count"
  = Ok ({| dt_index := ["aa bb"; "bb cc"];
           dt_columns := ["aa"; "bb"; "cc"];
           dt_data := IntMatrix [[1; 1; 0]; [0; 1; 1]]%Z |},
        ["aa"; "bb"; "cc"])
  /\ plain_text "aa bb" = true
  /\ tokenize "aa bb" = filter long_token (split "aa bb").
Proof.
  destruct (document_term_cooccurrence_vocabulary ["aa bb"; "bb cc"]) as [Hc [_ Ht]].
  split; [exact Hc|]. split; [reflexivity|]. apply Ht. reflexivity.
Defined.

(** C4, as the code has it.  In mode ['log_l2'] every entry of the
    matrix that is normalised is the count times [ln(count + 1)] times
    the global weight [1 + (sum over the documents of p ln(p + 1)) /
    ln(n_docs + 1)] of its column, [p] being the count over the column
    total.  (The weighting of [myLSA.py] takes [ln p] instead and gives
    another matrix, as shown above.) *)
Theorem log_l2_formula (corpus : list string) :
  document_term_cooccurrence corpus "log_l2"
  = dtm_result corpus
      (fun c => RealMatrix
         (normalize_l2
            (tabulate (List.length corpus) (List.length (vocabulary corpus))
                      (log_l2_cell (to_float c))))).
Proof.
  destruct (document_term_cooccurrence_modes corpus) as [_ [_ [_ ->]]].
  unfold dtm_result. destruct (vocabulary corpus) as [|t ts] eqn:Hv; [reflexivity|].
  now rewrite (log_entropy_tabulate (shaped_float_counts corpus (t :: ts))).
Qed.

(** C5.  Under ['l2'], ['tfidf_l2'] and ['log_l2'] the call raises on a
    corpus without any token and otherwise returns a matrix of one row
    per document in which the row of a document without tokens is all
    zero and every other row has L2 norm one. *)
Theorem normalised_rows_have_unit_norm (corpus : list string) (processing : string) :
  In processing ["l2"; "tfidf_l2"; "log_l2"] ->
  match vocabulary corpus with
  | [] => document_term_cooccurrence corpus processing = Raise ValueError
  | _ :: _ =>
      exists (frame : dt_frame) (terms : list string) (m : list (list R)),
        document_term_cooccurrence corpus processing = Ok (frame, terms)
        /\ dt_data frame = RealMatrix m
        /\ unit_rows corpus m
  end.
Proof.
  intros Hmode.
  destruct (document_term_cooccurrence_modes corpus) as [_ [Hl2 [Htf Hlog]]].
  unfold dtm_result in *.
  destruct (vocabulary corpus) as [|t ts] eqn:Hv.
  - destruct Hmode as [<-|[<-|[<-|[]]]]; assumption.
  - symmetry in Hv.
    destruct Hmode as [<-|[<-|[<-|[]]]]; do 3 eexists.
    + split; [exact Hl2|]. split; [reflexivity|]. now apply l2_unit_rows.
    + split; [exact Htf|]. split; [reflexivity|]. now apply tfidf_unit_rows.
    + split; [exact Hlog|]. split; [reflexivity|]. now apply log_l2_unit_rows.
Qed.

Lemma normalised_rows_have_unit_norm_witness :
  In "l2" ["l2"; "tfidf_l2"; "log_l2"]
  /\ exists (frame : dt_frame) (terms : list string) (m : list (list R)),
       document_term_cooccurrence ["aa bb"; "a"; "bb cc"] "l2" = Ok (frame, terms)
       /\ dt_data frame = RealMatrix m
       /\ unit_rows ["aa bb"; "a"; "bb cc"] m.
Proof.
  split; [now left|].
  apply (@normalised_rows_have_unit_norm ["aa bb"; "a"; "bb cc"] "l2"). now left.
Defined.

(** ** The similarity aggregators *)

Example test_acs :
  aggregate_construct_similarity []
    {| sim_index := ["i0"; "i1"; "i2"; "i3"];
       sim_values := [[1; 8 # 10; 9 # 10; 0];
                      [8 # 10; 1; 2 # 10; 0];
                      [9 # 10; 2 # 10; 1; -1 # 10];
                      [0; 0; -1 # 10; 1]]%Q |}
    [1; 1; 4; 9]%Z [4; 1; 9]%Z None 2
  = Ok {| cf_labels := [1; 4; 9]%Z;
          cf_values := [[Num 0; Num (110 # 200); Num (0 # 2)];
                        [Num 0; Num 0; Num (-1 # 10)];
                        [Num 0; Num 0; Num 0]]%Q |}.
Proof. vm_compute. reflexivity. Qed.

(** *** Sorting and slicing *)

Lemma insert_sorted_perm (x : Q) (l : list Q) : Permutation (insert_sorted x l) (x :: l).
Proof.
  induction l as [|h t IH]; simpl; [reflexivity|].
  destruct (Qle_bool x h); [reflexivity|].
  rewrite IH. apply perm_swap.
Qed.

Lemma np_sort_perm (l : list Q) : Permutation (np_sort l) l.
Proof.
  unfold np_sort. induction l as [|x l IH]; simpl; [reflexivity|].
  rewrite insert_sorted_perm. now constructor.
Qed.

Lemma insert_sorted_sorted (x : Q) (l : list Q) :
  StronglySorted Qle l -> StronglySorted Qle (insert_sorted x l).
Proof.
  induction 1 as [|h t Ht IH Hh]; simpl; [repeat constructor|].
  destruct (Qle_bool x h) eqn:Hx.
  - apply Qle_bool_iff in Hx. constructor; [now constructor|].
    constructor; [exact Hx|].
    apply Forall_forall. intros y Hy. rewrite Forall_forall in Hh.
    apply Qle_trans with h; auto.
  - assert (Hhx : (h <= x)%Q).
    { apply Qlt_le_weak, Qnot_le_lt. intros Hle.
      apply Qle_bool_iff in Hle. congruence. }
    constructor; [exact IH|].
    apply Forall_forall. intros y Hy.
    apply (Permutation_in _ (insert_sorted_perm x t)) in Hy.
    destruct Hy as [<-|Hy]; [exact Hhx|].
    rewrite Forall_forall in Hh. now apply Hh.
Qed.

Lemma np_sort_sorted (l : list Q) : StronglySorted Qle (np_sort l).
Proof.
  unfold np_sort. induction l as [|x l IH]; simpl; [constructor|].
  now apply insert_sorted_sorted.
Qed.

Lemma sorted_app (l1 l2 : list Q) :
  StronglySorted Qle (l1 ++ l2) ->
  StronglySorted Qle l2 /\ forall x y, In x l1 -> In y l2 -> (x <= y)%Q.
Proof.
  induction l1 as [|h t IH]; simpl; intros Hs.
  - split; [exact Hs | contradiction].
  - inversion Hs as [|h' t' Ht Hh]; subst.
    destruct (IH Ht) as [H2 Hle]. split; [exact H2|].
    intros x y [<-|Hx] Hy; [|now apply Hle].
    rewrite Forall_forall in Hh. apply Hh, in_or_app. now right.
Qed.




Lemma last_n_split (A : Type) (k : nat) (l : list A) :
  l = (firstn (List.length l - k) l ++ last_n k l)%list.
Proof. unfold last_n. symmetry. apply firstn_skipn. Qed.

Lemma length_last_n (A : Type) (k : nat) (l : list A) :
  List.length (last_n k l) = Nat.min k (List.length l).
Proof. unfold last_n. rewrite length_skipn. lia. Qed.

(** The last two of the sorted values are the two highest. *)
Lemma last_two_sorted (values : list Q) :
  2 <= List.length values ->
  exists a b rest,
    last_n 2 (np_sort values) = [b; a]
    /\ Permutation values (a :: b :: rest)
    /\ (b <= a)%Q
    /\ Forall (fun x => (x <= b)%Q) rest.
Proof.
  intros Hlen.
  pose proof (np_sort_perm values) as Hperm.
  pose proof (np_sort_sorted values) as Hsort.
  pose proof (Permutation_length Hperm) as Hl.
  pose proof (last_n_split 2 (np_sort values)) as Hsplit.
  pose proof (length_last_n 2 (np_sort values)) as Hlast.
  destruct (last_n 2 (np_sort values)) as [|b [|a [|c tl]]] eqn:E;
    cbn [List.length] in Hlast; try lia.
  set (rest := firstn (List.length (np_sort values) - 2) (np_sort values)) in *.
  rewrite Hsplit in Hsort. destruct (sorted_app _ _ Hsort) as [Hba Hle].
  exists a, b, rest. split; [reflexivity|]. split; [|split].
  - rewrite <- Hperm, Hsplit.
    rewrite Permutation_app_comm. simpl.
    apply perm_swap.
  - inversion Hba as [|? ? _ Hb]; subst. now inversion Hb.
  - apply Forall_forall. intros x Hx. apply Hle; [exact Hx | now left].
Qed.

(** *** Reading the constituents *)

Lemma mlookup_ok (A : Type) (d : A) (rows cols i j : nat) (m : list (list A)) :
  shaped rows cols m -> i < rows -> j < cols ->
  mlookup m (i, j) = Ok (mget d m i j).
Proof.
  intros Hs Hi Hj. unfold mlookup, mget. cbn [fst snd].
  rewrite (nth_error_nth' m []) by (destruct Hs; lia).
  rewrite (nth_error_nth' (nth i m []) d) by now rewrite (shaped_row Hs Hi).
  reflexivity.
Qed.

Lemma map_res_lookups (A : Type) (d : A) (rows cols : nat) (m : list (list A))
      (ps : list (nat * nat)) :
  shaped rows cols m ->
  (forall p, In p ps -> fst p < rows /\ snd p < cols) ->
  map_res (mlookup m) ps = Ok (map (fun p => mget d m (fst p) (snd p)) ps).
Proof.
  intros Hs. induction ps as [|[i j] ps IH]; intros Hin; [reflexivity|].
  cbn [map_res map]. destruct (Hin (i, j)) as [Hi Hj]; [now left|].
  cbn [fst snd] in Hi, Hj. rewrite (mlookup_ok d Hs Hi Hj). cbn [bind fst snd].
  rewrite IH by (intros p Hp; apply Hin; now right). reflexivity.
Qed.

Lemma in_positions_from (A : Type) (f : A -> bool) (l : list A) (start p : nat) :
  In p (positions_from f start l) -> start <= p < start + List.length l.
Proof.
  revert start. induction l as [|x l IH]; intros start; simpl; [contradiction|].
  destruct (f x); simpl.
  - intros [<-|Hin]; [lia|]. apply IH in Hin. lia.
  - intros Hin. apply IH in Hin. lia.
Qed.

Lemma in_np_where (A : Type) (f : A -> bool) (l : list A) (p : nat) :
  In p (np_where f l) -> p < List.length l.
Proof. intros Hin. apply in_positions_from in Hin. lia. Qed.

Lemma in_cross (ix_1 ix_2 : list nat) (p : nat * nat) :
  In p (cross ix_1 ix_2) -> In (fst p) ix_1 /\ In (snd p) ix_2.
Proof.
  unfold cross. intros Hin. apply in_flat_map in Hin.
  destruct Hin as [i1 [H1 Hin]]. apply in_map_iff in Hin.
  destruct Hin as [i2 [<- H2]]. now split.
Qed.

Lemma top_average_ok (n_similarities : Z) (values : list Q) :
  top_average n_similarities values = Ok (avg_value n_similarities values).
Proof.
  unfold top_average, avg_value, np_average.
  now destruct (last_n (top_k n_similarities) (np_sort values)).
Qed.

(** *** Loops that fill the strict upper triangle *)

Lemma for_break_continue (A S : Type) (body : S -> A -> pyres (flow S))
      (f : S -> A -> S) (xs : list A) :
  (forall s x, body s x = Ok (Continue (f s x))) ->
  forall s, for_break body xs s = for_each (fun s x => Ok (f s x)) xs s.
Proof.
  intros Hb. induction xs as [|x xs IH]; intros s; [reflexivity|].
  cbn [for_break for_each]. rewrite Hb. cbn [bind]. apply IH.
Qed.

Lemma for_each_ext (A S : Type) (body body' : S -> A -> pyres S) (xs : list A) :
  (forall s x, body s x = body' s x) ->
  forall s, for_each body xs s = for_each body' xs s.
Proof.
  intros Hb. induction xs as [|x xs IH]; intros s; [reflexivity|].
  cbn [for_each]. rewrite Hb. destruct (body' s x); cbn [bind]; [apply IH | reflexivity].
Qed.

Lemma mem_nat_range (a n b : nat) :
  mem_nat b (range a n) = Nat.leb a b && Nat.ltb b (a + n).
Proof.
  unfold mem_nat. apply eq_true_iff_eq. rewrite existsb_exists, andb_true_iff.
  rewrite Nat.leb_le, Nat.ltb_lt. split.
  - intros [x [Hin Hx]]. apply Nat.eqb_eq in Hx. subst x. now apply in_range.
  - intros H. exists b. split; [now apply in_range | apply Nat.eqb_refl].
Qed.

Section Fill.

Variable S : Type.
(** The array inside the loop state, and what the loops keep. *)
Variable mat : S -> list (list npfloat).
Variable inv : S -> Prop.
Variable n : nat.
Variable w : nat -> nat -> npfloat.
Variable body : nat -> S -> nat -> pyres S.

Hypothesis body_writes :
  forall (i c : nat) (s : S), i < n -> c < n -> inv s ->
    exists s', body i s c = Ok s' /\ inv s' /\ mat s' = mset i c (w i c) (mat s).

Local Abbreviation get := (mget (Num 0%Q)).

Lemma fill_row (i : nat) (cs : list nat) :
  i < n -> (forall c, In c cs -> c < n) ->
  forall s, inv s -> shaped n n (mat s) ->
    exists s', for_each (body i) cs s = Ok s' /\ inv s' /\ shaped n n (mat s')
      /\ forall a b, a < n -> b < n ->
           get (mat s') a b
           = if Nat.eqb a i && mem_nat b cs then w a b else get (mat s) a b.
Proof.
  intros Hi. induction cs as [|c cs IH]; intros Hcs s Hinv Hs.
  - exists s. split; [reflexivity|]. split; [exact Hinv|]. split; [exact Hs|].
    intros a b _ _. now rewrite andb_false_r.
  - assert (Hc : c < n) by (apply Hcs; now left).
    destruct (body_writes Hi Hc Hinv) as [s1 [Hb [Hinv1 Hm1]]].
    assert (Hs1 : shaped n n (mat s1)) by (rewrite Hm1; now apply shaped_mset).
    destruct (IH (fun x Hx => Hcs x (or_intror Hx)) s1 Hinv1 Hs1)
      as [s' [Hrun [Hinv' [Hs' Hcell]]]].
    exists s'. cbn [for_each]. rewrite Hb. cbn [bind].
    split; [exact Hrun|]. split; [exact Hinv'|]. split; [exact Hs'|].
    intros a b Ha Hb'.
    rewrite (Hcell a b Ha Hb'), Hm1, (mget_mset (Num 0%Q) a b (w i c) Hs Hi Hc).
    unfold mem_nat. cbn [existsb].
    destruct (Nat.eqb_spec a i) as [->|Hai]; cbn [andb]; [|reflexivity].
    destruct (existsb (Nat.eqb b) cs); [now rewrite orb_true_r|].
    rewrite orb_false_r. now destruct (Nat.eqb b c) eqn:E;
      [apply Nat.eqb_eq in E; subst c|].
Qed.


Lemma fill_rows_cells (rs : list nat) :
  (forall r, In r rs -> r < n) ->
  forall s, inv s -> shaped n n (mat s) ->
    exists s', for_each (fill_rows n body) rs s = Ok s' /\ inv s' /\ shaped n n (mat s')
      /\ forall a b, a < n -> b < n ->
           get (mat s') a b
           = if mem_nat a rs && Nat.ltb a b then w a b else get (mat s) a b.
Proof.
  induction rs as [|r rs IH]; intros Hrs s Hinv Hs.
  - exists s. split; [reflexivity|]. split; [exact Hinv|]. split; [exact Hs|].
    reflexivity.
  - assert (Hr : r < n) by (apply Hrs; now left).
    destruct (@fill_row r (range (r + 1) (n - (r + 1))) Hr) with (s := s)
      as [s1 [Hrun1 [Hinv1 [Hs1 Hcell1]]]]; auto.
    { intros c Hc. apply in_range in Hc. lia. }
    destruct (IH (fun x Hx => Hrs x (or_intror Hx)) s1 Hinv1 Hs1)
      as [s' [Hrun [Hinv' [Hs' Hcell]]]].
    exists s'. cbn [for_each]. unfold fill_rows at 1. rewrite Hrun1. cbn [bind].
    split; [exact Hrun|]. split; [exact Hinv'|]. split; [exact Hs'|].
    intros a b Ha Hb.
    rewrite (Hcell a b Ha Hb), (Hcell1 a b Ha Hb), mem_nat_range.
    unfold mem_nat. cbn [existsb].
    destruct (Nat.eqb_spec a r) as [->|Har]; cbn [orb andb].
    + replace (Nat.leb (r + 1) b) with (Nat.ltb r b) by (unfold Nat.ltb; f_equal; lia).
      replace (Nat.ltb b (r + 1 + (n - (r + 1)))) with true
        by (symmetry; apply Nat.ltb_lt; lia).
      rewrite andb_true_r.
      destruct (existsb (Nat.eqb r) rs); cbn [andb]; now destruct (Nat.ltb r b).
    + reflexivity.
Qed.

(** Started on zeros, the two loops leave the strict upper triangle
    filled with [w] and zeros elsewhere. *)
Lemma fill_upper (s : S) :
  inv s -> mat s = mzeros (Num 0%Q) n n ->
  exists s', for_each (fill_rows n body) (range 0 (n - 1)) s = Ok s' /\ inv s'
             /\ mat s' = upper n w.
Proof.
  intros Hinv Hz.
  destruct (@fill_rows_cells (range 0 (n - 1))) with (s := s)
    as [s' [Hrun [Hinv' [Hs' Hcell]]]]; auto.
  { intros r Hr. apply in_range in Hr. lia. }
  { rewrite Hz. apply shaped_mzeros. }
  exists s'. split; [exact Hrun|]. split; [exact Hinv'|].
  apply (shaped_ext (Num 0%Q) Hs' (shaped_tabulate n n _)).
  intros a b Ha Hb. rewrite (Hcell a b Ha Hb), Hz, mget_mzeros.
  unfold upper. rewrite mget_tabulate by assumption.
  rewrite mem_nat_range.
  destruct (Nat.ltb_spec a b) as [Hab|Hab]; [|now rewrite andb_false_r].
  replace (Nat.leb 0 a && Nat.ltb a (0 + (n - 1))) with true; [reflexivity|].
  symmetry. apply andb_true_iff. split; [apply Nat.leb_le | apply Nat.ltb_lt]; lia.
Qed.

End Fill.

(** *** The entries of the two aggregators *)

Lemma length_np_sort_Z (l : list Z) : List.length (np_sort_Z l) = List.length l.
Proof.
  unfold np_sort_Z. induction l as [|x l IH]; simpl; [reflexivity|].
  rewrite <- IH. generalize (fold_right insert_Z [] l). intros s.
  induction s as [|h t IHs]; simpl; [reflexivity|].
  destruct (x <=? h)%Z; simpl; [reflexivity | now rewrite IHs].
Qed.

Lemma mget_upper (n a b : nat) (d : npfloat) (w : nat -> nat -> npfloat) :
  a < b -> b < n -> mget d (mmap nan_to_num (upper n w)) a b = nan_to_num (w a b).
Proof.
  intros Hab Hb. assert (Ha : a < n) by lia. unfold upper.
  rewrite (mget_mmap (Num 0%Q) d nan_to_num (shaped_tabulate n n _) Ha Hb).
  rewrite mget_tabulate by assumption.
  now replace (Nat.ltb a b) with true by (symmetry; apply Nat.ltb_lt; exact Hab).
Qed.

Section ConstructEntries.

Variable gold2funk : list (Z * Z).
Variable sim : sim_frame.
Variable gold_items ids : list Z.
Variable n_similarities : Z.

Hypothesis Hsim :
  shaped (List.length gold_items) (List.length gold_items) (sim_values sim).

Local Abbreviation w :=
  (fun i j => avg_value n_similarities (construct_values sim gold_items ids i j)).

Lemma group_similarity_items (x y : Z) :
  group_similarity sim n_similarities
    (item_constituents gold_items x) (item_constituents gold_items y)
  = Ok (avg_value n_similarities
          (pair_values (sim_values sim) (item_constituents gold_items x)
                       (item_constituents gold_items y))).
Proof.
  unfold group_similarity.
  rewrite (map_res_lookups 0%Q _ Hsim).
  - cbn [bind]. apply top_average_ok.
  - intros p Hp. apply in_cross in Hp. destruct Hp as [H1 H2].
    unfold item_constituents in *. split; eapply in_np_where; eassumption.
Qed.

Lemma acs_body_items (ind_1 ind_2 : nat) (m : list (list npfloat)) :
  acs_body gold2funk sim gold_items ids None n_similarities ind_1 m ind_2
  = Ok (Continue (mset ind_1 ind_2 (w ind_1 ind_2) m)).
Proof. unfold acs_body. now rewrite group_similarity_items. Qed.

Lemma acs_loop_items :
  acs_loop gold2funk sim gold_items ids None n_similarities
  = Ok (upper (List.length ids) w).
Proof.
  unfold acs_loop. set (n := List.length ids).
  rewrite for_each_ext with
    (body' := fill_rows n (fun i m c => Ok (mset i c (w i c) m))).
  - destruct (@fill_upper (list (list npfloat)) (fun m => m) (fun _ => True) n w
                (fun i m c => Ok (mset i c (w i c) m)))
      with (s := mzeros (Num 0%Q) n n) as [m [Hrun [_ Hm]]]; auto.
    { intros i c s _ _ _. now exists (mset i c (w i c) s). }
    now rewrite Hrun, Hm.
  - intros m i. unfold acs_row, fill_rows. fold n.
    apply for_break_continue. intros s c. apply acs_body_items.
Qed.

End ConstructEntries.

Lemma aggregate_construct_similarity_items (gold2funk : list (Z * Z)) (sim : sim_frame)
      (gold_items ids : list Z) (n_similarities : Z) :
  shaped (List.length gold_items) (List.length gold_items) (sim_values sim) ->
  aggregate_construct_similarity gold2funk sim gold_items ids None n_similarities
  = Ok {| cf_labels := np_sort_Z ids;
          cf_values :=
            mmap nan_to_num
              (upper (List.length ids)
                 (fun i j => avg_value n_similarities
                               (construct_values sim gold_items (np_sort_Z ids) i j))) |}.
Proof.
  intros Hsim. unfold aggregate_construct_similarity.
  rewrite (@acs_loop_items gold2funk sim gold_items (np_sort_Z ids) n_similarities Hsim).
  cbn [bind]. now rewrite length_np_sort_Z.
Qed.

Section ItemEntries.

Variable dt_matrix term_vectors : list (list Q).
Variable n_similarities : Z.
Variable n_terms : nat.

Hypothesis Hdt : shaped (List.length dt_matrix) n_terms dt_matrix.
Hypothesis Htv : List.length term_vectors = n_terms.

Local Abbreviation w :=
  (fun i j => avg_value n_similarities (item_values dt_matrix term_vectors i j)).


Lemma ais_body_ok (i c : nat) (st : ais_state) :
  i < List.length dt_matrix -> c < List.length dt_matrix ->
  ais_body dt_matrix term_vectors n_similarities i st c
  = Ok {| item_similarity := mset i c (w i c) (item_similarity st);
          ctr_one := ctr_one st; ctr_none := ctr_none st |}.
Proof.
  intros Hi Hc. unfold ais_body.
  assert (Hg : shaped n_terms n_terms (gram term_vectors)).
  { unfold gram. rewrite Htv. apply shaped_tabulate. }
  rewrite (map_res_lookups 0%Q _ Hg).
  - cbn [bind]. now rewrite top_average_ok.
  - intros p Hp. apply in_cross in Hp. destruct Hp as [H1 H2].
    unfold term_indices in *. apply in_np_where in H1, H2.
    rewrite (shaped_row Hdt Hi) in H1. rewrite (shaped_row Hdt Hc) in H2.
    now split.
Qed.

Lemma ais_loop_ok :
  exists st, ais_loop dt_matrix term_vectors n_similarities = Ok st
             /\ no_flag st
             /\ item_similarity st = upper (List.length dt_matrix) w.
Proof.
  unfold ais_loop.
  apply (@fill_upper ais_state item_similarity no_flag (List.length dt_matrix) w
           (ais_body dt_matrix term_vectors n_similarities)).
  - intros i c s Hi Hc [H1 H0]. rewrite (ais_body_ok s Hi Hc).
    eexists. split; [reflexivity|]. split; [now split | reflexivity].
  - now split.
  - reflexivity.
Qed.

End ItemEntries.


Lemma avg_value_top_two (values : list Q) :
  2 <= List.length values ->
  exists a b rest q,
    Permutation values (a :: b :: rest)
    /\ (b <= a)%Q /\ Forall (fun x => (x <= b)%Q) rest
    /\ avg_value 2 values = Num q /\ (q == (a + b) / 2)%Q.
Proof.
  intros Hlen. destruct (last_two_sorted values Hlen) as [a [b [rest [Hl [Hp [Hba Hr]]]]]].
  exists a, b, rest, (mean_Q [b; a]). repeat split; auto.
  - unfold avg_value. change (top_k 2) with 2. now rewrite Hl.
  - unfold mean_Q, sum_Q. simpl. field.
Qed.

(** C1.  With [n_similarities = 2] and a similarity matrix that covers
    the items, the call returns a frame labelled by the sorted construct
    identifiers in which the entry of every pair of positions [i < j]
    whose cross-product has two values or more is the mean of the two
    highest of these values.  On the example of the specification the
    similarity of constructs 1 and 2 is 0.7. *)
Theorem aggregate_construct_similarity_top_two :
  (forall (gold2funk : list (Z * Z)) (sim : sim_frame) (gold_items ids : list Z),
     shaped (List.length gold_items) (List.length gold_items) (sim_values sim) ->
     exists m : list (list npfloat),
       aggregate_construct_similarity gold2funk sim gold_items ids None 2
       = Ok {| cf_labels := np_sort_Z ids; cf_values := m |}
       /\ forall i j : nat,
            i < j -> j < List.length ids ->
            2 <= List.length (construct_values sim gold_items (np_sort_Z ids) i j) ->
            exists (a b : Q) (rest : list Q) (q : Q),
              Permutation (construct_values sim gold_items (np_sort_Z ids) i j)
                          (a :: b :: rest)
              /\ (b <= a)%Q /\ Forall (fun x => (x <= b)%Q) rest
              /\ mget NaN m i j = Num q /\ (q == (a + b) / 2)%Q)
  /\ exists (m : list (list npfloat)) (q : Q),
       aggregate_construct_similarity [] example_similarity example_gold_items
                                      [1; 2]%Z None 2
       = Ok {| cf_labels := [1; 2]%Z; cf_values := m |}
       /\ construct_values example_similarity example_gold_items [1; 2]%Z 0 1
          = [5 # 10; 9 # 10]%Q
       /\ mget NaN m 0 1 = Num q /\ (q == 7 # 10)%Q.
Proof.
  split.
  - intros gold2funk sim gold_items ids Hsim.
    rewrite (@aggregate_construct_similarity_items gold2funk sim gold_items ids 2 Hsim).
    eexists. split; [reflexivity|]. intros i j Hij Hj Hlen.
    rewrite mget_upper by assumption.
    destruct (avg_value_top_two _ Hlen) as [a [b [rest [q [Hp [Hba [Hr [Hv Hq]]]]]]]].
    exists a, b, rest, q. rewrite Hv. repeat split; auto.
  - eexists. eexists. split; [vm_compute; reflexivity|].
    split; [vm_compute; reflexivity|].
    split; [vm_compute; reflexivity|]. vm_compute. reflexivity.
Qed.

Lemma aggregate_construct_similarity_top_two_witness :
  shaped (List.length example_gold_items) (List.length example_gold_items)
         (sim_values example_similarity)
  /\ exists m : list (list npfloat),
       aggregate_construct_similarity [] example_similarity example_gold_items
                                      [1; 2]%Z None 2
       = Ok {| cf_labels := np_sort_Z [1; 2]%Z; cf_values := m |}
       /\ forall i j : nat,
            i < j -> j < List.length [1; 2]%Z ->
            2 <= List.length (construct_values example_similarity example_gold_items
                                               (np_sort_Z [1; 2]%Z) i j) ->
            exists (a b : Q) (rest : list Q) (q : Q),
              Permutation (construct_values example_similarity example_gold_items
                                            (np_sort_Z [1; 2]%Z) i j)
                          (a :: b :: rest)
              /\ (b <= a)%Q /\ Forall (fun x => (x <= b)%Q) rest
              /\ mget NaN m i j = Num q /\ (q == (a + b) / 2)%Q.
Proof.
  assert (Hs : shaped (List.length example_gold_items) (List.length example_gold_items)
                      (sim_values example_similarity))
    by (vm_compute; split; [reflexivity | repeat constructor]).
  split; [exact Hs|].
  exact (proj1 aggregate_construct_similarity_top_two
               [] example_similarity example_gold_items [1; 2]%Z Hs).
Defined.



(** The two counters of [aggregate_item_similarity] are never moved:
    the average raises nothing, so the handler that moves them is not
    entered. *)
Lemma item_counters_stay_zero (items : list string) (dt_matrix term_vectors : list (list Q))
      (n_similarities : Z) :
  shaped (List.length dt_matrix) (List.length term_vectors) dt_matrix ->
  exists frame,
    aggregate_item_similarity items dt_matrix term_vectors n_similarities true
    = Ok (frame, [0; 0]).
Proof.
  intros Hdt. unfold aggregate_item_similarity.
  destruct (@ais_loop_ok dt_matrix term_vectors n_similarities _ Hdt eq_refl)
    as [st [-> [[H1 H0] _]]].
  cbn [bind]. rewrite H1, H0. eauto.
Qed.


(** Without any value [aggregate_item_similarity] stores NaN and its
    two counters stay at zero. *)
Example aggregate_item_similarity_no_value :
  aggregate_item_similarity ["d0"; "d1"] [[0]; [1]]%Q [[1]]%Q 2 true
  = Ok ({| if_index := ["d0"; "d1"];
           if_values := [[Num 1; NaN]; [NaN; Num 1]]%Q |}, [0; 0]).
Proof. vm_compute. reflexivity. Qed.

(* ================================================================== *)
(** * Further properties of the code *)
(* ================================================================== *)

(** ** The shape of the aggregated matrices *)

Lemma insert_Z_perm (x : Z) (l : list Z) : Permutation (insert_Z x l) (x :: l).
Proof.
  induction l as [|h t IH]; simpl; [reflexivity|].
  destruct (x <=? h)%Z; [reflexivity|]. rewrite IH. apply perm_swap.
Qed.

Lemma np_sort_Z_perm (l : list Z) : Permutation (np_sort_Z l) l.
Proof.
  unfold np_sort_Z. induction l as [|x l IH]; simpl; [reflexivity|].
  rewrite insert_Z_perm. now constructor.
Qed.

Lemma insert_Z_sorted (x : Z) (l : list Z) :
  StronglySorted Z.le l -> StronglySorted Z.le (insert_Z x l).
Proof.
  induction 1 as [|h t Ht IH Hh]; simpl; [repeat constructor|].
  destruct (Z.leb_spec x h) as [Hx|Hx].
  - constructor; [now constructor|]. constructor; [exact Hx|].
    apply Forall_forall. intros y Hy. rewrite Forall_forall in Hh.
    specialize (Hh y Hy). lia.
  - constructor; [exact IH|]. apply Forall_forall. intros y Hy.
    apply (Permutation_in _ (insert_Z_perm x t)) in Hy.
    destruct Hy as [<-|Hy]; [lia|]. rewrite Forall_forall in Hh. now apply Hh.
Qed.

Lemma np_sort_Z_sorted (l : list Z) : StronglySorted Z.le (np_sort_Z l).
Proof.
  unfold np_sort_Z. induction l as [|x l IH]; simpl; [constructor|].
  now apply insert_Z_sorted.
Qed.

(** X1.  On the item branch [aggregate_construct_similarity] returns a
    square frame labelled by the identifiers in increasing order,
    whatever order they were passed in, and stores nothing on or below
    the diagonal: these entries are 0. *)
Theorem aggregate_construct_similarity_upper (gold2funk : list (Z * Z)) (sim : sim_frame)
        (gold_items ids : list Z) (n_similarities : Z) :
  shaped (List.length gold_items) (List.length gold_items) (sim_values sim) ->
  exists (labels : list Z) (m : list (list npfloat)),
    aggregate_construct_similarity gold2funk sim gold_items ids None n_similarities
    = Ok {| cf_labels := labels; cf_values := m |}
    /\ Permutation labels ids /\ StronglySorted Z.le labels
    /\ shaped (List.length ids) (List.length ids) m
    /\ forall i j : nat, j <= i -> i < List.length ids -> mget NaN m i j = Num 0%Q.
Proof.
  intros Hsim.
  rewrite (@aggregate_construct_similarity_items gold2funk sim gold_items ids
             n_similarities Hsim).
  eexists. eexists. split; [reflexivity|].
  split; [apply np_sort_Z_perm|]. split; [apply np_sort_Z_sorted|]. split.
  - apply shaped_mmap. unfold upper. apply shaped_tabulate.
  - intros i j Hji Hi. assert (Hj : j < List.length ids) by lia. unfold upper.
    rewrite (mget_mmap (Num 0%Q) NaN nan_to_num (shaped_tabulate _ _ _) Hi Hj).
    rewrite mget_tabulate by assumption.
    now replace (Nat.ltb i j) with false by (symmetry; apply Nat.ltb_ge; exact Hji).
Qed.

Lemma aggregate_construct_similarity_upper_witness :
  shaped (List.length [1; 1; 2]%Z) (List.length [1; 1; 2]%Z) (sim_values sim_3)
  /\ exists (labels : list Z) (m : list (list npfloat)),
    aggregate_construct_similarity [] sim_3 [1; 1; 2]%Z [2; 1]%Z None 2
    = Ok {| cf_labels := labels; cf_values := m |}
    /\ Permutation labels [2; 1]%Z /\ StronglySorted Z.le labels
    /\ shaped (List.length [2; 1]%Z) (List.length [2; 1]%Z) m
    /\ forall i j : nat, j <= i -> i < List.length [2; 1]%Z -> mget NaN m i j = Num 0%Q.
Proof.
  assert (H : shaped (List.length [1; 1; 2]%Z) (List.length [1; 1; 2]%Z)
                     (sim_values sim_3))
    by (vm_compute; split; [reflexivity | repeat constructor]).
  split; [exact H|].
  exact (@aggregate_construct_similarity_upper [] sim_3 [1; 1; 2]%Z [2; 1]%Z 2%Z H).
Defined.

Lemma np_add_comm (x y : npfloat) : npfloat_equiv (np_add x y) (np_add y x).
Proof. destruct x, y; simpl; auto. ring. Qed.

(** X2.  [aggregate_item_similarity] returns a square frame that is
    symmetric and has ones on its diagonal: the strict upper triangle
    the loops fill is mirrored, also where it holds NaN. *)
Theorem aggregate_item_similarity_symmetric (items : list string)
        (dt_matrix term_vectors : list (list Q)) (n_similarities : Z) (verbose : bool) :
  shaped (List.length dt_matrix) (List.length term_vectors) dt_matrix ->
  exists (m : list (list npfloat)) (printed : list nat),
    aggregate_item_similarity items dt_matrix term_vectors n_similarities verbose
    = Ok ({| if_index := items; if_values := m |}, printed)
    /\ shaped (List.length dt_matrix) (List.length dt_matrix) m
    /\ (forall i, i < List.length dt_matrix -> mget NaN m i i = Num 1%Q)
    /\ (forall i j, i < List.length dt_matrix -> j < List.length dt_matrix ->
          npfloat_equiv (mget NaN m i j) (mget NaN m j i)).
Proof.
  intros Hdt. unfold aggregate_item_similarity.
  destruct (@ais_loop_ok dt_matrix term_vectors n_similarities _ Hdt eq_refl)
    as [st [-> _]].
  cbn [bind]. eexists. eexists. split; [reflexivity|].
  unfold mirror_sim. split; [apply shaped_tabulate|]. split.
  - intros i Hi. rewrite mget_tabulate by assumption. now rewrite Nat.eqb_refl.
  - intros i j Hi Hj. rewrite !mget_tabulate by assumption.
    rewrite (Nat.eqb_sym j i). destruct (Nat.eqb i j); [simpl; reflexivity|].
    apply np_add_comm.
Qed.

Lemma aggregate_item_similarity_symmetric_witness :
  shaped (List.length [[0]; [1]]%Q) (List.length [[1]]%Q) [[0]; [1]]%Q
  /\ exists (m : list (list npfloat)) (printed : list nat),
    aggregate_item_similarity ["d0"; "d1"] [[0]; [1]]%Q [[1]]%Q 2 false
    = Ok ({| if_index := ["d0"; "d1"]; if_values := m |}, printed)
    /\ shaped (List.length [[0]; [1]]%Q) (List.length [[0]; [1]]%Q) m
    /\ (forall i, i < List.length [[0]; [1]]%Q -> mget NaN m i i = Num 1%Q)
    /\ (forall i j, i < List.length [[0]; [1]]%Q -> j < List.length [[0]; [1]]%Q ->
          npfloat_equiv (mget NaN m i j) (mget NaN m j i)).
Proof.
  assert (H : shaped (List.length [[0]; [1]]%Q) (List.length [[1]]%Q) [[0]; [1]]%Q)
    by (vm_compute; split; [reflexivity | repeat constructor]).
  split; [exact H|].
  exact (@aggregate_item_similarity_symmetric ["d0"; "d1"] [[0]; [1]]%Q [[1]]%Q 2%Z
           false H).
Defined.

(** ** The author branch of [aggregate_construct_similarity] *)

Section AuthorBranch.

Variable gold2funk : list (Z * Z).
Variable sim : sim_frame.
Variable gold_items ids : list Z.
Variable authors : list (Z * string).
Variable n_similarities : Z.

Hypothesis Hsim :
  shaped (List.length (sim_index sim)) (List.length (sim_index sim)) (sim_values sim).

Local Abbreviation n := (List.length ids).
Local Abbreviation unknown :=
  (fun c => author_constituents gold2funk sim authors (nth c ids 0%Z) = None).
Local Abbreviation body :=
  (acs_body gold2funk sim gold_items ids (Some authors) n_similarities).
Local Abbreviation get := (mget (Num 0%Q)).

(** Columns [b] of row [i] that the loop does not reach, or leaves with
    a zero: the author of [i] is unknown, or the author of a column
    between [a] and [b]. *)
Local Abbreviation blocked :=
  (fun i a b => unknown i \/ exists c, a <= c <= b /\ unknown c).

Lemma group_similarity_authors (x y : Z) (ix_1 ix_2 : list nat) :
  author_constituents gold2funk sim authors x = Some ix_1 ->
  author_constituents gold2funk sim authors y = Some ix_2 ->
  exists v, group_similarity sim n_similarities ix_1 ix_2 = Ok v.
Proof.
  unfold author_constituents. intros H1 H2.
  destruct (lookup_Z x gold2funk) as [f1|]; [|discriminate].
  destruct (lookup_Z f1 authors) as [n1|]; [|discriminate].
  destruct (lookup_Z y gold2funk) as [f2|]; [|discriminate].
  destruct (lookup_Z f2 authors) as [n2|]; [|discriminate].
  injection H1 as <-. injection H2 as <-.
  unfold group_similarity. rewrite (map_res_lookups 0%Q _ Hsim).
  - cbn [bind]. rewrite top_average_ok. eauto.
  - intros p Hp. apply in_cross in Hp. destruct Hp as [Hp1 Hp2].
    split; eapply in_np_where; eassumption.
Qed.

Lemma author_row (i : nat) (len : nat) :
  i < n ->
  forall (a : nat) (m : list (list npfloat)),
    a + len <= n -> shaped n n m ->
    exists m',
      for_break (body i) (range a len) m = Ok m'
      /\ shaped n n m'
      /\ (forall r b, r <> i -> get m' r b = get m r b)
      /\ (forall b, b < n -> ~ (a <= b < a + len) -> get m' i b = get m i b)
      /\ (forall b, a <= b < a + len -> blocked i a b ->
                    get m i b = Num 0%Q -> get m' i b = Num 0%Q).
Proof.
  intros Hi. induction len as [|len IH]; intros a m Ha Hs.
  - exists m. split; [reflexivity|]. split; [exact Hs|].
    split; [reflexivity|]. split; [reflexivity|]. intros b Hb. lia.
  - unfold range. cbn [seq for_break]. fold (range (S a) len).
    assert (Han : a < n) by lia.
    assert (Hcell : forall v r b,
              r < n -> b < n ->
              get (mset i a v m) r b
              = if Nat.eqb r i && Nat.eqb b a then v else get m r b).
    { intros v r b _ _. apply (mget_mset (Num 0%Q) r b v Hs Hi Han). }
    assert (Hother : forall v r b, r <> i -> get (mset i a v m) r b = get m r b).
    { intros v r b Hr. unfold mget, mset.
      destruct (Nat.lt_ge_cases i (List.length m)) as [Hlt|Hge].
      - rewrite nth_list_set by exact Hlt.
        now replace (Nat.eqb r i) with false by (symmetry; now apply Nat.eqb_neq).
      - destruct Hs as [Hl _]. lia. }
    unfold acs_body at 1.
    destruct (author_constituents gold2funk sim authors (nth i ids 0%Z))
      as [ix_1|] eqn:E1.
    + destruct (author_constituents gold2funk sim authors (nth a ids 0%Z))
        as [ix_2|] eqn:E2.
      * destruct (group_similarity_authors _ _ E1 E2) as [v ->]. cbn [bind].
        destruct (IH (S a) (mset i a v m)) as [m' [Hrun [Hs' [Hr [Hout Hin]]]]];
          [lia | now apply shaped_mset |].
        exists m'. split; [exact Hrun|]. split; [exact Hs'|]. split; [|split].
        -- intros r b Hri. rewrite Hr by exact Hri. now apply Hother.
        -- intros b Hb Hnot. rewrite Hout by (exact Hb || lia).
           rewrite Hcell by assumption.
           replace (Nat.eqb b a) with false by (symmetry; apply Nat.eqb_neq; lia).
           now rewrite andb_false_r.
        -- intros b Hb [Hu|[c [Hc Hu]]] H0; [congruence|].
           assert (c <> a) by (intros ->; congruence).
           assert (Hbn : b < n) by lia.
           apply Hin; [lia | right; exists c; split; [lia | exact Hu] |].
           rewrite Hcell by assumption.
           replace (Nat.eqb b a) with false by (symmetry; apply Nat.eqb_neq; lia).
           now rewrite andb_false_r.
      * cbn [bind]. exists (mset i a (Num 0%Q) m).
        split; [reflexivity|]. split; [now apply shaped_mset|]. split; [|split].
        -- intros r b Hri. now apply Hother.
        -- intros b Hb Hnot. rewrite Hcell by assumption.
           replace (Nat.eqb b a) with false by (symmetry; apply Nat.eqb_neq; lia).
           now rewrite andb_false_r.
        -- intros b Hb _ H0. assert (Hbn : b < n) by lia.
           rewrite Hcell by assumption. rewrite Nat.eqb_refl. cbn [andb].
           now destruct (Nat.eqb b a).
    + cbn [bind]. exists (mset i a (Num 0%Q) m).
      split; [reflexivity|]. split; [now apply shaped_mset|]. split; [|split].
      * intros r b Hri. now apply Hother.
      * intros b Hb Hnot. rewrite Hcell by assumption.
        replace (Nat.eqb b a) with false by (symmetry; apply Nat.eqb_neq; lia).
        now rewrite andb_false_r.
      * intros b Hb _ H0. assert (Hbn : b < n) by lia.
        rewrite Hcell by assumption. rewrite Nat.eqb_refl. cbn [andb].
        now destruct (Nat.eqb b a).
Qed.

Lemma author_rows (k : nat) :
  forall (r0 : nat) (m : list (list npfloat)),
    r0 + k <= n -> shaped n n m ->
    exists m',
      for_each (acs_row gold2funk sim gold_items ids (Some authors) n_similarities)
               (range r0 k) m = Ok m'
      /\ shaped n n m'
      /\ (forall r b, ~ (r0 <= r < r0 + k) -> get m' r b = get m r b)
      /\ (forall r b, r0 <= r < r0 + k -> r < b -> b < n -> blocked r (r + 1) b ->
                      get m r b = Num 0%Q -> get m' r b = Num 0%Q).
Proof.
  induction k as [|k IH]; intros r0 m Hk Hs.
  - exists m. split; [reflexivity|]. split; [exact Hs|].
    split; [reflexivity|]. intros r b Hr. lia.
  - unfold range. cbn [seq for_each]. fold (range (S r0) k).
    assert (Hr0 : r0 < n) by lia.
    destruct (@author_row r0 (n - (r0 + 1)) Hr0 (r0 + 1) m)
      as [m1 [Hrun1 [Hs1 [Hoth1 [Hout1 Hin1]]]]]; [lia | exact Hs |].
    unfold acs_row at 1. rewrite Hrun1. cbn [bind].
    destruct (IH (S r0) m1) as [m' [Hrun [Hs' [Hout Hin]]]]; [lia | exact Hs1 |].
    exists m'. split; [exact Hrun|]. split; [exact Hs'|]. split.
    + intros r b Hr. rewrite Hout by lia. apply Hoth1. lia.
    + intros r b Hr Hrb Hb Hbl H0.
      destruct (Nat.eq_dec r r0) as [->|Hne].
      * rewrite Hout by lia. apply Hin1; [lia | exact Hbl | exact H0].
      * apply Hin; [lia | exact Hrb | exact Hb | exact Hbl |].
        rewrite Hoth1 by exact Hne. exact H0.
Qed.

End AuthorBranch.

(** X3.  On the author branch an unknown author (a [KeyError] of
    [gold2funk] or of [construct_authors]) ends the loop over the
    columns: in row [i] the entry of column [j] is 0 as soon as the
    author of [i], or of a construct between [i] and [j] in the sorted
    order, is unknown, whether or not the author of [j] is known. *)
Theorem author_branch_break (gold2funk : list (Z * Z)) (sim : sim_frame)
        (gold_items ids : list Z) (authors : list (Z * string)) (n_similarities : Z) :
  shaped (List.length (sim_index sim)) (List.length (sim_index sim)) (sim_values sim) ->
  exists m : list (list npfloat),
    aggregate_construct_similarity gold2funk sim gold_items ids (Some authors)
                                   n_similarities
    = Ok {| cf_labels := np_sort_Z ids; cf_values := m |}
    /\ forall i j : nat,
         i < j -> j < List.length ids ->
         (author_constituents gold2funk sim authors (nth i (np_sort_Z ids) 0%Z) = None
          \/ exists c, i < c <= j
               /\ author_constituents gold2funk sim authors (nth c (np_sort_Z ids) 0%Z)
                  = None) ->
         mget NaN m i j = Num 0%Q.
Proof.
  intros Hsim. unfold aggregate_construct_similarity, acs_loop.
  set (sorted := np_sort_Z ids).
  assert (Hn : List.length sorted = List.length ids) by apply length_np_sort_Z.
  destruct (@author_rows gold2funk sim gold_items sorted authors n_similarities Hsim
              (List.length sorted - 1) 0
              (mzeros (Num 0%Q) (List.length sorted) (List.length sorted)))
    as [m [Hrun [Hs [_ Hin]]]]; [lia | apply shaped_mzeros |].
  rewrite Hrun. cbn [bind]. eexists. split; [reflexivity|].
  intros i j Hij Hj Hbl. rewrite <- Hn in Hj.
  assert (Hi : i < List.length sorted) by lia.
  rewrite (mget_mmap (Num 0%Q) NaN nan_to_num Hs Hi Hj).
  rewrite Hin; [reflexivity | lia | exact Hij | exact Hj | | apply mget_mzeros].
  destruct Hbl as [Hu|[c [Hc Hu]]]; [now left|].
  right. exists c. split; [lia | exact Hu].
Qed.

Lemma author_branch_break_witness :
  shaped (List.length (sim_index sim_3)) (List.length (sim_index sim_3))
         (sim_values sim_3)
  /\ exists m : list (list npfloat),
    aggregate_construct_similarity [(1, 10); (3, 30)]%Z sim_3 [] [1; 2; 3]%Z
      (Some [(10, "i0"); (30, "i2")]%Z) 2
    = Ok {| cf_labels := np_sort_Z [1; 2; 3]%Z; cf_values := m |}
    /\ forall i j : nat,
         i < j -> j < List.length [1; 2; 3]%Z ->
         (author_constituents [(1, 10); (3, 30)]%Z sim_3 [(10, "i0"); (30, "i2")]%Z
            (nth i (np_sort_Z [1; 2; 3]%Z) 0%Z) = None
          \/ exists c, i < c <= j
               /\ author_constituents [(1, 10); (3, 30)]%Z sim_3
                    [(10, "i0"); (30, "i2")]%Z (nth c (np_sort_Z [1; 2; 3]%Z) 0%Z)
                  = None) ->
         mget NaN m i j = Num 0%Q.
Proof.
  assert (H : shaped (List.length (sim_index sim_3)) (List.length (sim_index sim_3))
                     (sim_values sim_3))
    by (vm_compute; split; [reflexivity | repeat constructor]).
  split; [exact H|].
  exact (@author_branch_break [(1, 10); (3, 30)]%Z sim_3 [] [1; 2; 3]%Z
           [(10, "i0"); (30, "i2")]%Z 2%Z H).
Defined.

(** Constructs 1 and 3 have known authors with similarity 0.2, yet as
    construct 2 between them has none their entry stays 0. *)
Example author_branch_break_example :
  aggregate_construct_similarity [(1, 10); (3, 30)]%Z sim_3 [] [1; 2; 3]%Z
    (Some [(10, "i0"); (30, "i2")]%Z) 2
  = Ok {| cf_labels := [1; 2; 3]%Z;
          cf_values := [[Num 0; Num 0; Num 0]; [Num 0; Num 0; Num 0];
                        [Num 0; Num 0; Num 0]]%Q |}.
Proof. vm_compute. reflexivity. Qed.

(** ** [parse_text], document by document *)

Section ParseTextMore.

Variable stem_porter2 stem_paicehusk : string -> option string.
Variable ENGLISH_STOP_WORDS : list string.

Local Abbreviation word_step :=
  (parse_word stem_porter2 stem_paicehusk ENGLISH_STOP_WORDS).
Local Abbreviation doc_step :=
  (parse_doc stem_porter2 stem_paicehusk ENGLISH_STOP_WORDS).
Local Abbreviation one :=
  (parse_one stem_porter2 stem_paicehusk ENGLISH_STOP_WORDS).

(** The text collected for a document does not depend on the error
    words recorded so far. *)
Lemma parse_words_any_errors (stemmer : option string) (rsw : bool) (ws : list string) :
  forall (p : string) (e1 e2 : list string),
    fst (fold_left (word_step stemmer rsw) ws (p, e1))
    = fst (fold_left (word_step stemmer rsw) ws (p, e2)).
Proof.
  induction ws as [|w ws IH]; intros p e1 e2; [reflexivity|].
  cbn [fold_left].
  assert (Hw : fst (word_step stemmer rsw (p, e1) w)
               = fst (word_step stemmer rsw (p, e2) w)).
  { unfold parse_word.
    destruct (rsw && mem_string w ENGLISH_STOP_WORDS); [reflexivity|].
    destruct (String.eqb w ""); [reflexivity|].
    destruct stemmer as [sel|]; [|reflexivity].
    destruct (stem_porter2 w); [|reflexivity].
    destruct (stem_paicehusk w); reflexivity. }
  destruct (word_step stemmer rsw (p, e1) w) as [p1 e1'].
  destruct (word_step stemmer rsw (p, e2) w) as [p2 e2'].
  simpl in Hw. subst p2. apply IH.
Qed.

Lemma parse_loop_parsed (stemmer : option string) (lf rsw : bool) (ic : string)
      (todo : list string) :
  forall (done : list string) (st : pt_state),
    documents st = (done ++ todo)%list ->
    parsed_docs (fold_left (doc_step stemmer lf rsw ic)
                           (range (List.length done) (List.length todo)) st)
    = (parsed_docs st ++ map (one stemmer lf rsw ic) todo)%list.
Proof.
  induction todo as [|d todo IH]; intros done st Hst.
  - simpl. now rewrite app_nil_r.
  - unfold range in *. cbn [List.length seq fold_left map].
    replace (S (List.length done)) with (List.length (done ++ [cleaned lf ic d])%list)
      by (rewrite length_app; simpl; lia).
    rewrite IH with (done := (done ++ [cleaned lf ic d])%list).
    + unfold parse_doc at 1. rewrite Hst, nth_middle_string.
      fold (cleaned lf ic d).
      rewrite (surjective_pairing (fold_left _ (split (cleaned lf ic d)) _)).
      cbn [parsed_docs]. rewrite <- app_assoc. cbn [app]. do 3 f_equal.
      unfold parse_one. do 2 f_equal. apply parse_words_any_errors.
    + unfold parse_doc. rewrite Hst, nth_middle_string.
      destruct (fold_left _ _ _) as [p e]. simpl.
      rewrite !list_set_middle, <- app_assoc. reflexivity.
Qed.

Lemma parse_text_map (docs : list string) (stemmer : option string) (lf rsw : bool)
      (ic : string) :
  parse_text stem_porter2 stem_paicehusk ENGLISH_STOP_WORDS docs stemmer lf rsw ic
  = drop_empty (map (one stemmer lf rsw ic) docs).
Proof.
  unfold parse_text, parse_loop. f_equal.
  exact (parse_loop_parsed stemmer lf rsw ic docs []
           {| documents := docs; parsed_docs := []; error_words := [] |} eq_refl).
Qed.

(** X4.  [parse_text] works document by document: the result for two
    sequences put end to end is the two results put end to end (the
    shared state of the loop, the error words, has no influence). *)
Theorem parse_text_app (docs_1 docs_2 : list string) (stemmer : option string)
        (lf rsw : bool) (ic : string) :
  parse_text stem_porter2 stem_paicehusk ENGLISH_STOP_WORDS (docs_1 ++ docs_2)%list
             stemmer lf rsw ic
  = (parse_text stem_porter2 stem_paicehusk ENGLISH_STOP_WORDS docs_1 stemmer lf rsw ic
     ++ parse_text stem_porter2 stem_paicehusk ENGLISH_STOP_WORDS docs_2 stemmer lf rsw ic)%list.
Proof.
  rewrite !parse_text_map. unfold drop_empty. now rewrite map_app, filter_app.
Qed.

(** With a stemmer that raises on a word, the word goes through as it
    is, whichever stemmer was selected. *)
Lemma parse_word_failing (sel : string) (rsw : bool) (word p : string)
      (e1 e2 : list string) :
  stem_porter2 word = None \/ stem_paicehusk word = None ->
  fst (word_step (Some sel) rsw (p, e1) word) = fst (word_step None rsw (p, e2) word).
Proof.
  intros Hfail. unfold parse_word.
  destruct (rsw && mem_string word ENGLISH_STOP_WORDS); [reflexivity|].
  destruct (String.eqb word ""); [reflexivity|].
  destruct (stem_porter2 word) as [sp|]; [|reflexivity].
  destruct (stem_paicehusk word) as [sh|]; [|reflexivity].
  destruct Hfail; discriminate.
Qed.

Lemma parse_words_failing (sel : string) (rsw : bool) (ws : list string) :
  (forall w, In w ws -> stem_porter2 w = None \/ stem_paicehusk w = None) ->
  forall (p : string) (e1 e2 : list string),
    fst (fold_left (word_step (Some sel) rsw) ws (p, e1))
    = fst (fold_left (word_step None rsw) ws (p, e2)).
Proof.
  induction ws as [|w ws IH]; intros Hfail p e1 e2; [reflexivity|].
  cbn [fold_left].
  pose proof (@parse_word_failing sel rsw w p e1 e2 (Hfail w (or_introl eq_refl))) as Hw.
  destruct (word_step (Some sel) rsw (p, e1) w) as [p1 e1'].
  destruct (word_step None rsw (p, e2) w) as [p2 e2'].
  simpl in Hw. subst p2. apply IH. intros x Hx. apply Hfail. now right.
Qed.

(** X5.  The dict literal calls both stemmers on every word: a document
    all of whose words make one of the two raise [ValueError] comes out
    unstemmed, also when the stemmer selected is the one that works. *)
Theorem parse_text_other_stemmer_fails (docs : list string) (sel : string)
        (lf rsw : bool) (ic : string) :
  (forall d w, In d docs -> In w (split (cleaned lf ic d)) ->
     stem_porter2 w = None \/ stem_paicehusk w = None) ->
  parse_text stem_porter2 stem_paicehusk ENGLISH_STOP_WORDS docs (Some sel) lf rsw ic
  = parse_text stem_porter2 stem_paicehusk ENGLISH_STOP_WORDS docs None lf rsw ic.
Proof.
  intros Hfail. rewrite !parse_text_map. f_equal.
  apply map_ext_in. intros d Hd. unfold parse_one. do 2 f_equal.
  apply parse_words_failing. intros w Hw. now apply (Hfail d).
Qed.

End ParseTextMore.

(** A stemmer that raises on every word. *)
Example parse_text_other_stemmer_fails_example :
  parse_text toy_stem (fun _ => None) [] ["The Dogs"] (Some "porter2") true false ""
  = ["the dogs"].
Proof. reflexivity. Qed.

Lemma parse_text_other_stemmer_fails_witness :
  (forall d w, In d ["The Dogs"] -> In w (split (cleaned true "" d)) ->
     toy_stem w = None \/ (fun _ : string => @None string) w = None)
  /\ parse_text toy_stem (fun _ => None) [] ["The Dogs"] (Some "porter2") true false ""
     = parse_text toy_stem (fun _ => None) [] ["The Dogs"] None true false "".
Proof.
  assert (H : forall d w, In d ["The Dogs"] -> In w (split (cleaned true "" d)) ->
                toy_stem w = None \/ (fun _ : string => @None string) w = None)
    by (intros d w _ _; right; reflexivity).
  split; [exact H|].
  exact (@parse_text_other_stemmer_fails toy_stem (fun _ => None) [] ["The Dogs"]
           "porter2" true false "" H).
Defined.

(** ** Splitting and joining *)

Lemma append_assoc (a b c : string) : (a ++ b) ++ c = a ++ (b ++ c).
Proof. induction a as [|x a IH]; simpl; [reflexivity | now rewrite IH]. Qed.

Lemma append_empty_r (a : string) : a ++ "" = a.
Proof. induction a as [|x a IH]; simpl; [reflexivity | now rewrite IH]. Qed.

Lemma rev_string_twice (w : string) :
  forall a b : string, rev_string a (rev_string b w) = rev_string (w ++ a) b.
Proof.
  induction w as [|c w IH]; intros a b; [reflexivity|].
  cbn [rev_string]. rewrite IH. reflexivity.
Qed.

Lemma rev_string_involutive (w : string) : rev_string "" (rev_string "" w) = w.
Proof. rewrite rev_string_twice. cbn [rev_string]. apply append_empty_r. Qed.

Lemma all_chars_rev_string (f : ascii -> bool) (s : string) :
  forall acc, all_chars f (rev_string acc s) = all_chars f acc && all_chars f s.
Proof.
  induction s as [|c s IH]; intros acc; cbn [rev_string all_chars].
  - now rewrite andb_true_r.
  - rewrite IH. cbn [all_chars]. now destruct (f c), (all_chars f acc), (all_chars f s).
Qed.

Lemma rev_string_nonempty (s acc : string) : acc <> "" -> rev_string acc s <> "".
Proof.
  revert acc. induction s as [|c s IH]; intros acc Hacc; [exact Hacc|].
  cbn [rev_string]. apply IH. discriminate.
Qed.

Lemma is_word_spec (w : string) :
  is_word w = true <-> w <> "" /\ all_chars (fun c => negb (is_space c)) w = true.
Proof.
  unfold is_word. rewrite andb_true_iff, negb_true_iff, String.eqb_neq. reflexivity.
Qed.

(** Reading a word moves it, reversed, onto the run being read. *)
Lemma split_aux_word (w : string) :
  all_chars (fun c => negb (is_space c)) w = true ->
  forall (s cur : string) (out : list string),
    split_aux (w ++ s) cur out = split_aux s (rev_string cur w) out.
Proof.
  induction w as [|c w IH]; intros Hw s cur out; [reflexivity|].
  cbn [all_chars] in Hw. apply andb_prop in Hw. destruct Hw as [Hc Hw].
  apply negb_true_iff in Hc. cbn [append split_aux rev_string]. rewrite Hc.
  now apply IH.
Qed.

Lemma split_aux_word_space (w s : string) (out : list string) :
  is_word w = true ->
  split_aux (w ++ " " ++ s) "" out = split_aux s "" (w :: out).
Proof.
  intros Hw. apply is_word_spec in Hw. destruct Hw as [Hne Hns].
  rewrite split_aux_word by exact Hns.
  cbn [append split_aux]. change (is_space " ") with true. cbv iota.
  unfold flush. destruct (rev_string "" w) as [|c r] eqn:E.
  - exfalso. apply Hne. rewrite <- (rev_string_involutive w), E. reflexivity.
  - rewrite <- E, rev_string_involutive. reflexivity.
Qed.

Lemma split_aux_trail (ws : list string) :
  Forall (fun w => is_word w = true) ws ->
  forall (s : string) (out : list string),
    split_aux (trail ws ++ s) "" out = split_aux s "" (rev ws ++ out)%list.
Proof.
  induction 1 as [|w ws Hw _ IH]; intros s out; [reflexivity|].
  cbn [trail]. rewrite !append_assoc, split_aux_word_space by exact Hw.
  rewrite IH. cbn [rev]. now rewrite <- app_assoc.
Qed.

Lemma split_trail (ws : list string) :
  Forall (fun w => is_word w = true) ws -> split (trail ws) = ws.
Proof.
  intros Hws. unfold split. rewrite <- (append_empty_r (trail ws)).
  rewrite (split_aux_trail Hws). cbn [split_aux flush].
  now rewrite app_nil_r, rev_involutive.
Qed.

Lemma split_aux_join (ws : list string) :
  Forall (fun w => is_word w = true) ws ->
  forall out : list string,
    split_aux (join " " ws) "" out = (rev out ++ ws)%list.
Proof.
  induction 1 as [|w ws Hw Hws IH]; intros out.
  - cbn [join split_aux flush]. now rewrite app_nil_r.
  - destruct ws as [|w2 ws].
    + cbn [join].
      apply is_word_spec in Hw. destruct Hw as [Hne Hns].
      replace (split_aux w "" out) with (split_aux (w ++ "") "" out)
        by now rewrite append_empty_r.
      rewrite split_aux_word by exact Hns. cbn [split_aux].
      unfold flush. destruct (rev_string "" w) as [|c r] eqn:E.
      * exfalso. apply Hne. rewrite <- (rev_string_involutive w), E. reflexivity.
      * rewrite <- E, rev_string_involutive. reflexivity.
    + change (join " " (w :: w2 :: ws)) with (w ++ " " ++ join " " (w2 :: ws)).
      rewrite split_aux_word_space by exact Hw. rewrite IH.
      cbn [rev]. now rewrite <- app_assoc.
Qed.

(** Joining words with single spaces and splitting again gives the
    words back. *)
Lemma split_join (ws : list string) :
  Forall (fun w => is_word w = true) ws -> split (join " " ws) = ws.
Proof. intros Hws. unfold split. now rewrite split_aux_join. Qed.

(** What [split] returns are words. *)
Lemma split_aux_words (s : string) :
  forall (cur : string) (out : list string),
    all_chars (fun c => negb (is_space c)) cur = true ->
    Forall (fun w => is_word w = true) out ->
    Forall (fun w => is_word w = true) (split_aux s cur out).
Proof.
  assert (Hflush : forall cur out,
            all_chars (fun c => negb (is_space c)) cur = true ->
            Forall (fun w => is_word w = true) out ->
            Forall (fun w => is_word w = true) (flush cur out)).
  { intros cur out Hcur Hout. unfold flush. destruct cur as [|c r]; [exact Hout|].
    constructor; [|exact Hout]. apply is_word_spec. split.
    - cbn [rev_string]. apply rev_string_nonempty. discriminate.
    - rewrite all_chars_rev_string. exact Hcur. }
  induction s as [|c s IH]; intros cur out Hcur Hout; cbn [split_aux].
  - apply Forall_rev. now apply Hflush.
  - destruct (is_space c) eqn:Hc.
    + apply IH; [reflexivity | now apply Hflush].
    + apply IH; [|exact Hout]. cbn [all_chars]. now rewrite Hc.
Qed.

Lemma split_words (s : string) : Forall (fun w => is_word w = true) (split s).
Proof. apply split_aux_words; [reflexivity | constructor]. Qed.

(** ** The words [parse_text] keeps *)

Section ParseTextWords.

Variable stem_porter2 stem_paicehusk : string -> option string.
Variable ENGLISH_STOP_WORDS : list string.

Local Abbreviation kept rsw :=
  (filter (fun w => negb (rsw && mem_string w ENGLISH_STOP_WORDS))).

Lemma parse_words_unstemmed (rsw : bool) (ws : list string) :
  Forall (fun w => is_word w = true) ws ->
  forall (p : string) (e : list string),
    fst (fold_left (parse_word stem_porter2 stem_paicehusk ENGLISH_STOP_WORDS None rsw)
                   ws (p, e))
    = p ++ trail (kept rsw ws).
Proof.
  induction 1 as [|w ws Hw _ IH]; intros p e.
  - cbn. now rewrite append_empty_r.
  - cbn [fold_left filter]. unfold parse_word at 2.
    destruct (rsw && mem_string w ENGLISH_STOP_WORDS); cbn [negb]; [apply IH|].
    apply is_word_spec in Hw. destruct Hw as [Hne _].
    apply String.eqb_neq in Hne. rewrite Hne, IH.
    cbn [trail]. now rewrite !append_assoc.
Qed.

Lemma parse_one_words (lf rsw : bool) (ic d : string) :
  split (parse_one stem_porter2 stem_paicehusk ENGLISH_STOP_WORDS None lf rsw ic d)
  = kept rsw (split (cleaned lf ic d)).
Proof.
  unfold parse_one.
  assert (Hk : Forall (fun w => is_word w = true) (kept rsw (split (cleaned lf ic d)))).
  { apply Forall_forall. intros w Hw. apply filter_In in Hw. destruct Hw as [Hw _].
    pose proof (split_words (cleaned lf ic d)) as Hall.
    rewrite Forall_forall in Hall. now apply Hall. }
  rewrite (parse_words_unstemmed rsw (split_words (cleaned lf ic d))).
  cbn [append]. rewrite (split_trail Hk). now apply split_join.
Qed.

Lemma join_words_empty (ws : list string) :
  Forall (fun w => is_word w = true) ws ->
  String.eqb (join " " ws) "" = Nat.eqb (List.length ws) 0.
Proof.
  intros Hws. destruct Hws as [|w ws Hw _]; [reflexivity|].
  apply is_word_spec in Hw. destruct Hw as [Hne _].
  destruct w as [|c w]; [now elim Hne|]. destruct ws; reflexivity.
Qed.

(** X6.  Without a stemmer the words of the documents [parse_text]
    returns are the words of the cleaned documents, in order, less the
    stop words (when they are to be removed); the documents left
    without a word are dropped.  Nothing else is dropped, added or
    changed. *)
Theorem parse_text_words (docs : list string) (lf rsw : bool) (ic : string) :
  map split
      (parse_text stem_porter2 stem_paicehusk ENGLISH_STOP_WORDS docs None lf rsw ic)
  = filter (fun ws => negb (Nat.eqb (List.length ws) 0))
           (map (fun d => kept rsw (split (cleaned lf ic d))) docs).
Proof.
  rewrite parse_text_map. unfold drop_empty.
  induction docs as [|d docs IH]; [reflexivity|].
  cbn [map filter]. rewrite <- (parse_one_words lf rsw ic d).
  assert (E : String.eqb
                (parse_one stem_porter2 stem_paicehusk ENGLISH_STOP_WORDS None lf rsw ic d)
                ""
              = Nat.eqb
                  (List.length
                     (split (parse_one stem_porter2 stem_paicehusk ENGLISH_STOP_WORDS
                                       None lf rsw ic d))) 0).
  { unfold parse_one.
    rewrite (split_join (split_words _)). apply join_words_empty, split_words. }
  rewrite <- E.
  destruct (String.eqb _ ""); cbn [negb map]; [exact IH | now rewrite IH].
Qed.

(** X7.  With stop-word removal and no stemmer, no returned document is
    empty and none of its words is a stop word. *)
Theorem parse_text_no_stop_word (docs : list string) (lf : bool) (ic doc : string) :
  In doc (parse_text stem_porter2 stem_paicehusk ENGLISH_STOP_WORDS docs None lf true ic) ->
  doc <> ""
  /\ forall w, In w (split doc) -> mem_string w ENGLISH_STOP_WORDS = false.
Proof.
  rewrite parse_text_map. unfold drop_empty. intros Hin.
  apply filter_In in Hin. destruct Hin as [Hin Hne].
  apply negb_true_iff, String.eqb_neq in Hne. split; [exact Hne|].
  apply in_map_iff in Hin. destruct Hin as [d [<- _]].
  intros w Hw. rewrite parse_one_words in Hw. apply filter_In in Hw.
  destruct Hw as [_ Hw]. now apply negb_true_iff in Hw.
Qed.

End ParseTextWords.

Lemma parse_text_no_stop_word_witness :
  In "dogs cats"
     (parse_text toy_stem toy_stem ["the"] ["The Dogs, the cats!"] None true true
                 default_ignore_chars)
  /\ "dogs cats" <> ""
  /\ forall w, In w (split "dogs cats") -> mem_string w ["the"] = false.
Proof.
  assert (H : In "dogs cats"
                 (parse_text toy_stem toy_stem ["the"] ["The Dogs, the cats!"] None true
                             true default_ignore_chars))
    by (left; reflexivity).
  split; [exact H|].
  exact (@parse_text_no_stop_word toy_stem toy_stem ["the"] ["The Dogs, the cats!"]
           true default_ignore_chars "dogs cats" H).
Defined.

(** ** The identity matrix, entry by entry *)

Lemma for_each_app (A S : Type) (body : S -> A -> pyres S) (l1 l2 : list A) :
  forall s, for_each body (l1 ++ l2)%list s
            = (s' <- for_each body l1 s ;; for_each body l2 s').
Proof.
  induction l1 as [|x l1 IH]; intros s; [reflexivity|].
  cbn [app for_each]. destruct (body s x) as [s1|e]; cbn [bind]; [apply IH | reflexivity].
Qed.

Lemma for_each_map (A B S : Type) (body : S -> B -> pyres S) (f : A -> B) (l : list A) :
  forall s, for_each body (map f l) s = for_each (fun s x => body s (f x)) l s.
Proof.
  induction l as [|x l IH]; intros s; [reflexivity|].
  cbn [map for_each]. destruct (body s (f x)); cbn [bind]; [apply IH | reflexivity].
Qed.

(** A loop inside a loop is one loop over the visits in their order. *)
Lemma for_each_concat (A B S : Type) (body : S -> B -> pyres S) (g : A -> list B)
      (l : list A) :
  forall s, for_each (fun s x => for_each body (g x) s) l s
            = for_each body (List.concat (map g l)) s.
Proof.
  induction l as [|x l IH]; intros s; [reflexivity|].
  cbn [map List.concat for_each]. rewrite for_each_app.
  destruct (for_each body (g x) s); cbn [bind]; [apply IH | reflexivity].
Qed.

Lemma gold_pool_pairs (gs : gold_standard_t) (labels : list Z) (m : list (list Z))
      (pool_id : Z) :
  gold_pool gs labels m pool_id
  = for_each (write_pair labels) (pool_pairs (pool_var_ids gs pool_id)) m.
Proof.
  unfold gold_pool, pool_pairs. cbv zeta. rewrite <- for_each_concat.
  apply for_each_ext. intros s ind_1. unfold gold_row. now rewrite for_each_map.
Qed.

Lemma gold_loop_pairs (gs : gold_standard_t) (labels pool_ids : list Z)
      (m : list (list Z)) :
  for_each (gold_pool gs labels) pool_ids m
  = for_each (write_pair labels)
             (List.concat (map (fun p => pool_pairs (pool_var_ids gs p)) pool_ids)) m.
Proof.
  rewrite <- for_each_concat. apply for_each_ext. intros s p. apply gold_pool_pairs.
Qed.

Lemma in_pool_pairs (pvs : list Z) (a b : Z) :
  In (a, b) (pool_pairs pvs)
  <-> exists k1 k2, k1 < k2 /\ k2 < List.length pvs
                    /\ nth k1 pvs 0%Z = a /\ nth k2 pvs 0%Z = b.
Proof.
  unfold pool_pairs. rewrite in_concat. split.
  - intros [l [Hl Hin]]. apply in_map_iff in Hl. destruct Hl as [k1 [<- Hk1]].
    apply in_map_iff in Hin. destruct Hin as [k2 [Heq Hk2]].
    apply in_range in Hk1, Hk2. injection Heq as <- <-.
    exists k1, k2. repeat split; lia.
  - intros [k1 [k2 [Hlt [Hk2 [<- <-]]]]].
    eexists. split.
    + apply in_map_iff. exists k1. split; [reflexivity|]. apply in_range. lia.
    + apply in_map_iff. exists k2. split; [reflexivity|]. apply in_range. lia.
Qed.

(** What a run of assignments leaves in the array: a one where a pair
    was written, and the old entry elsewhere. *)
Lemma write_pairs_exact (labels : list Z) (ps : list (Z * Z)) :
  let n := List.length labels in
  forall m0 m : list (list Z),
    shaped n n m0 ->
    for_each (write_pair labels) ps m0 = Ok m ->
    shaped n n m
    /\ forall i j, i < n -> j < n ->
         (written labels ps i j -> mget 0%Z m i j = 1%Z)
         /\ ((written labels ps i j -> False) -> mget 0%Z m i j = mget 0%Z m0 i j).
Proof.
  intros n. induction ps as [|[a b] ps IH]; intros m0 m Hs Hrun.
  - injection Hrun as <-. split; [exact Hs|]. intros i j _ _. split; [|reflexivity].
    intros [a [b [[] _]]].
  - cbn [for_each] in Hrun.
    destruct (write_pair labels m0 (a, b)) as [m1|e] eqn:Hw; cbn [bind] in Hrun;
      [|discriminate].
    unfold write_pair, set_cell in Hw. cbn [fst snd] in Hw.
    destruct (index_of (Z.max a b) labels) as [c|] eqn:Hc; [|discriminate].
    destruct (index_of (Z.min a b) labels) as [r|] eqn:Hr.
    + injection Hw as <-.
      destruct (index_of_Some _ _ Hc) as [Hcn _], (index_of_Some _ _ Hr) as [Hrn _].
      destruct (IH _ _ (shaped_mset r c 1%Z Hs) Hrun) as [Hs' Hcells].
      split; [exact Hs'|]. intros i j Hi Hj.
      destruct (Hcells i j Hi Hj) as [Hone Hold].
      rewrite (@mget_mset _ 0%Z n n r c i j 1%Z m0 Hs Hrn Hcn) in Hold.
      split.
      * intros [a' [b' [[Heq|Hin] [Hr' Hc']]]].
        -- injection Heq as <- <-.
           assert (Hi' : Some r = Some i) by congruence.
           assert (Hj' : Some c = Some j) by congruence.
           injection Hi' as <-. injection Hj' as <-.
           destruct (mget 0%Z m r c =? 1)%Z eqn:E; [now apply Z.eqb_eq|].
           rewrite Hold; [now rewrite !Nat.eqb_refl|].
           intros Hwr. apply Z.eqb_neq in E. now apply E, Hone.
        -- apply Hone. now exists a', b'.
      * intros Hnot. rewrite Hold.
        -- destruct (Nat.eqb_spec i r) as [->|]; [|reflexivity].
           destruct (Nat.eqb_spec j c) as [->|]; [|reflexivity].
           exfalso. apply Hnot. exists a, b. repeat split; [now left|assumption..].
        -- intros [a' [b' [Hin H']]]. apply Hnot. exists a', b'. split; [now right|exact H'].
    + injection Hw as <-. destruct (IH _ _ Hs Hrun) as [Hs' Hcells].
      split; [exact Hs'|]. intros i j Hi Hj. destruct (Hcells i j Hi Hj) as [Hone Hold].
      split.
      * intros [a' [b' [[Heq|Hin] [Hr' Hc']]]].
        -- injection Heq as <- <-. congruence.
        -- apply Hone. now exists a', b'.
      * intros Hnot. apply Hold. intros [a' [b' [Hin H']]].
        apply Hnot. exists a', b'. split; [now right|exact H'].
Qed.

Lemma insert_unique_sorted (x : Z) (l : list Z) :
  StronglySorted Z.lt l -> StronglySorted Z.lt (insert_unique x l).
Proof.
  induction 1 as [|h t Ht IH Hall]; cbn [insert_unique].
  - repeat constructor.
  - destruct (Z.ltb_spec x h) as [Hlt|Hge].
    + constructor; [now constructor|]. constructor; [exact Hlt|].
      eapply Forall_impl; [|exact Hall]. intros y Hy. cbv beta in *. lia.
    + destruct (Z.eqb_spec x h) as [->|Hne]; [now constructor|].
      constructor; [exact IH|]. apply Forall_forall. intros y Hy.
      apply in_insert_unique in Hy. destruct Hy as [->|Hy]; [lia|].
      rewrite Forall_forall in Hall. now apply Hall.
Qed.

Lemma np_unique_sorted (l : list Z) : StronglySorted Z.lt (np_unique l).
Proof.
  induction l as [|x l IH]; [constructor|]. cbn. now apply insert_unique_sorted.
Qed.

Lemma sorted_NoDup (l : list Z) : StronglySorted Z.lt l -> NoDup l.
Proof.
  induction 1 as [|h t _ IH Hall]; constructor; [|exact IH].
  intros Hin. rewrite Forall_forall in Hall. specialize (Hall _ Hin). lia.
Qed.

Lemma index_of_nth (labels : list Z) (i : nat) :
  NoDup labels -> i < List.length labels ->
  index_of (nth i labels 0%Z) labels = Some i.
Proof.
  intros Hnd. revert i. induction Hnd as [|h t Hnot _ IH]; intros i Hi; [cbn in Hi; lia|].
  destruct i as [|i]; cbn [nth index_of].
  - now rewrite Z.eqb_refl.
  - cbn in Hi. destruct (Z.eqb_spec (nth i t 0%Z) h) as [E|_].
    + exfalso. apply Hnot. rewrite <- E. apply nth_In. lia.
    + rewrite IH by lia. reflexivity.
Qed.

Lemma mem_Z_In (x : Z) (l : list Z) : mem_Z x l = true <-> In x l.
Proof.
  unfold mem_Z. rewrite existsb_exists. split.
  - intros [y [Hy E]]. apply Z.eqb_eq in E. now subst.
  - intros Hin. exists x. split; [exact Hin | apply Z.eqb_refl].
Qed.

Section GoldEntries.

Variable gs : gold_standard_t.
Variable pool_ids labels : list Z.
Hypothesis labels_distinct : NoDup labels.

Local Abbreviation n := (List.length labels).
Local Abbreviation visits :=
  (List.concat (map (fun p => pool_pairs (pool_var_ids gs p)) pool_ids)).

(** A cell off the diagonal is written, on one side or the other, just
    when its two labels share a pool. *)
Lemma written_share (i j : nat) :
  i < n -> j < n -> i <> j ->
  let x := nth i labels 0%Z in
  let y := nth j labels 0%Z in
  (share_pool gs pool_ids x y = true ->
   (x < y)%Z /\ written labels visits i j \/ (y < x)%Z /\ written labels visits j i)
  /\ (written labels visits i j -> share_pool gs pool_ids x y = true /\ (x < y)%Z)
  /\ (written labels visits j i -> share_pool gs pool_ids x y = true /\ (y < x)%Z).
Proof.
  intros Hi Hj Hne x y.
  assert (Hxy : x <> y).
  { intros E. apply Hne. apply (proj1 (NoDup_nth labels 0%Z) labels_distinct); assumption. }
  assert (Hix : index_of x labels = Some i) by now apply index_of_nth.
  assert (Hiy : index_of y labels = Some j) by now apply index_of_nth.
  assert (Hback : forall a b r c,
            a <> b ->
            In (a, b) visits ->
            index_of (Z.min a b) labels = Some r ->
            index_of (Z.max a b) labels = Some c ->
            share_pool gs pool_ids (nth r labels 0%Z) (nth c labels 0%Z) = true
            /\ (nth r labels 0%Z < nth c labels 0%Z)%Z).
  { intros a b r c Hab Hin Hr Hc.
    destruct (index_of_Some _ _ Hr) as [_ Er], (index_of_Some _ _ Hc) as [_ Ec].
    rewrite Er, Ec. split; [|lia].
    apply in_concat in Hin. destruct Hin as [l [Hl Hin]].
    apply in_map_iff in Hl. destruct Hl as [p [<- Hp]].
    apply in_pool_pairs in Hin. destruct Hin as [k1 [k2 [Hlt [Hk2 [Ea Eb]]]]].
    unfold share_pool. apply existsb_exists. exists p. split; [exact Hp|].
    assert (Ha : In a (pool_var_ids gs p)) by (rewrite <- Ea; apply nth_In; lia).
    assert (Hb : In b (pool_var_ids gs p)) by (rewrite <- Eb; apply nth_In; lia).
    apply andb_true_iff. rewrite !mem_Z_In.
    destruct (Z.min_spec a b) as [[_ ->]|[_ ->]], (Z.max_spec a b) as [[_ ->]|[_ ->]];
      now split. }
  assert (Hdistinct : forall a b r c,
            r <> c -> index_of (Z.min a b) labels = Some r ->
            index_of (Z.max a b) labels = Some c -> a <> b).
  { intros a b r c Hrc Hr Hc ->. rewrite Z.min_id in Hr. rewrite Z.max_id in Hc.
    congruence. }
  split; [|split].
  - intros Hsh. unfold share_pool in Hsh. apply existsb_exists in Hsh.
    destruct Hsh as [p [Hp Hmem]]. apply andb_true_iff in Hmem.
    rewrite !mem_Z_In in Hmem. destruct Hmem as [Hx Hy].
    destruct (In_nth _ _ 0%Z Hx) as [kx [Hkx Ex]].
    destruct (In_nth _ _ 0%Z Hy) as [ky [Hky Ey]].
    assert (Hk : kx <> ky) by (intros ->; congruence).
    assert (Hvis : In (x, y) visits \/ In (y, x) visits).
    { destruct (Nat.lt_total kx ky) as [Hlt|[E|Hgt]]; [left| now elim Hk |right];
        apply in_concat; eexists; (split; [apply in_map_iff; exists p; split;
          [reflexivity | exact Hp]|]); apply in_pool_pairs.
      - exists kx, ky. repeat split; assumption.
      - exists ky, kx. repeat split; assumption. }
    destruct (Z.lt_total x y) as [Hlt|[E|Hgt]]; [left | now elim Hxy | right];
      (split; [assumption|]).
    + destruct Hvis as [Hv|Hv]; [exists x, y | exists y, x]; (split; [exact Hv|]).
      * rewrite Z.min_l, Z.max_r by lia. now split.
      * rewrite Z.min_r, Z.max_l by lia. now split.
    + destruct Hvis as [Hv|Hv]; [exists x, y | exists y, x]; (split; [exact Hv|]).
      * rewrite Z.min_r, Z.max_l by lia. now split.
      * rewrite Z.min_l, Z.max_r by lia. now split.
  - intros [a [b [Hin [Hr Hc]]]].
    exact (Hback a b i j (Hdistinct a b i j Hne Hr Hc) Hin Hr Hc).
  - intros [a [b [Hin [Hr Hc]]]].
    assert (Hne' : j <> i) by (intros E; now apply Hne).
    destruct (Hback a b j i (Hdistinct a b j i Hne' Hr Hc) Hin Hr Hc) as [Hsh Hlt].
    split; [|exact Hlt].
    unfold share_pool in *. apply existsb_exists in Hsh. apply existsb_exists.
    destruct Hsh as [p [Hp Hmem]]. exists p. split; [exact Hp|].
    now rewrite andb_comm.
Qed.

Lemma gold_entries (m : list (list Z)) (i j : nat) :
  for_each (gold_pool gs labels) pool_ids (mzeros 0%Z n n) = Ok m ->
  i < n -> j < n ->
  mget 0%Z (fill_diagonal n 1%Z (mirror_add n m)) i j
  = if Nat.eqb i j
       || share_pool gs pool_ids (nth i labels 0%Z) (nth j labels 0%Z)
    then 1%Z else 0%Z.
Proof.
  intros Hrun Hi Hj. rewrite gold_loop_pairs in Hrun.
  destruct (@write_pairs_exact labels visits _ _ (shaped_mzeros 0%Z n n) Hrun)
    as [Hs Hcells].
  unfold fill_diagonal. rewrite mget_tabulate by assumption.
  destruct (Nat.eqb_spec i j) as [E|Hne]; [reflexivity|]. cbn [orb].
  unfold mirror_add. rewrite mget_tabulate by assumption.
  destruct (Hcells i j Hi Hj) as [Hij1 Hij0], (Hcells j i Hj Hi) as [Hji1 Hji0].
  rewrite mget_mzeros in Hij0, Hji0.
  destruct (written_share Hi Hj Hne) as [Hsh [Hw1 Hw2]]. cbv zeta in *.
  destruct (share_pool gs pool_ids (nth i labels 0%Z) (nth j labels 0%Z)) eqn:E.
  - destruct (Hsh eq_refl) as [[Hlt Hw]|[Hlt Hw]].
    + rewrite (Hij1 Hw), Hji0; [reflexivity|]. intros Hw'. destruct (Hw2 Hw'). lia.
    + rewrite (Hji1 Hw), Hij0; [reflexivity|]. intros Hw'. destruct (Hw1 Hw'). lia.
  - rewrite Hij0, Hji0; [reflexivity| |].
    + intros Hw. now destruct (Hw2 Hw).
    + intros Hw. now destruct (Hw1 Hw).
Qed.

End GoldEntries.

(** X8.  Whatever frame [recreate_construct_identity_gold] returns, over
    labels without repetition, holds a one exactly on the diagonal and
    where the two labels occur together in one of the pools of
    [pool_ids], and a zero elsewhere. *)
Theorem recreate_construct_identity_gold_entries (gs : gold_standard_t)
    (pool_ids : list Z) (full_var_ids : option (list Z)) (g : id_frame) (i j : nat) :
  match full_var_ids with Some ids => NoDup ids | None => True end ->
  recreate_construct_identity_gold gs pool_ids full_var_ids = Ok g ->
  i < List.length (id_labels g) -> j < List.length (id_labels g) ->
  mget 0%Z (id_values g) i j
  = if Nat.eqb i j
       || share_pool gs pool_ids (nth i (id_labels g) 0%Z) (nth j (id_labels g) 0%Z)
    then 1%Z else 0%Z.
Proof.
  intros Hfull Hrun. unfold recreate_construct_identity_gold in Hrun.
  set (labels := match full_var_ids with Some ids => ids | None => _ end) in Hrun.
  assert (Hnd : NoDup labels).
  { unfold labels. destruct full_var_ids; [exact Hfull|].
    apply sorted_NoDup, np_unique_sorted. }
  destruct (for_each _ _ _) as [m|e] eqn:Hloop; cbn [bind] in Hrun; [|discriminate].
  injection Hrun as <-. cbn [id_labels id_values]. intros Hi Hj.
  now apply gold_entries.
Qed.

Lemma recreate_construct_identity_gold_entries_witness :
  NoDup [1; 3; 4; 5; 7; 8]%Z
  /\ mget 0%Z [[1; 1; 0; 0; 0; 0];
               [1; 1; 0; 0; 0; 0];
               [0; 0; 1; 0; 1; 1];
               [0; 0; 0; 1; 0; 0];
               [0; 0; 1; 0; 1; 1];
               [0; 0; 1; 0; 1; 1]]%Z 2 4
     = if Nat.eqb 2 4
          || share_pool [(1, 1); (1, 3); (2, 4); (2, 7); (2, 8)]%Z [1; 2]%Z 4 7
       then 1%Z else 0%Z.
Proof.
  assert (Hnd : NoDup [1; 3; 4; 5; 7; 8]%Z)
    by (repeat constructor; cbn; intuition discriminate).
  split; [exact Hnd|].
  exact (@recreate_construct_identity_gold_entries
           [(1, 1); (1, 3); (2, 4); (2, 7); (2, 8)]%Z [1; 2]%Z
           (Some [1; 3; 4; 5; 7; 8]%Z) _ 2 4 Hnd eq_refl
           ltac:(cbn; lia) ltac:(cbn; lia)).
Defined.

(** ** The identity matrix of [myLSA] *)

Example myLSA_gold_example :
  myLSA_recreate_construct_identity_gold
    [1; 1; 3; 4; 7; 8]%Z [(1, 1); (1, 3); (2, 4); (2, 7); (2, 8)]%Z
  = Ok {| id_labels := [1; 3; 4; 7; 8]%Z;
          id_values := [[0; 0; 0; 0; 0];
                        [1; 0; 0; 0; 0];
                        [0; 0; 0; 0; 0];
                        [0; 0; 1; 0; 0];
                        [0; 0; 1; 1; 0]]%Z |}.
Proof. reflexivity. Qed.

Lemma set_cells_exact (labels : list Z) (ps : list (Z * Z)) :
  let n := List.length labels in
  forall m0 m : list (list Z),
    shaped n n m0 ->
    for_each (fun m p => set_cell labels (fst p) (snd p) m) ps m0 = Ok m ->
    shaped n n m
    /\ forall i j, i < n -> j < n ->
         (addressed labels ps i j -> mget 0%Z m i j = 1%Z)
         /\ ((addressed labels ps i j -> False) -> mget 0%Z m i j = mget 0%Z m0 i j).
Proof.
  intros n. induction ps as [|[a b] ps IH]; intros m0 m Hs Hrun.
  - injection Hrun as <-. split; [exact Hs|]. intros i j _ _. split; [|reflexivity].
    intros [a [b [[] _]]].
  - cbn [for_each] in Hrun.
    destruct (set_cell labels (fst (a, b)) (snd (a, b)) m0) as [m1|e] eqn:Hw;
      cbn [bind] in Hrun; [|discriminate].
    unfold set_cell in Hw. cbn [fst snd] in Hw.
    destruct (index_of a labels) as [c|] eqn:Hc; [|discriminate].
    destruct (index_of b labels) as [r|] eqn:Hr.
    + injection Hw as <-.
      destruct (index_of_Some _ _ Hc) as [Hcn _], (index_of_Some _ _ Hr) as [Hrn _].
      destruct (IH _ _ (shaped_mset r c 1%Z Hs) Hrun) as [Hs' Hcells].
      split; [exact Hs'|]. intros i j Hi Hj.
      destruct (Hcells i j Hi Hj) as [Hone Hold].
      rewrite (@mget_mset _ 0%Z n n r c i j 1%Z m0 Hs Hrn Hcn) in Hold.
      split.
      * intros [a' [b' [[Heq|Hin] [Hr' Hc']]]].
        -- injection Heq as <- <-.
           assert (Hi' : Some r = Some i) by congruence.
           assert (Hj' : Some c = Some j) by congruence.
           injection Hi' as <-. injection Hj' as <-.
           destruct (mget 0%Z m r c =? 1)%Z eqn:E; [now apply Z.eqb_eq|].
           rewrite Hold; [now rewrite !Nat.eqb_refl|].
           intros Hwr. apply Z.eqb_neq in E. now apply E, Hone.
        -- apply Hone. now exists a', b'.
      * intros Hnot. rewrite Hold.
        -- destruct (Nat.eqb_spec i r) as [->|]; [|reflexivity].
           destruct (Nat.eqb_spec j c) as [->|]; [|reflexivity].
           exfalso. apply Hnot. exists a, b. repeat split; [now left|assumption..].
        -- intros [a' [b' [Hin H']]]. apply Hnot. exists a', b'. split; [now right|exact H'].
    + injection Hw as <-. destruct (IH _ _ Hs Hrun) as [Hs' Hcells].
      split; [exact Hs'|]. intros i j Hi Hj. destruct (Hcells i j Hi Hj) as [Hone Hold].
      split.
      * intros [a' [b' [[Heq|Hin] [Hr' Hc']]]].
        -- injection Heq as <- <-. congruence.
        -- apply Hone. now exists a', b'.
      * intros Hnot. apply Hold. intros [a' [b' [Hin H']]].
        apply Hnot. exists a', b'. split; [now right|exact H'].
Qed.

Lemma myLSA_gold_loop_pairs (gs : gold_standard_t) (labels pool_ids : list Z)
      (m : list (list Z)) :
  for_each (myLSA_gold_pool gs labels) pool_ids m
  = for_each (fun m p => set_cell labels (fst p) (snd p) m)
             (List.concat (map (fun p => pool_pairs (pool_var_ids gs p)) pool_ids)) m.
Proof.
  rewrite <- for_each_concat. apply for_each_ext. intros s p.
  unfold myLSA_gold_pool, pool_pairs. cbv zeta. rewrite <- for_each_concat.
  apply for_each_ext. intros s1 ind_1. unfold myLSA_gold_row.
  now rewrite for_each_map.
Qed.

Lemma occurs_before_spec (x y : Z) (l : list Z) :
  occurs_before x y l = true
  <-> exists k1 k2, k1 < k2 /\ k2 < List.length l
                    /\ nth k1 l 0%Z = x /\ nth k2 l 0%Z = y.
Proof.
  induction l as [|h t IH]; cbn [occurs_before].
  - split; [discriminate|]. intros [k1 [k2 [_ [H _]]]]. cbn in H. lia.
  - rewrite orb_true_iff, andb_true_iff, Z.eqb_eq, mem_Z_In, IH. split.
    + intros [[-> Hy]|[k1 [k2 [Hlt [Hk2 [E1 E2]]]]]].
      * destruct (In_nth _ _ 0%Z Hy) as [k [Hk E]].
        exists 0, (S k). cbn. repeat split; [lia | lia | exact E].
      * exists (S k1), (S k2). cbn. repeat split; [lia | lia | exact E1 | exact E2].
    + intros [k1 [k2 [Hlt [Hk2 [E1 E2]]]]]. cbn in Hk2.
      destruct k2 as [|k2]; [lia|]. cbn in E2.
      destruct k1 as [|k1]; cbn in E1.
      * left. split; [exact E1|]. rewrite <- E2. apply nth_In. lia.
      * right. exists k1, k2. repeat split; [lia | lia | exact E1 | exact E2].
Qed.

Lemma in_pd_unique (x : Z) (l : list Z) : In x (pd_unique l) <-> In x l.
Proof.
  induction l as [|h t IH]; [reflexivity|]. cbn [pd_unique In].
  rewrite filter_In, IH, negb_true_iff, Z.eqb_neq.
  destruct (Z.eq_dec h x) as [->|Hne]; [tauto|].
  split; [tauto|]. intros [H|H]; [tauto|]. right. split; [exact H|]. congruence.
Qed.

Lemma sorted_nth_lt (l : list Z) :
  StronglySorted Z.lt l ->
  forall i j, i < j -> j < List.length l -> (nth i l 0 < nth j l 0)%Z.
Proof.
  induction 1 as [|h t _ IH Hall]; intros i j Hij Hj; [cbn in Hj; lia|].
  cbn in Hj. destruct j as [|j]; [lia|]. destruct i as [|i]; cbn [nth].
  - rewrite Forall_forall in Hall. apply Hall, nth_In. lia.
  - apply IH; lia.
Qed.

(** The cells [myLSA]'s loops leave in the array. *)
Lemma myLSA_gold_cells (item_var_ids : list Z) (gs : gold_standard_t) (g : id_frame)
      (i j : nat) :
  myLSA_recreate_construct_identity_gold item_var_ids gs = Ok g ->
  i < List.length (id_labels g) -> j < List.length (id_labels g) ->
  id_labels g = np_unique item_var_ids
  /\ mget 0%Z (id_values g) i j
     = if precedes gs (nth j (id_labels g) 0%Z) (nth i (id_labels g) 0%Z)
       then 1%Z else 0%Z.
Proof.
  unfold myLSA_recreate_construct_identity_gold, myLSA_variableIDs. cbv zeta.
  set (labels := np_unique item_var_ids).
  destruct (for_each _ _ _) as [m|e] eqn:Hrun; cbn [bind]; [|discriminate].
  intros [= <-]. cbn [id_labels id_values]. intros Hi Hj. split; [reflexivity|].
  rewrite myLSA_gold_loop_pairs in Hrun.
  destruct (@set_cells_exact labels _ _ _
              (shaped_mzeros 0%Z (List.length labels) (List.length labels)) Hrun)
    as [_ Hcells].
  destruct (Hcells i j Hi Hj) as [Hone Hold]. rewrite mget_mzeros in Hold.
  assert (Hnd : NoDup labels) by apply sorted_NoDup, np_unique_sorted.
  destruct (precedes gs (nth j labels 0%Z) (nth i labels 0%Z)) eqn:E.
  - apply Hone. unfold precedes in E. apply existsb_exists in E.
    destruct E as [p [Hp Hocc]]. apply occurs_before_spec in Hocc.
    destruct Hocc as [k1 [k2 [Hlt [Hk2 [E1 E2]]]]].
    exists (nth j labels 0%Z), (nth i labels 0%Z). split; [|split].
    + apply in_concat. eexists. split.
      * apply in_map_iff. exists p. split; [reflexivity | exact Hp].
      * apply in_pool_pairs. exists k1, k2. repeat split; assumption.
    + now apply index_of_nth.
    + now apply index_of_nth.
  - apply Hold. intros [a [b [Hin [Hr Hc]]]].
    destruct (index_of_Some _ _ Hr) as [_ Er], (index_of_Some _ _ Hc) as [_ Ec].
    apply in_concat in Hin. destruct Hin as [l [Hl Hin]].
    apply in_map_iff in Hl. destruct Hl as [p [<- Hp]].
    apply in_pool_pairs in Hin.
    assert (Hpre : precedes gs a b = true).
    { unfold precedes. apply existsb_exists. exists p. split; [exact Hp|].
      now apply occurs_before_spec. }
    rewrite Er, Ec in E. congruence.
Qed.

(** X9.  Whatever frame [myLSA.recreate_construct_identity_gold] returns
    is labelled by the sorted distinct identifiers and holds a one at a
    row and a column exactly when the column's identifier stands before
    the row's in the list of one pool, and a zero elsewhere: the first
    identifier of a visited pair selects the column. *)
Theorem myLSA_gold_entries (item_var_ids : list Z) (gs : gold_standard_t) (g : id_frame)
    (i j : nat) :
  myLSA_recreate_construct_identity_gold item_var_ids gs = Ok g ->
  i < List.length (id_labels g) -> j < List.length (id_labels g) ->
  id_labels g = np_unique item_var_ids
  /\ mget 0%Z (id_values g) i j
     = if precedes gs (nth j (id_labels g) 0%Z) (nth i (id_labels g) 0%Z)
       then 1%Z else 0%Z.
Proof. apply myLSA_gold_cells. Qed.

Lemma myLSA_gold_entries_witness :
  [1; 3; 4; 7; 8]%Z = np_unique [1; 1; 3; 4; 7; 8]%Z
  /\ mget 0%Z [[0; 0; 0; 0; 0];
               [1; 0; 0; 0; 0];
               [0; 0; 0; 0; 0];
               [0; 0; 1; 0; 0];
               [0; 0; 1; 1; 0]]%Z 4 2
     = if precedes [(1, 1); (1, 3); (2, 4); (2, 7); (2, 8)]%Z 4 8 then 1%Z else 0%Z.
Proof.
  exact (@myLSA_gold_entries [1; 1; 3; 4; 7; 8]%Z
           [(1, 1); (1, 3); (2, 4); (2, 7); (2, 8)]%Z _ 4 2 eq_refl
           ltac:(cbn; lia) ltac:(cbn; lia)).
Defined.

(** X10.  When every pool lists its identifiers in increasing order, the
    frame [myLSA.recreate_construct_identity_gold] returns is zero on
    and above the diagonal: its ones sit below the diagonal. *)
Theorem myLSA_gold_lower (item_var_ids : list Z) (gs : gold_standard_t) (g : id_frame)
    (i j : nat) :
  (forall p, StronglySorted Z.lt (pool_var_ids gs p)) ->
  myLSA_recreate_construct_identity_gold item_var_ids gs = Ok g ->
  i <= j -> j < List.length (id_labels g) ->
  mget 0%Z (id_values g) i j = 0%Z.
Proof.
  intros Hsorted Hrun Hij Hj.
  assert (Hi : i < List.length (id_labels g)) by lia.
  destruct (myLSA_gold_cells _ _ Hrun Hi Hj) as [Hlab ->].
  destruct (precedes gs _ _) eqn:E; [exfalso|reflexivity].
  unfold precedes in E. apply existsb_exists in E. destruct E as [p [_ Hocc]].
  apply occurs_before_spec in Hocc. destruct Hocc as [k1 [k2 [Hlt [Hk2 [E1 E2]]]]].
  pose proof (sorted_nth_lt (Hsorted p) Hlt Hk2) as Hval. rewrite E1, E2 in Hval.
  assert (Hs : StronglySorted Z.lt (id_labels g)) by (rewrite Hlab; apply np_unique_sorted).
  destruct (Nat.eq_dec i j) as [->|Hne]; [lia|].
  assert (Hij' : i < j) by lia.
  pose proof (sorted_nth_lt Hs Hij' Hj). lia.
Qed.

Lemma myLSA_gold_lower_witness :
  (forall p, StronglySorted Z.lt
               (pool_var_ids [(1, 1); (1, 3); (2, 4); (2, 7); (2, 8)]%Z p))
  /\ mget 0%Z [[0; 0; 0; 0; 0];
               [1; 0; 0; 0; 0];
               [0; 0; 0; 0; 0];
               [0; 0; 1; 0; 0];
               [0; 0; 1; 1; 0]]%Z 2 4 = 0%Z.
Proof.
  assert (H : forall p, StronglySorted Z.lt
                          (pool_var_ids [(1, 1); (1, 3); (2, 4); (2, 7); (2, 8)]%Z p)).
  { intros p. unfold pool_var_ids. cbn [filter map fst snd].
    destruct (1 =? p)%Z, (2 =? p)%Z; cbn [map snd];
      repeat (constructor; try lia). }
  split; [exact H|].
  exact (@myLSA_gold_lower [1; 1; 3; 4; 7; 8]%Z
           [(1, 1); (1, 3); (2, 4); (2, 7); (2, 8)]%Z _ 2 4 H eq_refl
           ltac:(lia) ltac:(cbn; lia)).
Defined.

(** ** [evaluate] *)

Lemma in_triu_indices (n : nat) (p : nat * nat) :
  In p (triu_indices n) <-> fst p < snd p /\ snd p < n.
Proof.
  unfold triu_indices. rewrite in_flat_map. split.
  - intros [i [Hi Hp]]. apply in_map_iff in Hp. destruct Hp as [j [<- Hj]].
    apply in_range in Hi, Hj. cbn [fst snd]. lia.
  - destruct p as [i j]. cbn [fst snd]. intros [Hij Hj]. exists i. split.
    + apply in_range. lia.
    + apply in_map_iff. exists j. split; [reflexivity|]. apply in_range. lia.
Qed.

Lemma take_triu (A : Type) (d : A) (n : nat) (m : list (list A)) :
  shaped n n m -> take_pairs (Arr2 m) (triu_indices n) = Ok (triu_flat d n m).
Proof.
  intros Hs. unfold take_pairs, triu_flat. apply (@map_res_lookups _ d _ _ _ _ Hs).
  intros p Hp. apply in_triu_indices in Hp. lia.
Qed.

Lemma triu_flat_ext (A : Type) (d : A) (n : nat) (m m' : list (list A)) :
  (forall i j, i < j -> j < n -> mget d m i j = mget d m' i j) ->
  triu_flat d n m = triu_flat d n m'.
Proof.
  intros Hagree. unfold triu_flat. apply map_ext_in. intros p Hp.
  apply in_triu_indices in Hp. now apply Hagree.
Qed.

Section EvaluateFacts.

Variables A B : Type.
Variable dA : A.
Variable dB : B.
Variables Fpr Tpr Thresholds Auc : Type.
Variable roc_curve : ndarray B -> ndarray A -> pyres (Fpr * Tpr * Thresholds).
Variable roc_auc_score : ndarray B -> ndarray A -> pyres Auc.

Local Abbreviation eval := (evaluate roc_curve roc_auc_score).

Lemma flatten_both_square (n : nat) (sim : list (list A)) (gold : list (list B)) :
  shaped n n sim -> shaped n n gold ->
  flatten_both (Arr2 sim) (Arr2 gold)
  = Ok (Arr1 (triu_flat dA n sim), Arr1 (triu_flat dB n gold)).
Proof.
  intros Hs Hg. unfold flatten_both. cbn [arr_len].
  replace (List.length sim) with n by (destruct Hs; lia).
  now rewrite (take_triu dA Hs), (take_triu dB Hg).
Qed.

(** X11.  [evaluate] reads two square arrays only right of the diagonal:
    arrays that agree there give the same result, whatever stands on
    and left of the diagonal. *)
Theorem evaluate_upper_only (n : nat) (sim sim' : list (list A))
    (gold gold' : list (list B)) :
  shaped n n sim -> shaped n n sim' -> shaped n n gold -> shaped n n gold' ->
  (forall i j, i < j -> j < n -> mget dA sim i j = mget dA sim' i j) ->
  (forall i j, i < j -> j < n -> mget dB gold i j = mget dB gold' i j) ->
  eval (Arr2 sim) (Arr2 gold) = eval (Arr2 sim') (Arr2 gold').
Proof.
  intros Hs Hs' Hg Hg' Hsim Hgold. unfold evaluate.
  rewrite (flatten_both_square Hs Hg), (flatten_both_square Hs' Hg').
  now rewrite (@triu_flat_ext _ dA n sim sim' Hsim), (@triu_flat_ext _ dB n gold gold' Hgold).
Qed.

(** X12.  Arrays that are flat already pass the [try] block unchanged
    (two index arrays on a flat array are an [IndexError]), so
    [evaluate] on two square arrays and on their flattened upper
    triangles is the same computation. *)
Theorem evaluate_flattened (n : nat) (sim : list (list A)) (gold : list (list B)) :
  shaped n n sim -> shaped n n gold ->
  eval (Arr2 sim) (Arr2 gold)
  = eval (Arr1 (triu_flat dA n sim)) (Arr1 (triu_flat dB n gold)).
Proof.
  intros Hs Hg. unfold evaluate. rewrite (flatten_both_square Hs Hg). reflexivity.
Qed.

(** The loop of [myLSA.evaluate] collects the same entries in the same
    order. *)
Lemma myLSA_flat_loop (n : nat) (sim : list (list A)) (gold : list (list B)) :
  shaped n n sim -> shaped n n gold ->
  forall (k a : nat) (st : list A * list B),
    a + k <= n ->
    for_each (myLSA_flat_body sim gold) (range a k) st
    = Ok ((fst st
           ++ map (fun p => mget dA sim (fst p) (snd p))
                  (flat_map (fun i => map (fun j => (i, j)) (range (i + 1) (n - (i + 1))))
                            (range a k)))%list,
          (snd st
           ++ map (fun p => mget dB gold (fst p) (snd p))
                  (flat_map (fun i => map (fun j => (i, j)) (range (i + 1) (n - (i + 1))))
                            (range a k)))%list).
Proof.
  intros Hs Hg. induction k as [|k IH]; intros a st Hak.
  - cbn. rewrite !app_nil_r. now destruct st.
  - unfold range in *. cbn [seq for_each flat_map].
    unfold myLSA_flat_body at 1, row_right. unfold range.
    replace (List.length sim) with n by (destruct Hs; lia).
    replace (List.length gold) with n by (destruct Hg; lia).
    destruct (nth_error sim a) as [sim_a|] eqn:Esim;
      [|apply nth_error_None in Esim; destruct Hs; lia].
    destruct (nth_error gold a) as [gold_a|] eqn:Egold;
      [|apply nth_error_None in Egold; destruct Hg; lia].
    assert (Hin : forall p,
               In p (map (fun j => (a, j)) (seq (a + 1) (n - (a + 1)))) ->
               fst p < n /\ snd p < n).
    { intros p Hp. apply in_map_iff in Hp. destruct Hp as [j [<- Hj]].
      apply in_seq in Hj. cbn [fst snd]. lia. }
    rewrite (@map_res_lookups _ dA _ _ _ _ Hs Hin), (@map_res_lookups _ dB _ _ _ _ Hg Hin).
    cbn [bind].
    rewrite IH by lia. cbn [fst snd]. rewrite !map_app, !app_assoc. reflexivity.
Qed.

(** X13.  With the identity matrix read from its file, [myLSA.evaluate]
    hands to [roc_curve] and [roc_auc_score] what [evaluate] of
    [is_constructs] hands to them: the row-by-row loop and
    [np.triu_indices] flatten two square arrays alike. *)
Theorem myLSA_evaluate_agrees (n : nat) (sim : list (list A)) (gold : list (list B))
    (recreated : pyres (list (list B))) :
  shaped n n sim -> shaped n n gold ->
  myLSA_evaluate roc_curve roc_auc_score (Some gold) recreated sim
  = eval (Arr2 sim) (Arr2 gold).
Proof.
  intros Hs Hg. unfold myLSA_evaluate, evaluate. cbn [bind].
  replace (List.length sim) with n by (destruct Hs; lia).
  rewrite (myLSA_flat_loop Hs Hg n 0 ([], [])) by lia.
  rewrite (flatten_both_square Hs Hg). reflexivity.
Qed.

End EvaluateFacts.

Example test_e :
  evaluate echo_curve echo_score (Arr2 test_e_similarity) (Arr2 test_e_gold)
  = Ok ([1; 1; 0; 1; 1; 0]%Z, [86 # 100; 89 # 100; 0; 18 # 100; 0; 0]%Q, 6).
Proof. reflexivity. Qed.

Lemma test_e_similarity_shaped : shaped 4 4 test_e_similarity.
Proof. split; [reflexivity | repeat constructor]. Defined.

Lemma test_e_gold_shaped : shaped 4 4 test_e_gold.
Proof. split; [reflexivity | repeat constructor]. Defined.

Lemma evaluate_upper_only_witness :
  shaped 4 4 (mzeros 0%Z 4 4)
  /\ evaluate echo_curve echo_score (Arr2 test_e_similarity) (Arr2 (mzeros 0%Z 4 4))
     = evaluate echo_curve echo_score (Arr2 test_e_similarity)
                (Arr2 [[0; 0; 0; 0]; [1; 0; 0; 0]; [0; 0; 0; 0]; [0; 1; 1; 1]]%Z).
Proof.
  assert (Hz : shaped 4 4 (mzeros 0%Z 4 4)) by (split; [reflexivity | repeat constructor]).
  assert (Hl : shaped 4 4 [[0; 0; 0; 0]; [1; 0; 0; 0]; [0; 0; 0; 0]; [0; 1; 1; 1]]%Z)
    by (split; [reflexivity | repeat constructor]).
  split; [exact Hz|].
  apply (@evaluate_upper_only Q Z 0%Q 0%Z _ _ _ _ echo_curve echo_score 4
           test_e_similarity test_e_similarity (mzeros 0%Z 4 4) _
           test_e_similarity_shaped test_e_similarity_shaped Hz Hl).
  - reflexivity.
  - intros i j Hij Hj.
    destruct i as [|[|[|[|i]]]]; destruct j as [|[|[|[|j]]]]; try lia; reflexivity.
Defined.

Lemma evaluate_flattened_witness :
  shaped 4 4 test_e_similarity /\ shaped 4 4 test_e_gold
  /\ evaluate echo_curve echo_score (Arr2 test_e_similarity) (Arr2 test_e_gold)
     = evaluate echo_curve echo_score
                (Arr1 (triu_flat 0%Q 4 test_e_similarity))
                (Arr1 (triu_flat 0%Z 4 test_e_gold)).
Proof.
  split; [exact test_e_similarity_shaped|]. split; [exact test_e_gold_shaped|].
  exact (@evaluate_flattened Q Z 0%Q 0%Z _ _ _ _ echo_curve echo_score 4
           test_e_similarity test_e_gold test_e_similarity_shaped test_e_gold_shaped).
Defined.

Lemma myLSA_evaluate_agrees_witness :
  shaped 4 4 test_e_similarity /\ shaped 4 4 test_e_gold
  /\ myLSA_evaluate echo_curve echo_score (Some test_e_gold) (Raise KeyError)
                    test_e_similarity
     = evaluate echo_curve echo_score (Arr2 test_e_similarity) (Arr2 test_e_gold).
Proof.
  split; [exact test_e_similarity_shaped|]. split; [exact test_e_gold_shaped|].
  exact (@myLSA_evaluate_agrees Q Z 0%Q 0%Z _ _ _ _ echo_curve echo_score 4
           test_e_similarity test_e_gold (Raise KeyError)
           test_e_similarity_shaped test_e_gold_shaped).
Defined.

Lemma myLSA_gold_shaped (item_var_ids : list Z) (gs : gold_standard_t) (g : id_frame) :
  myLSA_recreate_construct_identity_gold item_var_ids gs = Ok g ->
  shaped (List.length (id_labels g)) (List.length (id_labels g)) (id_values g).
Proof.
  unfold myLSA_recreate_construct_identity_gold, myLSA_variableIDs. cbv zeta.
  set (labels := np_unique item_var_ids).
  destruct (for_each _ _ _) as [m|e] eqn:Hrun; cbn [bind]; [|discriminate].
  intros [= <-]. cbn [id_labels id_values].
  rewrite myLSA_gold_loop_pairs in Hrun.
  exact (proj1 (@set_cells_exact labels _ _ _
                  (shaped_mzeros 0%Z (List.length labels) (List.length labels)) Hrun)).
Qed.

(** X14.  When no file holds the identity matrix and every pool lists
    its identifiers in increasing order, the labels [myLSA.evaluate]
    hands to [roc_curve] and [roc_auc_score] are all zero: the matrix
    it recreates has its ones below the diagonal, and the loop reads
    right of the diagonal. *)
Theorem myLSA_evaluate_labels_zero (Fpr Tpr Thresholds Auc : Type)
    (roc_curve : ndarray Z -> ndarray Q -> pyres (Fpr * Tpr * Thresholds))
    (roc_auc_score : ndarray Z -> ndarray Q -> pyres Auc)
    (item_var_ids : list Z) (gs : gold_standard_t) (g : id_frame)
    (sim : list (list Q)) :
  let n := List.length (id_labels g) in
  (forall p, StronglySorted Z.lt (pool_var_ids gs p)) ->
  myLSA_recreate_construct_identity_gold item_var_ids gs = Ok g ->
  shaped n n sim ->
  myLSA_evaluate roc_curve roc_auc_score None
    (g <- myLSA_recreate_construct_identity_gold item_var_ids gs ;; Ok (id_values g)) sim
  = (curve <- roc_curve (Arr1 (map (fun _ => 0%Z) (triu_indices n)))
                        (Arr1 (triu_flat 0%Q n sim)) ;;
     roc_auc <- roc_auc_score (Arr1 (map (fun _ => 0%Z) (triu_indices n)))
                              (Arr1 (triu_flat 0%Q n sim)) ;;
     Ok (fst (fst curve), snd (fst curve), roc_auc)).
Proof.
  intros n Hsorted Hrun Hs. unfold myLSA_evaluate. rewrite Hrun. cbn [bind].
  pose proof (myLSA_gold_shaped _ _ Hrun) as Hg. fold n in Hg.
  replace (List.length sim) with n by (destruct Hs; lia).
  rewrite (@myLSA_flat_loop Q Z 0%Q 0%Z n sim (id_values g) Hs Hg n 0 ([], [])) by lia.
  cbn [bind fst snd app].
  assert (E : map (fun p => mget 0%Z (id_values g) (fst p) (snd p))
                  (flat_map (fun i => map (fun j => (i, j)) (range (i + 1) (n - (i + 1))))
                            (range 0 n))
              = map (fun _ => 0%Z) (triu_indices n)).
  { apply map_ext_in. intros p Hp. apply in_triu_indices in Hp.
    assert (Hi : fst p < n) by lia.
    destruct (myLSA_gold_cells _ _ Hrun Hi (proj2 Hp)) as [Hlab ->].
    destruct (precedes gs _ _) eqn:Epre; [exfalso|reflexivity].
    unfold precedes in Epre. apply existsb_exists in Epre. destruct Epre as [q [_ Hocc]].
    apply occurs_before_spec in Hocc. destruct Hocc as [k1 [k2 [Hlt [Hk2 [E1 E2]]]]].
    pose proof (sorted_nth_lt (Hsorted q) Hlt Hk2) as Hval. rewrite E1, E2 in Hval.
    assert (Hsl : StronglySorted Z.lt (id_labels g))
      by (rewrite Hlab; apply np_unique_sorted).
    pose proof (sorted_nth_lt Hsl (proj1 Hp) (proj2 Hp)). lia. }
  rewrite E. reflexivity.
Qed.

Lemma myLSA_evaluate_labels_zero_witness :
  (forall p, StronglySorted Z.lt (pool_var_ids [(1, 1); (1, 3); (2, 4); (2, 7)]%Z p))
  /\ myLSA_evaluate echo_curve echo_score None
       (g <- myLSA_recreate_construct_identity_gold
               [1; 3; 4; 7]%Z [(1, 1); (1, 3); (2, 4); (2, 7)]%Z ;;
        Ok (id_values g))
       test_e_similarity
     = Ok ([0; 0; 0; 0; 0; 0]%Z, [86 # 100; 89 # 100; 0; 18 # 100; 0; 0]%Q, 6).
Proof.
  assert (H : forall p, StronglySorted Z.lt
                          (pool_var_ids [(1, 1); (1, 3); (2, 4); (2, 7)]%Z p)).
  { intros p. unfold pool_var_ids. cbn [filter map fst snd].
    destruct (1 =? p)%Z, (2 =? p)%Z; cbn [map snd];
      repeat (constructor; try lia). }
  split; [exact H|].
  exact (@myLSA_evaluate_labels_zero _ _ _ _ echo_curve echo_score
           [1; 3; 4; 7]%Z [(1, 1); (1, 3); (2, 4); (2, 7)]%Z _ test_e_similarity
           H eq_refl test_e_similarity_shaped).
Defined.

(** ** [myLSA.compute_construct_similarity] *)

Lemma for_each_ext_in (A S : Type) (body body' : S -> A -> pyres S) (xs : list A) :
  (forall s x, In x xs -> body s x = body' s x) ->
  forall s, for_each body xs s = for_each body' xs s.
Proof.
  induction xs as [|x xs IH]; intros Hb s; [reflexivity|].
  cbn [for_each]. rewrite Hb by now left.
  destruct (body' s x); cbn [bind]; [|reflexivity].
  apply IH. intros s' y Hy. apply Hb. now right.
Qed.

(** A loop whose bodies can only fail with [e] fails with [e] as soon
    as one of them fails whatever the state. *)
Lemma for_each_ok_or (A S : Type) (body : S -> A -> pyres S) (e : exn) (xs : list A) :
  (forall s x, In x xs -> body s x = Raise e \/ exists s', body s x = Ok s') ->
  forall s, for_each body xs s = Raise e \/ exists s', for_each body xs s = Ok s'.
Proof.
  induction xs as [|x xs IH]; intros Hb s; [right; now exists s|].
  cbn [for_each]. destruct (Hb s x (or_introl eq_refl)) as [->|[s1 ->]]; cbn [bind].
  - now left.
  - apply IH. intros s' y Hy. apply Hb. now right.
Qed.

Lemma for_each_raises (A S : Type) (body : S -> A -> pyres S) (e : exn) (xs : list A) :
  (forall s x, In x xs -> body s x = Raise e \/ exists s', body s x = Ok s') ->
  (exists x, In x xs /\ forall s, body s x = Raise e) ->
  forall s, for_each body xs s = Raise e.
Proof.
  induction xs as [|x xs IH]; intros Hb [x0 [Hin Hx0]] s; [contradiction|].
  cbn [for_each]. destruct Hin as [->|Hin].
  - now rewrite Hx0.
  - destruct (Hb s x (or_introl eq_refl)) as [->|[s1 ->]]; cbn [bind]; [reflexivity|].
    apply IH; [|now exists x0]. intros s' y Hy. apply Hb. now right.
Qed.

Lemma length_np_sort (l : list Q) : List.length (np_sort l) = List.length l.
Proof. apply Permutation_length, np_sort_perm. Qed.

Section ComputeConstructSimilarity.

Variable gold_items : list Z.
Variable item_vectors : list (list Q).
Hypothesis vectors_of_items : List.length item_vectors = List.length gold_items.

Local Abbreviation ids := (myLSA_variableIDs gold_items).
Local Abbreviation n := (List.length ids).
Local Abbreviation values := (myLSA_values gold_items item_vectors).
Local Abbreviation body := (ccs_body (gram item_vectors) gold_items ids).

Lemma ccs_body_values (i c : nat) (m : list (list npfloat)) :
  body i m c
  = match last_n 2 (np_sort (values i c)) with
    | [a; b] => Ok (mset i c (Num (mean_Q [a; b])) m)
    | _ => Raise ValueError
    end.
Proof.
  unfold ccs_body. cbv zeta.
  assert (Hg : shaped (List.length gold_items) (List.length gold_items)
                      (gram item_vectors)).
  { unfold gram. rewrite vectors_of_items. apply shaped_tabulate. }
  rewrite (@map_res_lookups _ 0%Q _ _ _ _ Hg).
  - cbn [bind]. unfold myLSA_values, construct_values, pair_values, item_constituents.
    cbn [sim_values].
    destruct (last_n 2 (np_sort _)) as [|a [|b [|c' l]]]; reflexivity.
  - intros p Hp. apply in_cross in Hp. destruct Hp as [H1 H2].
    split; eapply in_np_where; eassumption.
Qed.

Lemma ccs_body_two (i c : nat) (m : list (list npfloat)) :
  2 <= List.length (values i c) ->
  body i m c = Ok (mset i c (avg_value 2 (values i c)) m).
Proof.
  intros Hlen. rewrite ccs_body_values. unfold avg_value.
  change (top_k 2) with 2.
  pose proof (length_last_n 2 (np_sort (values i c))) as Hl.
  rewrite length_np_sort in Hl.
  destruct (last_n 2 (np_sort (values i c))) as [|a [|b [|c' l]]];
    cbn [List.length] in Hl; try lia. reflexivity.
Qed.

Lemma ccs_body_few (i c : nat) (m : list (list npfloat)) :
  List.length (values i c) < 2 -> body i m c = Raise ValueError.
Proof.
  intros Hlen. rewrite ccs_body_values.
  pose proof (length_last_n 2 (np_sort (values i c))) as Hl.
  rewrite length_np_sort in Hl.
  destruct (last_n 2 (np_sort (values i c))) as [|a [|b [|c' l]]];
    cbn [List.length] in Hl; try lia; reflexivity.
Qed.

Lemma ccs_body_ok_or (i c : nat) (m : list (list npfloat)) :
  body i m c = Raise ValueError \/ exists m', body i m c = Ok m'.
Proof.
  rewrite ccs_body_values.
  destruct (last_n 2 (np_sort (values i c))) as [|a [|b [|c' l]]]; eauto.
Qed.

(** X15.  [myLSA.compute_construct_similarity] unpacks the two highest
    similarities of every pair of constructs: when some pair has fewer
    than two item similarities (two constructs of one item each), the
    call raises [ValueError]. *)
Theorem compute_construct_similarity_raises (i j : nat) :
  i < j -> j < n -> List.length (values i j) < 2 ->
  compute_construct_similarity gold_items item_vectors = Raise ValueError.
Proof.
  intros Hij Hj Hfew. unfold compute_construct_similarity. cbv zeta.
  apply for_each_raises.
  - intros m r _. unfold fill_rows. apply for_each_ok_or.
    intros m' c _. apply ccs_body_ok_or.
  - exists i. split; [apply in_range; lia|].
    intros m. unfold fill_rows. apply for_each_raises.
    + intros m' c _. apply ccs_body_ok_or.
    + exists j. split; [apply in_range; lia|].
      intros m'. now apply ccs_body_few.
Qed.

(** X16.  When every pair of constructs has at least two item
    similarities, [myLSA.compute_construct_similarity] returns the
    array that [aggregate_construct_similarity] of [is_constructs]
    computes, with [n_similarities = 2] on the item branch, from the
    same item similarities. *)
Theorem compute_construct_similarity_agrees (gold2funk : list (Z * Z))
    (labels : list string) :
  (forall i j, i < j -> j < n -> 2 <= List.length (values i j)) ->
  exists m,
    compute_construct_similarity gold_items item_vectors = Ok m
    /\ aggregate_construct_similarity gold2funk
         {| sim_index := labels; sim_values := gram item_vectors |}
         gold_items ids None 2
       = Ok {| cf_labels := ids; cf_values := m |}.
Proof.
  intros Htwo.
  set (w := fun i j => avg_value 2 (values i j)).
  assert (Hrun : compute_construct_similarity gold_items item_vectors = Ok (upper n w)).
  { unfold compute_construct_similarity. cbv zeta.
    rewrite for_each_ext_in with
      (body' := fill_rows n (fun i m c => Ok (mset i c (w i c) m))).
    - destruct (@fill_upper (list (list npfloat)) (fun m => m) (fun _ => True) n w
                  (fun i m c => Ok (mset i c (w i c) m)))
        with (s := mzeros (Num 0%Q) n n) as [m [Hm [_ Hup]]]; auto.
      { intros i c s _ _ _. now exists (mset i c (w i c) s). }
      now rewrite Hm, Hup.
    - intros m i Hi. apply in_range in Hi. unfold fill_rows.
      apply for_each_ext_in. intros m' c Hc. apply in_range in Hc.
      apply ccs_body_two, Htwo; lia. }
  exists (upper n w). split; [exact Hrun|].
  assert (Hsorted : np_sort_Z ids = ids).
  { unfold myLSA_variableIDs.
    pose proof (np_unique_sorted gold_items) as Hs.
    induction Hs as [|h t Ht IH Hall]; [reflexivity|].
    unfold np_sort_Z in *. cbn [fold_right]. rewrite IH.
    destruct t as [|h' t']; [reflexivity|]. cbn [insert_Z].
    inversion Hall as [|? ? Hh _]; subst.
    now replace (h <=? h')%Z with true by (symmetry; apply Z.leb_le; lia). }
  rewrite aggregate_construct_similarity_items.
  - rewrite Hsorted. f_equal. f_equal.
    apply (shaped_ext (Num 0%Q) (shaped_mmap nan_to_num (shaped_tabulate n n _))
                      (shaped_tabulate n n _)).
    intros a b Ha Hb.
    rewrite (mget_mmap (Num 0%Q) (Num 0%Q) nan_to_num (shaped_tabulate n n _) Ha Hb).
    unfold upper. rewrite !mget_tabulate by assumption.
    destruct (Nat.ltb_spec a b) as [Hab|Hab]; [|reflexivity].
    unfold w, myLSA_values, construct_values. cbn [sim_values].
    specialize (Htwo a b Hab Hb). unfold myLSA_values, construct_values in Htwo.
    cbn [sim_values] in Htwo. unfold avg_value. change (top_k 2) with 2.
    pose proof (length_last_n 2 (np_sort
      (pair_values (gram item_vectors) (item_constituents gold_items (nth a ids 0%Z))
                   (item_constituents gold_items (nth b ids 0%Z))))) as Hl.
    rewrite length_np_sort in Hl.
    destruct (last_n 2 _) as [|x l]; cbn [List.length] in Hl; [lia | reflexivity].
  - cbn [sim_values]. unfold gram. rewrite vectors_of_items. apply shaped_tabulate.
Qed.

End ComputeConstructSimilarity.

Lemma compute_construct_similarity_raises_witness :
  List.length [[1]; [1]]%Q = List.length [1; 2]%Z
  /\ compute_construct_similarity [1; 2]%Z [[1]; [1]]%Q = Raise ValueError.
Proof.
  split; [reflexivity|].
  exact (@compute_construct_similarity_raises [1; 2]%Z [[1]; [1]]%Q eq_refl 0 1
           ltac:(lia) ltac:(cbn; lia) ltac:(cbn; lia)).
Defined.

Lemma compute_construct_similarity_agrees_witness :
  List.length [[1; 0]; [0; 1]; [1; 1]]%Q = List.length [1; 1; 2]%Z
  /\ exists m,
       compute_construct_similarity [1; 1; 2]%Z [[1; 0]; [0; 1]; [1; 1]]%Q = Ok m
       /\ aggregate_construct_similarity []
            {| sim_index := ["a"; "b"; "c"];
               sim_values := gram [[1; 0]; [0; 1]; [1; 1]]%Q |}
            [1; 1; 2]%Z (myLSA_variableIDs [1; 1; 2]%Z) None 2
          = Ok {| cf_labels := myLSA_variableIDs [1; 1; 2]%Z; cf_values := m |}.
Proof.
  split; [reflexivity|].
  apply (@compute_construct_similarity_agrees [1; 1; 2]%Z [[1; 0]; [0; 1]; [1; 1]]%Q
           eq_refl [] ["a"; "b"; "c"]).
  intros i j Hij Hj. cbn in Hj.
  destruct i as [|[|i]]; destruct j as [|[|j]]; try lia. cbn. lia.
Defined.

(** ** [term_term_cooccurrence] *)

Example term_term_example :
  term_term_cooccurrence ["aa"; "bb"; "cc"] [[1; 1; 0]; [0; 1; 1]]%Q
  = Ok {| ttr_dict := [[(0, 1%Q); (1, 1%Q)]; [(0, 1%Q); (1, 2%Q); (2, 1%Q)];
                       [(1, 1%Q); (2, 1%Q)]];
          ttr_term_ix := [("aa", 0); ("bb", 1); ("cc", 2)];
          ttr_ix_term := [(0, "aa"); (1, "bb"); (2, "cc")] |}.
Proof. vm_compute. reflexivity. Qed.

(** A term that stands twice among the columns stops the call. *)
Example term_term_duplicate :
  term_term_cooccurrence ["aa"; "aa"] [[1; 1]]%Q = Raise ValueError.
Proof. vm_compute. reflexivity. Qed.

Lemma Qmult_comm_eq (a b : Q) : (a * b)%Q = (b * a)%Q.
Proof. unfold Qmult. now rewrite Z.mul_comm, Pos.mul_comm. Qed.

Lemma cooccurrence_comm (dt_matrix : list (list Q)) (i k : nat) :
  cooccurrence dt_matrix i k = cooccurrence dt_matrix k i.
Proof.
  unfold cooccurrence, dot_Q, column. f_equal.
  induction dt_matrix as [|row m IH]; [reflexivity|].
  cbn [map zip_with]. now rewrite IH, Qmult_comm_eq.
Qed.

Lemma lookup_str_app (V : Type) (k : string) (d1 d2 : list (string * V)) :
  lookup_str k (d1 ++ d2)%list
  = match lookup_str k d1 with Some v => Some v | None => lookup_str k d2 end.
Proof.
  induction d1 as [|[k' v'] d1 IH]; [reflexivity|]. cbn [app lookup_str].
  now destruct (String.eqb k k').
Qed.

Lemma dict_set_str_fresh (V : Type) (k : string) (v : V) (d : list (string * V)) :
  lookup_str k d = None -> dict_set_str k v d = (d ++ [(k, v)])%list.
Proof.
  induction d as [|[k' v'] d IH]; [reflexivity|]. cbn [lookup_str dict_set_str app].
  destruct (String.eqb k k'); [discriminate|]. intros H. now rewrite IH.
Qed.

Lemma lookup_str_combine_None (k : string) (ts : list string) (a : nat) :
  ~ In k ts -> lookup_str k (combine ts (seq a (List.length ts))) = None.
Proof.
  revert a. induction ts as [|t ts IH]; intros a Hnot; [reflexivity|].
  cbn [List.length seq combine lookup_str].
  destruct (String.eqb_spec k t) as [->|_]; [exfalso; apply Hnot; now left|].
  apply IH. intros Hin. apply Hnot. now right.
Qed.

(** With terms that all differ, the inverted dictionary lists the terms
    with their positions. *)
Lemma make_dict_term_ix_distinct (ts : list string) :
  NoDup ts ->
  forall (a : nat) (d : list (string * nat)),
    (forall t, In t ts -> lookup_str t d = None) ->
    fold_left (fun d kv => dict_set_str (snd kv) (fst kv) d)
              (combine (seq a (List.length ts)) ts) d
    = (d ++ combine ts (seq a (List.length ts)))%list.
Proof.
  induction 1 as [|t ts Hnot _ IH]; intros a d Hfresh.
  - cbn. now rewrite app_nil_r.
  - cbn [List.length seq combine fold_left fst snd].
    rewrite dict_set_str_fresh by (apply Hfresh; now left).
    rewrite IH.
    + now rewrite <- app_assoc.
    + intros t' Ht'. rewrite lookup_str_app, Hfresh by now right.
      cbn [lookup_str]. destruct (String.eqb_spec t' t) as [->|_]; [contradiction|].
      reflexivity.
Qed.

Lemma lookup_str_combine (ts : list string) :
  NoDup ts ->
  forall a i, i < List.length ts ->
    lookup_str (nth i ts "") (combine ts (seq a (List.length ts))) = Some (a + i).
Proof.
  induction 1 as [|t ts Hnot _ IH]; intros a i Hi; [cbn in Hi; lia|].
  cbn [List.length seq combine lookup_str]. destruct i as [|i]; cbn [nth].
  - rewrite String.eqb_refl. f_equal. lia.
  - cbn in Hi. destruct (String.eqb_spec (nth i ts "") t) as [E|_].
    + exfalso. apply Hnot. rewrite <- E. apply nth_In. lia.
    + rewrite IH by lia. f_equal. lia.
Qed.

Lemma lookup_nat_combine (ts : list string) :
  forall a i, i < List.length ts ->
    lookup_nat (a + i) (combine (seq a (List.length ts)) ts) = Some (nth i ts "").
Proof.
  induction ts as [|t ts IH]; intros a i Hi; [cbn in Hi; lia|].
  cbn [List.length seq combine lookup_nat]. destruct i as [|i]; cbn [nth].
  - now rewrite Nat.add_0_r, Nat.eqb_refl.
  - cbn in Hi. replace (Nat.eqb (a + S i) a) with false
      by (symmetry; apply Nat.eqb_neq; lia).
    replace (a + S i) with (S a + i) by lia. apply IH. lia.
Qed.

Lemma map_res_map_ok (A B : Type) (f : B -> pyres A) (g : A -> B) (l : list A) :
  (forall x, In x l -> f (g x) = Ok x) -> map_res f (map g l) = Ok l.
Proof.
  induction l as [|x l IH]; intros Hl; [reflexivity|].
  cbn [map map_res]. rewrite Hl by now left. cbn [bind].
  rewrite IH by (intros y Hy; apply Hl; now right). reflexivity.
Qed.

Lemma terms_ix_distinct (ts : list string) :
  NoDup ts ->
  map_res (fun term => match lookup_str term (make_dict_term_ix (make_dict_ix_term ts)) with
                       | Some i => Ok i
                       | None => Raise KeyError
                       end) ts
  = Ok (range 0 (List.length ts)).
Proof.
  intros Hnd. unfold make_dict_term_ix, make_dict_ix_term, range.
  rewrite (make_dict_term_ix_distinct Hnd 0 []) by reflexivity. cbn [app].
  assert (E : ts = map (fun i => nth i ts "") (seq 0 (List.length ts))).
  { rewrite <- (map_id ts) at 1. apply (map_by_index "" (fun x => x) ts). }
  set (F := fun term : string => _). rewrite E at 1. apply map_res_map_ok.
  intros i Hi. apply in_seq in Hi. unfold F.
  rewrite (lookup_str_combine Hnd 0) by lia. reflexivity.
Qed.

Lemma positions_from_seq (c start a k : nat) :
  positions_from (Nat.eqb c) start (seq a k)
  = if Nat.leb a c && Nat.ltb c (a + k) then [start + (c - a)] else [].
Proof.
  revert start a. induction k as [|k IH]; intros start a; cbn [seq positions_from].
  - destruct (Nat.leb_spec a c), (Nat.ltb_spec c (a + 0)); cbn; try reflexivity; lia.
  - rewrite IH. destruct (Nat.eqb_spec c a) as [->|Hne].
    + rewrite Nat.leb_refl.
      replace (Nat.ltb a (a + S k)) with true by (symmetry; apply Nat.ltb_lt; lia).
      replace (Nat.leb (S a) a) with false by (symmetry; apply Nat.leb_gt; lia).
      cbn. f_equal. lia.
    + destruct (Nat.leb_spec (S a) c), (Nat.leb_spec a c); try lia; cbn [andb];
        [|reflexivity].
      replace (Nat.ltb c (S a + k)) with (Nat.ltb c (a + S k)) by (f_equal; lia).
      destruct (Nat.ltb c (a + S k)); [|reflexivity]. f_equal. lia.
Qed.

Lemma np_where_range (c n : nat) : c < n -> np_where (Nat.eqb c) (range 0 n) = [c].
Proof.
  intros Hc. unfold np_where, range. rewrite positions_from_seq.
  replace (Nat.ltb c (0 + n)) with true by (symmetry; apply Nat.ltb_lt; lia).
  cbn. f_equal. lia.
Qed.

Lemma dict_add_fresh (k : nat) (x : Q) (d : list (nat * Q)) :
  (forall p, In p d -> fst p <> k) -> dict_add k x d = (d ++ [(k, x)])%list.
Proof.
  induction d as [|[k' v] d IH]; intros Hfresh; [reflexivity|].
  cbn [dict_add app]. destruct (Nat.eqb_spec k k') as [->|_].
  - exfalso. now apply (Hfresh (k', v)); [left|].
  - rewrite IH; [reflexivity|]. intros p Hp. apply Hfresh. now right.
Qed.

Lemma lookup_nat_entries (f : nat -> Q) (g : nat -> bool) (k a m : nat) :
  lookup_nat k (map (fun c => (c, f c)) (filter g (seq a m)))
  = if Nat.leb a k && Nat.ltb k (a + m) && g k then Some (f k) else None.
Proof.
  revert a. induction m as [|m IH]; intros a; cbn [seq filter map lookup_nat].
  - destruct (Nat.leb_spec a k), (Nat.ltb_spec k (a + 0)); cbn; try reflexivity; lia.
  - assert (Hrest : lookup_nat k (map (fun c => (c, f c)) (filter g (seq (S a) m)))
                    = if Nat.eqb k a then None
                      else if Nat.leb a k && Nat.ltb k (a + S m) && g k
                           then Some (f k) else None).
    { rewrite IH. destruct (Nat.eqb_spec k a) as [->|Hne].
      - now replace (Nat.leb (S a) a) with false by (symmetry; apply Nat.leb_gt; lia).
      - replace (Nat.ltb k (S a + m)) with (Nat.ltb k (a + S m)) by (f_equal; lia).
        destruct (Nat.leb_spec (S a) k), (Nat.leb_spec a k); try lia; reflexivity. }
    destruct (g a) eqn:Hg; cbn [map lookup_nat]; rewrite Hrest.
    + destruct (Nat.eqb_spec k a) as [->|_]; [|reflexivity].
      rewrite Nat.leb_refl, Hg.
      now replace (Nat.ltb a (a + S m)) with true by (symmetry; apply Nat.ltb_lt; lia).
    + destruct (Nat.eqb_spec k a) as [->|_]; [|reflexivity].
      now rewrite Hg, andb_false_r.
Qed.

Section TermTerm.

Variable terms : list string.
Variable dt_matrix : list (list Q).

Local Abbreviation n := (List.length terms).
Local Abbreviation labels := (range 0 n).
Local Abbreviation tt_matrix := (transpose_dot n dt_matrix).
Local Abbreviation entries := (tt_entries dt_matrix).

Lemma frame_at_range (i k : nat) :
  i < n -> k < n -> frame_at labels tt_matrix i k = Ok (cooccurrence dt_matrix k i).
Proof.
  intros Hi Hk. unfold frame_at, transpose_dot. rewrite !np_where_range by assumption.
  rewrite (mlookup_ok 0%Q (shaped_tabulate n n _) Hk Hi).
  now rewrite mget_tabulate.
Qed.

(** One row of the dictionary, once the loop over [k] has run. *)
Lemma tt_row (i : nat) :
  i < n ->
  forall (m a : nat) (d : list (list (nat * Q))),
    a + m <= n -> List.length d = n ->
    (forall p, In p (nth i d []) -> fst p < a) ->
    for_each (tt_body labels tt_matrix i) (seq a m) d
    = Ok (list_set i (nth i d [] ++ entries i (seq a m))%list d).
Proof.
  intros Hi. induction m as [|m IH]; intros a d Ham Hd Hkeys.
  - cbn [seq for_each]. unfold tt_entries. cbn [filter map].
    rewrite app_nil_r. f_equal. symmetry.
    apply (list_ext []); [now rewrite length_list_set|].
    intros j Hj. rewrite length_list_set in Hj.
    rewrite nth_list_set by lia. now destruct (Nat.eqb_spec j i) as [->|].
  - cbn [seq for_each]. unfold tt_body at 1.
    rewrite frame_at_range by lia. cbn [bind].
    unfold tt_entries. cbn [filter].
    destruct (nonzero_Q (cooccurrence dt_matrix a i)) eqn:Hnz.
    + rewrite (nth_error_nth' d []) by lia.
      rewrite dict_add_fresh
        by (intros p Hp; specialize (Hkeys p Hp); lia).
      cbn [bind]. rewrite IH.
      * rewrite nth_list_set by lia. rewrite Nat.eqb_refl.
        cbn [map]. rewrite <- app_assoc. cbn [app]. f_equal.
        apply (list_ext []); [now rewrite !length_list_set|].
        intros j Hj. rewrite !length_list_set in Hj.
        rewrite !nth_list_set by (rewrite ?length_list_set; lia).
        now destruct (Nat.eqb j i).
      * lia.
      * now rewrite length_list_set.
      * rewrite nth_list_set by lia. rewrite Nat.eqb_refl.
        intros p Hp. apply in_app_or in Hp. destruct Hp as [Hp|[<-|[]]]; cbn [fst].
        -- specialize (Hkeys p Hp). lia.
        -- lia.
    + cbn [bind]. apply IH; [lia | exact Hd |].
      intros p Hp. specialize (Hkeys p Hp). lia.
Qed.

(** The rows done so far hold their entries, the others are empty. *)
Lemma tt_rows :
  forall (m a : nat) (d : list (list (nat * Q))),
    a + m <= n -> List.length d = n ->
    (forall i, i < n ->
       nth i d [] = if Nat.ltb i a then entries i labels else []) ->
    exists d',
      for_each (fun d i => for_each (tt_body labels tt_matrix i) labels d) (seq a m) d
      = Ok d'
      /\ List.length d' = n
      /\ forall i, i < n ->
           nth i d' [] = if Nat.ltb i (a + m) then entries i labels else [].
Proof.
  induction m as [|m IH]; intros a d Ham Hd Hrows.
  - exists d. split; [reflexivity|]. split; [exact Hd|].
    intros i Hi. rewrite Nat.add_0_r. now apply Hrows.
  - cbn [seq for_each].
    change (for_each (tt_body labels tt_matrix a) labels d)
      with (for_each (tt_body labels tt_matrix a) (seq 0 n) d).
    assert (Ha : a < n) by lia.
    assert (Hempty : nth a d [] = []).
    { rewrite Hrows by exact Ha.
      now replace (Nat.ltb a a) with false by (symmetry; apply Nat.ltb_ge; lia). }
    rewrite (@tt_row a Ha n 0 d) by (try lia; rewrite Hempty; contradiction).
    cbn [bind]. rewrite Hempty. cbn [app].
    destruct (IH (S a) (list_set a (entries a (seq 0 n)) d)) as [d' [Hrun [Hlen Hcells]]].
    + lia.
    + now rewrite length_list_set.
    + intros i Hi. rewrite nth_list_set by lia.
      destruct (Nat.eqb_spec i a) as [->|Hne].
      * now replace (Nat.ltb a (S a)) with true by (symmetry; apply Nat.ltb_lt; lia).
      * rewrite Hrows by exact Hi.
        destruct (Nat.ltb_spec i a), (Nat.ltb_spec i (S a)); try lia; reflexivity.
    + exists d'. split; [exact Hrun|]. split; [exact Hlen|].
      intros i Hi. rewrite Hcells by exact Hi.
      now replace (S a + m) with (a + S m) by lia.
Qed.

Lemma term_term_rows :
  NoDup terms ->
  exists d,
    term_term_cooccurrence terms dt_matrix
    = Ok {| ttr_dict := d;
            ttr_term_ix := combine terms labels;
            ttr_ix_term := combine labels terms |}
    /\ List.length d = n
    /\ forall i, i < n -> nth i d [] = entries i labels.
Proof.
  intros Hnd. unfold term_term_cooccurrence. cbv zeta.
  rewrite (terms_ix_distinct Hnd). cbn [bind].
  unfold range at 3. rewrite length_seq.
  destruct (@tt_rows n 0 (repeat [] n)) as [d [Hrun [Hlen Hcells]]].
  - lia.
  - apply repeat_length.
  - intros i Hi. cbn. now rewrite nth_repeat.
  - unfold range in *. rewrite Hrun. cbn [bind]. exists d.
    split; [|split; [exact Hlen|]].
    + f_equal. f_equal. unfold make_dict_term_ix, make_dict_ix_term, range.
      now rewrite (make_dict_term_ix_distinct Hnd 0 []).
    + intros i Hi. rewrite Hcells by exact Hi. cbn [Nat.add].
      now replace (Nat.ltb i n) with true by (symmetry; apply Nat.ltb_lt; lia).
Qed.

(** X17.  Over terms that all differ [term_term_cooccurrence] returns,
    and its dictionary is sparse and symmetric: row [i] holds at key
    [k] the co-occurrence of the two terms when that is not zero (the
    [+=] is never reached), and no key [k] otherwise; so the entry of
    [i] at [k] is the entry of [k] at [i]. *)
Theorem term_term_cooccurrence_sparse :
  NoDup terms ->
  exists r,
    term_term_cooccurrence terms dt_matrix = Ok r
    /\ List.length (ttr_dict r) = n
    /\ (forall i k, i < n -> k < n ->
          lookup_nat k (nth i (ttr_dict r) [])
          = if nonzero_Q (cooccurrence dt_matrix i k)
            then Some (cooccurrence dt_matrix i k) else None)
    /\ (forall i k, i < n -> k < n ->
          lookup_nat k (nth i (ttr_dict r) []) = lookup_nat i (nth k (ttr_dict r) []))
    /\ (forall i k, i < n -> n <= k -> lookup_nat k (nth i (ttr_dict r) []) = None).
Proof.
  intros Hnd. destruct (term_term_rows Hnd) as [d [Hrun [Hlen Hrows]]].
  eexists. split; [exact Hrun|]. cbn [ttr_dict]. split; [exact Hlen|].
  assert (Hcell : forall i k, i < n -> k < n ->
            lookup_nat k (nth i d [])
            = if nonzero_Q (cooccurrence dt_matrix i k)
              then Some (cooccurrence dt_matrix i k) else None).
  { intros i k Hi Hk. rewrite Hrows by exact Hi. unfold tt_entries, range.
    rewrite (lookup_nat_entries (fun c => cooccurrence dt_matrix c i)
               (fun c => nonzero_Q (cooccurrence dt_matrix c i)) k 0 n).
    replace (Nat.ltb k (0 + n)) with true by (symmetry; apply Nat.ltb_lt; lia).
    cbn [Nat.leb andb]. now rewrite (cooccurrence_comm dt_matrix k i). }
  split; [exact Hcell|]. split.
  - intros i k Hi Hk. rewrite (Hcell i k Hi Hk), (Hcell k i Hk Hi).
    now rewrite (cooccurrence_comm dt_matrix k i).
  - intros i k Hi Hk. rewrite Hrows by exact Hi. unfold tt_entries, range.
    rewrite (lookup_nat_entries (fun c => cooccurrence dt_matrix c i)
               (fun c => nonzero_Q (cooccurrence dt_matrix c i)) k 0 n).
    now replace (Nat.ltb k (0 + n)) with false by (symmetry; apply Nat.ltb_ge; lia).
Qed.

(** X18.  Over terms that all differ the two translation dictionaries
    [term_term_cooccurrence] returns are inverse to each other: the
    term at column [i] is translated to [i], and [i] back to the
    term. *)
Theorem term_term_cooccurrence_translation :
  NoDup terms ->
  exists r,
    term_term_cooccurrence terms dt_matrix = Ok r
    /\ forall i, i < n ->
         lookup_str (nth i terms "") (ttr_term_ix r) = Some i
         /\ lookup_nat i (ttr_ix_term r) = Some (nth i terms "").
Proof.
  intros Hnd. destruct (term_term_rows Hnd) as [d [Hrun _]].
  eexists. split; [exact Hrun|]. cbn [ttr_term_ix ttr_ix_term].
  intros i Hi. unfold range. split.
  - exact (lookup_str_combine Hnd 0 Hi).
  - exact (@lookup_nat_combine terms 0 i Hi).
Qed.

End TermTerm.

Lemma term_term_cooccurrence_sparse_witness :
  NoDup ["aa"; "bb"; "cc"]
  /\ exists r,
       term_term_cooccurrence ["aa"; "bb"; "cc"] [[1; 1; 0]; [0; 1; 1]]%Q = Ok r
       /\ lookup_nat 2 (nth 0 (ttr_dict r) []) = None
       /\ lookup_nat 1 (nth 0 (ttr_dict r) []) = Some 1%Q.
Proof.
  assert (Hnd : NoDup ["aa"; "bb"; "cc"])
    by (repeat constructor; cbn; intuition discriminate).
  split; [exact Hnd|].
  destruct (@term_term_cooccurrence_sparse ["aa"; "bb"; "cc"] [[1; 1; 0]; [0; 1; 1]]%Q Hnd)
    as [r [Hrun [_ [Hcell _]]]].
  exists r. split; [exact Hrun|]. split.
  - exact (Hcell 0 2 ltac:(cbn; lia) ltac:(cbn; lia)).
  - exact (Hcell 0 1 ltac:(cbn; lia) ltac:(cbn; lia)).
Defined.

Lemma term_term_cooccurrence_translation_witness :
  NoDup ["aa"; "bb"; "cc"]
  /\ exists r,
       term_term_cooccurrence ["aa"; "bb"; "cc"] [[1; 1; 0]; [0; 1; 1]]%Q = Ok r
       /\ lookup_str "bb" (ttr_term_ix r) = Some 1
       /\ lookup_nat 1 (ttr_ix_term r) = Some "bb".
Proof.
  assert (Hnd : NoDup ["aa"; "bb"; "cc"])
    by (repeat constructor; cbn; intuition discriminate).
  split; [exact Hnd|].
  destruct (@term_term_cooccurrence_translation ["aa"; "bb"; "cc"]
              [[1; 1; 0]; [0; 1; 1]]%Q Hnd) as [r [Hrun Htr]].
  exists r. split; [exact Hrun|]. exact (Htr 1 ltac:(cbn; lia)).
Defined.

(** ** [load_data]: the translation of construct identifiers *)

Example load_data_translation_example :
  load_data_translation
    {| cd_index := [1; 2; 3]; cd_columns := [10; 20];
       cd_values := [[0; 1]; [5; 0]; [1; 1]] |}%Z 1 [3; 1; 2; 1]%Z [20; 10; 20]%Z
  = Ok ([(10, 1); (20, 2)]%Z, [(1, 10); (2, 20)]%Z).
Proof. reflexivity. Qed.

Lemma lookup_Z_None (V : Type) (k : Z) (d : list (Z * V)) :
  lookup_Z k d = None <-> ~ In k (map fst d).
Proof.
  induction d as [|[k' v] d IH]; cbn [lookup_Z map fst In]; [tauto|].
  destruct (Z.eqb_spec k k') as [->|Hne].
  - split; [discriminate|]. intros H. exfalso. apply H. now left.
  - rewrite IH. split; [intros H [E|Hin]; [congruence | now apply H] | tauto].
Qed.

Lemma lookup_Z_In (V : Type) (k : Z) (v : V) (d : list (Z * V)) :
  NoDup (map fst d) -> (lookup_Z k d = Some v <-> In (k, v) d).
Proof.
  induction d as [|[k' v'] d IH]; cbn [lookup_Z map fst In]; intros Hnd.
  - split; [discriminate | contradiction].
  - inversion Hnd as [|? ? Hnot Hnd']; subst.
    destruct (Z.eqb_spec k k') as [->|Hne].
    + split.
      * intros [= ->]. now left.
      * intros [[= ->]|Hin]; [reflexivity|].
        exfalso. apply Hnot. apply in_map_iff. now exists (k', v).
    + rewrite (IH Hnd'). split; [tauto|]. intros [[= -> _]|Hin]; [congruence | exact Hin].
Qed.

Lemma dict_set_Z_fresh (k v : Z) (d : list (Z * Z)) :
  ~ In k (map fst d) -> dict_set_Z k v d = (d ++ [(k, v)])%list.
Proof.
  induction d as [|[k' v'] d IH]; intros Hnot; [reflexivity|].
  cbn [dict_set_Z app]. cbn [map fst In] in Hnot.
  destruct (Z.eqb_spec k k') as [->|_]; [exfalso; apply Hnot; now left|].
  rewrite IH; [reflexivity|]. tauto.
Qed.

Lemma mirror_dict_distinct (d : list (Z * Z)) :
  NoDup (map snd d) -> mirror_dict d = map (fun fg => (snd fg, fst fg)) d.
Proof.
  unfold mirror_dict. intros Hnd.
  assert (H : forall acc,
             (forall g, In g (map snd d) -> ~ In g (map fst acc)) ->
             fold_left (fun a fg => dict_set_Z (snd fg) (fst fg) a) d acc
             = (acc ++ map (fun fg => (snd fg, fst fg)) d)%list).
  { induction d as [|[f g] d IH]; intros acc Hfresh.
    - cbn. now rewrite app_nil_r.
    - cbn [map snd] in Hnd. inversion Hnd as [|? ? Hnot Hnd']; subst.
      cbn [fold_left fst snd map].
      rewrite dict_set_Z_fresh by (apply Hfresh; now left).
      rewrite (IH Hnd').
      + now rewrite <- app_assoc.
      + intros g' Hg'. rewrite map_app, in_app_iff. cbn [map fst In].
        intros [Hin|[<-|[]]]; [|contradiction].
        revert Hin. apply Hfresh. now right. }
  rewrite H by (intros g _ []). reflexivity.
Qed.

Section Translation.

Variable construct_distances : distance_frame.
Variable max_editdistance : Z.
Variable gold_construct_ids funk_construct_ids : list Z.

Local Abbreviation body := (match_body construct_distances max_editdistance).
Local Abbreviation close := (close_enough construct_distances max_editdistance).
Local Abbreviation matching :=
  (matching construct_distances max_editdistance gold_construct_ids funk_construct_ids).

(** One round of the inner loop: nothing changes, or the first free
    gold identifier that is close enough is recorded. *)
Lemma match_inner (funk_id : Z) (gs : list Z) :
  forall s s' : list (Z * Z),
    for_break (body funk_id) gs s = Ok s' ->
    s' = s
    \/ exists gold_id pre post,
         gs = (pre ++ gold_id :: post)%list
         /\ ~ In gold_id (map snd s)
         /\ close funk_id gold_id
         /\ (forall g, In g pre -> In g (map snd s) \/ ~ close funk_id g)
         /\ s' = dict_set_Z funk_id gold_id s.
Proof.
  induction gs as [|g gs IH]; intros s s' Hrun.
  - left. now injection Hrun as <-.
  - cbn [for_break] in Hrun. unfold match_body at 1 in Hrun.
    destruct (mem_Z g (map snd s)) eqn:Hmem; cbn [bind] in Hrun.
    + destruct (IH _ _ Hrun) as [->|[g0 [pre [post [-> [Hfree [Hclose [Hpre ->]]]]]]]];
        [now left|].
      right. exists g0, (g :: pre), post. repeat split; try assumption.
      intros g' [<-|Hg']; [left; now apply mem_Z_In | now apply Hpre].
    + destruct (distance_at construct_distances funk_id g) as [d|e] eqn:Hd;
        cbn [bind] in Hrun; [|discriminate].
      destruct (Z.leb_spec d max_editdistance) as [Hle|Hgt].
      * injection Hrun as <-. right. exists g, [], gs.
        repeat split; try reflexivity.
        -- intros Hin. apply mem_Z_In in Hin. congruence.
        -- now exists d.
        -- intros g' [].
      * destruct (IH _ _ Hrun) as [->|[g0 [pre [post [-> [Hfree [Hclose [Hpre ->]]]]]]]];
          [now left|].
        right. exists g0, (g :: pre), post. repeat split; try assumption.
        intros g' [<-|Hg']; [|now apply Hpre].
        right. intros [d' [Hd' Hle']]. rewrite Hd in Hd'. injection Hd' as <-. lia.
Qed.

Lemma match_outer (fs : list Z) :
  NoDup fs -> incl fs funk_construct_ids ->
  forall s s' : list (Z * Z),
    (forall f, In f fs -> ~ In f (map fst s)) ->
    matching s ->
    for_each (fun s funk_id => for_break (body funk_id) gold_construct_ids s) fs s = Ok s' ->
    matching s'.
Proof.
  induction 1 as [|f fs Hnot Hnd IH]; intros Hincl s s' Hfresh Hm Hrun.
  - now injection Hrun as <-.
  - cbn [for_each] in Hrun.
    destruct (for_break (body f) gold_construct_ids s) as [s1|e] eqn:Hin;
      cbn [bind] in Hrun; [|discriminate].
    assert (Hincl' : incl fs funk_construct_ids)
      by (intros x Hx; apply Hincl; now right).
    destruct (match_inner _ _ _ Hin)
      as [->|[g [pre [post [Hgs [Hfree [Hclose [_ ->]]]]]]]].
    + apply (IH Hincl' s s'); [|exact Hm|exact Hrun].
      intros x Hx. apply Hfresh. now right.
    + assert (Hf : ~ In f (map fst s)) by (apply Hfresh; now left).
      rewrite (dict_set_Z_fresh f g s Hf) in Hrun.
      apply (IH Hincl' (s ++ [(f, g)])%list s'); [| |exact Hrun].
      * intros x Hx. rewrite map_app, in_app_iff. cbn [map fst In].
        intros [Hin'|[<-|[]]]; [|contradiction].
        revert Hin'. apply Hfresh. now right.
      * destruct Hm as [Hk [Hv Hp]]. split; [|split].
        -- rewrite map_app. cbn [map fst].
           apply NoDup_app; [exact Hk | repeat constructor; intros [] |].
           intros x Hx [<-|[]]. contradiction.
        -- rewrite map_app. cbn [map snd].
           apply NoDup_app; [exact Hv | repeat constructor; intros [] |].
           intros x Hx [<-|[]]. contradiction.
        -- intros f' g' Hin'. apply in_app_or in Hin'.
           destruct Hin' as [Hin'|[[= <- <-]|[]]]; [now apply Hp|].
           split; [apply Hincl; now left|]. split; [|exact Hclose].
           rewrite Hgs. apply in_or_app. right. now left.
Qed.

End Translation.

(** X19.  The translation [load_data] builds between the two data sets
    is one-to-one: in [funk2gold] every identifier of either side
    stands at most once, every pair joins a Funk identifier and a gold
    identifier whose names are within [max_editdistance], and
    [gold2funk] is its inverse. *)
Theorem load_data_translation_one_to_one (construct_distances : distance_frame)
    (max_editdistance : Z) (gold_variable_ids funk_construct_column : list Z)
    (funk2gold gold2funk : list (Z * Z)) :
  load_data_translation construct_distances max_editdistance gold_variable_ids
                        funk_construct_column
  = Ok (funk2gold, gold2funk) ->
  NoDup (map fst funk2gold) /\ NoDup (map snd funk2gold)
  /\ (forall f g, In (f, g) funk2gold ->
        In f funk_construct_column /\ In g gold_variable_ids
        /\ close_enough construct_distances max_editdistance f g)
  /\ (forall f g, lookup_Z g gold2funk = Some f <-> lookup_Z f funk2gold = Some g).
Proof.
  unfold load_data_translation. cbv zeta.
  destruct (for_each _ _ _) as [s|e] eqn:Hrun; cbn [bind]; [|discriminate].
  intros [= <- <-].
  assert (Hm : matching construct_distances max_editdistance
                        (np_unique gold_variable_ids)
                        (np_unique funk_construct_column) s).
  { apply (@match_outer construct_distances max_editdistance
             (np_unique gold_variable_ids) (np_unique funk_construct_column)
             (np_unique funk_construct_column)
             (sorted_NoDup (np_unique_sorted _)) (incl_refl _) [] s).
    - intros f _ [].
    - split; [constructor|]. split; [constructor|]. intros f g [].
    - exact Hrun. }
  destruct Hm as [Hk [Hv Hp]].
  split; [exact Hk|]. split; [exact Hv|]. split.
  - intros f g Hin. destruct (Hp f g Hin) as [Hf [Hg Hc]].
    apply (proj1 (in_np_unique _ _)) in Hf. apply (proj1 (in_np_unique _ _)) in Hg.
    split; [exact Hf | split; [exact Hg | exact Hc]].
  - intros f g. rewrite (@mirror_dict_distinct s Hv).
    rewrite (@lookup_Z_In Z f g s Hk). rewrite lookup_Z_In.
    + rewrite in_map_iff. split.
      * intros [[f' g'] [[= <- <-] Hin]]. exact Hin.
      * intros Hin. now exists (f, g).
    + now rewrite map_map.
Qed.

Lemma load_data_translation_one_to_one_witness :
  NoDup (map fst [(10, 1); (20, 2)]%Z) /\ NoDup (map snd [(10, 1); (20, 2)]%Z)
  /\ (forall f g, In (f, g) [(10, 1); (20, 2)]%Z ->
        In f [20; 10; 20]%Z /\ In g [3; 1; 2; 1]%Z
        /\ close_enough {| cd_index := [1; 2; 3]; cd_columns := [10; 20];
                           cd_values := [[0; 1]; [5; 0]; [1; 1]] |}%Z 1 f g)
  /\ (forall f g, lookup_Z g [(1, 10); (2, 20)]%Z = Some f
                  <-> lookup_Z f [(10, 1); (20, 2)]%Z = Some g).
Proof.
  exact (@load_data_translation_one_to_one
           {| cd_index := [1; 2; 3]; cd_columns := [10; 20];
              cd_values := [[0; 1]; [5; 0]; [1; 1]] |}%Z 1 [3; 1; 2; 1]%Z [20; 10; 20]%Z
           _ _ eq_refl).
Defined.

Lemma sorted_before (pre post : list Z) (g g' : Z) :
  StronglySorted Z.lt (pre ++ g :: post) ->
  In g' (pre ++ g :: post) -> (g' < g)%Z -> In g' pre.
Proof.
  induction pre as [|x pre IH]; cbn [app]; intros Hs Hin Hlt.
  - inversion Hs as [|? ? _ Hall]; subst. destruct Hin as [->|Hin]; [lia|].
    rewrite Forall_forall in Hall. specialize (Hall _ Hin). lia.
  - inversion Hs as [|? ? Hs' _]; subst. destruct Hin as [->|Hin]; [now left|].
    right. now apply IH.
Qed.

Lemma first_match_outer (construct_distances : distance_frame) (max_editdistance : Z)
      (gold_construct_ids : list Z) (fs : list Z) :
  StronglySorted Z.lt gold_construct_ids ->
  StronglySorted Z.lt fs ->
  forall s s' : list (Z * Z),
    (forall k f, In k (map fst s) -> In f fs -> (k < f)%Z) ->
    first_match construct_distances max_editdistance gold_construct_ids s ->
    for_each (fun s funk_id =>
                for_break (match_body construct_distances max_editdistance funk_id)
                          gold_construct_ids s) fs s = Ok s' ->
    first_match construct_distances max_editdistance gold_construct_ids s'.
Proof.
  intros Hgold. induction 1 as [|f fs Hfs IH Hall]; intros s s' Hkeys Hfirst Hrun.
  - now injection Hrun as <-.
  - cbn [for_each] in Hrun.
    destruct (for_break _ gold_construct_ids s) as [s1|e] eqn:Hin;
      cbn [bind] in Hrun; [|discriminate].
    destruct (match_inner _ _ _ _ _ Hin)
      as [->|[g [pre [post [Hgs [Hfree [Hclose [Hpre ->]]]]]]]].
    + apply (IH s s'); [|exact Hfirst|exact Hrun].
      intros k x Hk Hx. apply Hkeys; [exact Hk | now right].
    + assert (Hf : ~ In f (map fst s)).
      { intros Hk. specialize (Hkeys f f Hk (or_introl eq_refl)). lia. }
      rewrite (dict_set_Z_fresh f g s Hf) in Hrun.
      apply (IH (s ++ [(f, g)])%list s'); [| |exact Hrun].
      * intros k x Hk Hx. rewrite map_app, in_app_iff in Hk. cbn [map fst In] in Hk.
        destruct Hk as [Hk|[<-|[]]].
        -- apply Hkeys; [exact Hk | now right].
        -- rewrite Forall_forall in Hall. now apply Hall.
      * intros f0 g0 Hin0 g' Hg' Hlt Hcl. apply in_app_or in Hin0.
        destruct Hin0 as [Hin0|[[= <- <-]|[]]].
        -- destruct (Hfirst f0 g0 Hin0 g' Hg' Hlt Hcl) as [f' [Hf' Hlt']].
           exists f'. split; [apply in_or_app; now left | exact Hlt'].
        -- rewrite Hgs in Hgold, Hg'.
           pose proof (sorted_before _ _ Hgold Hg' Hlt) as Hbefore.
           destruct (Hpre g' Hbefore) as [Hval|Hnot]; [|contradiction].
           apply in_map_iff in Hval. destruct Hval as [[f' g''] [Eg Hpair]].
           cbn [snd] in Eg. subst g''. exists f'. split.
           ++ apply in_or_app. now left.
           ++ apply Hkeys; [|now left]. apply in_map_iff. now exists (f', g').
Qed.

(** X20.  The translation of [load_data] takes the first match: the
    Funk identifiers are served in increasing order, and each gets the
    smallest gold identifier within [max_editdistance] that no smaller
    Funk identifier has taken. *)
Theorem load_data_translation_first_match (construct_distances : distance_frame)
    (max_editdistance : Z) (gold_variable_ids funk_construct_column : list Z)
    (funk2gold gold2funk : list (Z * Z)) (f g g' : Z) :
  load_data_translation construct_distances max_editdistance gold_variable_ids
                        funk_construct_column
  = Ok (funk2gold, gold2funk) ->
  In (f, g) funk2gold ->
  In g' gold_variable_ids -> (g' < g)%Z ->
  close_enough construct_distances max_editdistance f g' ->
  exists f', In (f', g') funk2gold /\ (f' < f)%Z.
Proof.
  unfold load_data_translation. cbv zeta.
  destruct (for_each _ _ _) as [s|e] eqn:Hrun; cbn [bind]; [|discriminate].
  intros [= <- <-] Hin Hg' Hlt Hclose.
  assert (Hfirst : first_match construct_distances max_editdistance
                               (np_unique gold_variable_ids) s).
  { apply (@first_match_outer construct_distances max_editdistance
             (np_unique gold_variable_ids) (np_unique funk_construct_column)
             (np_unique_sorted _) (np_unique_sorted _) [] s).
    - intros k x [].
    - intros f0 g0 [].
    - exact Hrun. }
  apply (Hfirst f g Hin g'); [|exact Hlt|exact Hclose].
  now apply in_np_unique.
Qed.

Lemma load_data_translation_first_match_witness :
  In (20, 2)%Z [(10, 1); (20, 2)]%Z
  /\ In 1%Z [3; 1; 2; 1]%Z /\ (1 < 2)%Z
  /\ close_enough {| cd_index := [1; 2; 3]; cd_columns := [10; 20];
                     cd_values := [[0; 1]; [5; 0]; [1; 1]] |}%Z 1 20 1
  /\ exists f', In (f', 1%Z) [(10, 1); (20, 2)]%Z /\ (f' < 20)%Z.
Proof.
  assert (Hin : In (20, 2)%Z [(10, 1); (20, 2)]%Z) by (right; now left).
  assert (Hg : In 1%Z [3; 1; 2; 1]%Z) by (right; now left).
  assert (Hlt : (1 < 2)%Z) by lia.
  assert (Hc : close_enough {| cd_index := [1; 2; 3]; cd_columns := [10; 20];
                               cd_values := [[0; 1]; [5; 0]; [1; 1]] |}%Z 1 20 1)
    by (exists 1%Z; split; [reflexivity | lia]).
  split; [exact Hin|]. split; [exact Hg|]. split; [exact Hlt|]. split; [exact Hc|].
  exact (@load_data_translation_first_match
           {| cd_index := [1; 2; 3]; cd_columns := [10; 20];
              cd_values := [[0; 1]; [5; 0]; [1; 1]] |}%Z 1 [3; 1; 2; 1]%Z [20; 10; 20]%Z
           _ _ 20 2 1 eq_refl Hin Hg Hlt Hc).
Defined.

(** ** [term_vectors_from_dict]: the terms of the dictionary *)

(** X21.  Without normalisation the frame has one row per target term,
    and the row of a target term that the dictionary has is the term's
    vector, entry by entry as the dictionary holds it. *)
Theorem term_vectors_from_dict_present (d : vector_dict) (dim : nat)
        (targets : list string) (verbose : bool) (i : nat) (term : string)
        (v : vector) :
  uniform dim d ->
  nth_error targets i = Some term -> dict_lookup term d = Some v ->
  exists (rows : list vector) (printed : list nat),
    term_vectors_from_dict d targets false verbose
    = Ok ({| df_index := targets; df_values := rows |}, printed)
    /\ List.length rows = List.length targets
    /\ nth_error rows i = Some v.
Proof.
  intros Hu Hi Hv.
  assert (Hne : d <> []) by (intros ->; discriminate).
  unfold term_vectors_from_dict.
  rewrite (tv_loop_ok targets Hne Hu). cbn [bind term_vectors ctr_oov].
  eexists. eexists. split; [reflexivity|]. split; [apply length_map|].
  rewrite nth_error_map, Hi. cbn. unfold resolve. now rewrite Hv.
Qed.

Lemma term_vectors_from_dict_present_witness :
  uniform 2 [("aa", [3; 4]%R)]
  /\ exists (rows : list vector) (printed : list nat),
       term_vectors_from_dict [("aa", [3; 4]%R)] ["bb"; "aa"] false false
       = Ok ({| df_index := ["bb"; "aa"]; df_values := rows |}, printed)
       /\ List.length rows = List.length ["bb"; "aa"]
       /\ nth_error rows 1 = Some [3; 4]%R.
Proof.
  assert (Hu : uniform 2 [("aa", [3; 4]%R)]) by repeat constructor.
  split; [exact Hu|].
  exact (@term_vectors_from_dict_present [("aa", [3; 4]%R)] 2 ["bb"; "aa"] false
           1 "aa" [3; 4]%R Hu eq_refl eq_refl).
Defined.

Lemma tv_body_ok_or (k0 : string) (v0 : vector) (rest : vector_dict) (st : tv_state)
      (term : string) :
  tv_body ((k0, v0) :: rest) (List.length v0) st term = Raise ValueError
  \/ exists st', tv_body ((k0, v0) :: rest) (List.length v0) st term = Ok st'.
Proof.
  unfold tv_body. destruct (dict_lookup term ((k0, v0) :: rest)) as [v|].
  - unfold assign_row. destruct (Nat.eqb (List.length v) (List.length v0));
      cbn [bind]; [eauto|].
    destruct v as [|x [|y v]]; cbn [bind]; eauto.
  - cbn [first_value bind]. unfold assign_row.
    rewrite length_zeros, Nat.eqb_refl. cbn [bind]. eauto.
Qed.

(** X22.  The array has as many columns as the first vector of the
    dictionary has entries: a target term whose vector has another
    number of entries, and not just one (which numpy repeats), stops
    the call with [ValueError]. *)
Theorem term_vectors_from_dict_ragged (d : vector_dict) (targets : list string)
        (normalize verbose : bool) (term : string) (v probe : vector) :
  first_value d = Ok probe ->
  In term targets -> dict_lookup term d = Some v ->
  List.length v <> List.length probe -> List.length v <> 1 ->
  term_vectors_from_dict d targets normalize verbose = Raise ValueError.
Proof.
  intros Hprobe Hin Hv Hlen H1.
  destruct d as [|[k0 v0] rest]; [discriminate|].
  cbn [first_value] in Hprobe. injection Hprobe as <-.
  unfold term_vectors_from_dict, tv_loop. cbn [first_value bind].
  rewrite for_each_raises with (e := ValueError); [reflexivity| |].
  - intros st t _. apply tv_body_ok_or.
  - exists term. split; [exact Hin|]. intros st. unfold tv_body. rewrite Hv.
    unfold assign_row.
    replace (Nat.eqb (List.length v) (List.length v0)) with false
      by (symmetry; now apply Nat.eqb_neq).
    destruct v as [|x [|y v]]; cbn [bind]; [reflexivity | now elim H1 | reflexivity].
Qed.

Lemma term_vectors_from_dict_ragged_witness :
  term_vectors_from_dict [("aa", [3; 4]%R); ("bb", [1; 2; 3]%R)] ["aa"; "bb"] false false
  = Raise ValueError.
Proof.
  exact (@term_vectors_from_dict_ragged [("aa", [3; 4]%R); ("bb", [1; 2; 3]%R)]
           ["aa"; "bb"] false false "bb" [1; 2; 3]%R [3; 4]%R eq_refl
           ltac:(right; left; reflexivity) eq_refl
           ltac:(cbn; lia) ltac:(cbn; lia)).
Defined.

(** ** [aggregate_item_similarity]: the two highest term similarities *)

(** X23.  With [n_similarities = 2], the similarity that
    [aggregate_item_similarity] stores for two documents whose terms
    give two term-pair similarities or more is the mean of the two
    highest of them, on both sides of the diagonal. *)
Theorem aggregate_item_similarity_top_two (items : list string)
        (dt_matrix term_vectors : list (list Q)) (verbose : bool) (i j : nat) :
  shaped (List.length dt_matrix) (List.length term_vectors) dt_matrix ->
  i < j -> j < List.length dt_matrix ->
  2 <= List.length (item_values dt_matrix term_vectors i j) ->
  exists (m : list (list npfloat)) (printed : list nat) (a b : Q) (rest : list Q)
         (q q' : Q),
    aggregate_item_similarity items dt_matrix term_vectors 2 verbose
    = Ok ({| if_index := items; if_values := m |}, printed)
    /\ Permutation (item_values dt_matrix term_vectors i j) (a :: b :: rest)
    /\ (b <= a)%Q /\ Forall (fun x => (x <= b)%Q) rest
    /\ mget NaN m i j = Num q /\ mget NaN m j i = Num q'
    /\ (q == (a + b) / 2)%Q /\ (q' == (a + b) / 2)%Q.
Proof.
  intros Hdt Hij Hj Hlen. unfold aggregate_item_similarity.
  destruct (@ais_loop_ok dt_matrix term_vectors 2 _ Hdt eq_refl) as [st [-> [_ Hm]]].
  cbn [bind].
  destruct (avg_value_top_two _ Hlen) as [a [b [rest [q0 [Hp [Hba [Hr [Hq0 Eq0]]]]]]]].
  assert (Hi : i < List.length dt_matrix) by lia.
  exists (mirror_sim (List.length dt_matrix) (item_similarity st)),
         (if verbose then [ctr_one st; ctr_none st] else []),
         a, b, rest, (q0 + 0)%Q, (0 + q0)%Q.
  split; [reflexivity|]. split; [exact Hp|]. split; [exact Hba|]. split; [exact Hr|].
  unfold mirror_sim. rewrite !mget_tabulate by assumption.
  replace (Nat.eqb i j) with false by (symmetry; apply Nat.eqb_neq; lia).
  replace (Nat.eqb j i) with false by (symmetry; apply Nat.eqb_neq; lia).
  rewrite Hm. unfold upper. rewrite !mget_tabulate by assumption.
  replace (Nat.ltb i j) with true by (symmetry; apply Nat.ltb_lt; lia).
  replace (Nat.ltb j i) with false by (symmetry; apply Nat.ltb_ge; lia).
  rewrite Hq0. cbn [np_add].
  split; [reflexivity|]. split; [reflexivity|].
  split; [rewrite Qplus_0_r | rewrite Qplus_0_l]; exact Eq0.
Qed.

Lemma aggregate_item_similarity_top_two_witness :
  shaped (List.length [[1; 1; 0]; [0; 1; 1]]%Q) (List.length [[1; 0]; [0; 1]; [1; 1]]%Q)
         [[1; 1; 0]; [0; 1; 1]]%Q
  /\ 2 <= List.length (item_values [[1; 1; 0]; [0; 1; 1]]%Q [[1; 0]; [0; 1]; [1; 1]]%Q 0 1)
  /\ exists (m : list (list npfloat)) (printed : list nat) (a b : Q) (rest : list Q)
            (q q' : Q),
       aggregate_item_similarity ["d0"; "d1"] [[1; 1; 0]; [0; 1; 1]]%Q
                                 [[1; 0]; [0; 1]; [1; 1]]%Q 2 false
       = Ok ({| if_index := ["d0"; "d1"]; if_values := m |}, printed)
       /\ Permutation (item_values [[1; 1; 0]; [0; 1; 1]]%Q [[1; 0]; [0; 1]; [1; 1]]%Q 0 1)
                      (a :: b :: rest)
       /\ (b <= a)%Q /\ Forall (fun x => (x <= b)%Q) rest
       /\ mget NaN m 0 1 = Num q /\ mget NaN m 1 0 = Num q'
       /\ (q == (a + b) / 2)%Q /\ (q' == (a + b) / 2)%Q.
Proof.
  assert (Hs : shaped (List.length [[1; 1; 0]; [0; 1; 1]]%Q)
                      (List.length [[1; 0]; [0; 1]; [1; 1]]%Q) [[1; 1; 0]; [0; 1; 1]]%Q)
    by (split; [reflexivity | repeat constructor]).
  assert (Hl : 2 <= List.length (item_values [[1; 1; 0]; [0; 1; 1]]%Q
                                             [[1; 0]; [0; 1]; [1; 1]]%Q 0 1))
    by (vm_compute; lia).
  split; [exact Hs|]. split; [exact Hl|].
  exact (@aggregate_item_similarity_top_two ["d0"; "d1"] [[1; 1; 0]; [0; 1; 1]]%Q
           [[1; 0]; [0; 1]; [1; 1]]%Q false 0 1 Hs ltac:(lia) ltac:(cbn; lia) Hl).
Defined.

(** ** The two log-entropy weightings, compared *)

Lemma sum_R_nonpos (v : list R) : Forall (fun x => (x <= 0)%R) v -> (sum_R v <= 0)%R.
Proof.
  unfold sum_R. induction 1 as [|x v Hx _ IH]; simpl; lra.
Qed.

(** The global weight of [myLSA] is at most one. *)
Lemma myLSA_global_weight_le_1 (rows cols i j : nat) (dt : list (list R)) :
  shaped rows cols dt -> i < rows -> j < cols ->
  (forall d, d < rows -> (0 <= mget 0%R dt d j)%R) ->
  (0 < mget 0%R dt i j)%R ->
  (myLSA_global_weight dt j <= 1)%R.
Proof.
  intros [Hl Hr] Hi Hj Hnn Hpos. unfold myLSA_global_weight. rewrite Hl.
  assert (Hmem : forall d, d < rows -> (mget 0%R dt d j <= column_total dt j)%R).
  { intros d Hd. unfold column_total. rewrite Hl. apply sum_R_ge_member.
    - apply Forall_forall. intros y Hy. apply in_map_iff in Hy.
      destruct Hy as [d' [<- Hd']]. apply in_range in Hd'. apply Hnn. lia.
    - apply in_map_iff. exists d. split; [reflexivity|]. apply in_range. lia. }
  assert (Htot : (0 < column_total dt j)%R).
  { apply Rlt_le_trans with (mget 0%R dt i j); [exact Hpos | now apply Hmem]. }
  assert (Hsum : (sum_R (map (fun d => p_at dt d j * np_log_masked (p_at dt d j))
                             (range 0 rows)) <= 0)%R).
  { apply sum_R_nonpos, Forall_forall. intros y Hy. apply in_map_iff in Hy.
    destruct Hy as [d [<- Hd]]. apply in_range in Hd.
    assert (Hd' : d < rows) by lia.
    assert (Hp0 : (0 <= p_at dt d j)%R).
    { unfold p_at. apply Rmult_le_pos; [now apply Hnn|].
      left. now apply Rinv_0_lt_compat. }
    assert (Hp1 : (p_at dt d j <= 1)%R).
    { unfold p_at. apply Rmult_le_reg_r with (column_total dt j); [exact Htot|].
      unfold Rdiv. rewrite Rmult_assoc, Rinv_l by lra.
      specialize (Hmem d Hd'). lra. }
    unfold np_log_masked. destruct (Req_dec_T (p_at dt d j) 0) as [E|Hne]; [lra|].
    assert (Hln : (ln (p_at dt d j) <= 0)%R).
    { destruct Hp1 as [Hlt | E1]; [|rewrite E1, ln_1; lra].
      apply ln_increasing in Hlt; [|lra]. rewrite ln_1 in Hlt. lra. }
    nra. }
  assert (Hln : (0 < ln (INR rows + 1))%R).
  { apply ln_pos.
    assert (1 <= INR rows)%R by (change 1%R with (INR 1); apply le_INR; lia). lra. }
  assert (sum_R (map (fun d => p_at dt d j * np_log_masked (p_at dt d j)) (range 0 rows))
          / ln (INR rows + 1) <= 0)%R.
  { assert (Hinv : (0 < / ln (INR rows + 1))%R) by now apply Rinv_0_lt_compat.
    unfold Rdiv. nra. }
  lra.
Qed.

(** X24.  On a matrix of counts, before the normalisation, the
    weighting of [myLSA] (with [np.log(p)]) gives a positive cell at
    most its local weight [count * ln(count + 1)], and the [log_l2]
    branch of [document_term_cooccurrence] (with [np.log(p + 1)]) gives
    it at least that: the global weight is at most one in the first and
    at least one in the second. *)
Theorem log_entropy_brackets (rows cols i j : nat) (dt : list (list R)) :
  shaped rows cols dt -> i < rows -> j < cols ->
  (forall d, d < rows -> (0 <= mget 0%R dt d j)%R) ->
  (0 < mget 0%R dt i j)%R ->
  (mget 0%R (myLSA_log_entropy cols dt) i j
   <= mget 0%R dt i j * ln (mget 0%R dt i j + 1))%R
  /\ (mget 0%R dt i j * ln (mget 0%R dt i j + 1)
      <= mget 0%R (log_entropy cols dt) i j)%R.
Proof.
  intros Hs Hi Hj Hnn Hpos.
  rewrite (myLSA_log_entropy_cell Hs Hi Hj), (log_entropy_cell Hs Hi Hj).
  unfold myLSA_cell, log_l2_cell.
  pose proof (myLSA_global_weight_le_1 Hs Hi Hj Hnn Hpos) as Hle.
  pose proof (global_weight_ge_1 Hs Hi Hj Hnn Hpos) as Hge.
  assert (Hlocal : (0 <= mget 0%R dt i j * ln (mget 0%R dt i j + 1))%R).
  { apply Rmult_le_pos; [lra | apply ln_succ_nonneg; lra]. }
  split; nra.
Qed.

Lemma log_entropy_brackets_witness :
  shaped 2 2 (to_float counts_2x2)
  /\ (forall d, d < 2 -> (0 <= mget 0%R (to_float counts_2x2) d 0)%R)
  /\ (0 < mget 0%R (to_float counts_2x2) 0 0)%R
  /\ (mget 0%R (myLSA_log_entropy 2 (to_float counts_2x2)) 0 0
      <= mget 0%R (to_float counts_2x2) 0 0
         * ln (mget 0%R (to_float counts_2x2) 0 0 + 1))%R
  /\ (mget 0%R (to_float counts_2x2) 0 0 * ln (mget 0%R (to_float counts_2x2) 0 0 + 1)
      <= mget 0%R (log_entropy 2 (to_float counts_2x2)) 0 0)%R.
Proof.
  assert (Hs : shaped 2 2 (to_float counts_2x2)) by (split; repeat constructor).
  assert (Hnn : forall d, d < 2 -> (0 <= mget 0%R (to_float counts_2x2) d 0)%R).
  { intros d Hd. destruct d as [|[|d]]; [cbn; lra | cbn; lra | lia]. }
  assert (Hpos : (0 < mget 0%R (to_float counts_2x2) 0 0)%R) by (cbn; lra).
  split; [exact Hs|]. split; [exact Hnn|]. split; [exact Hpos|].
  exact (@log_entropy_brackets 2 2 0 0 (to_float counts_2x2) Hs
           ltac:(lia) ltac:(lia) Hnn Hpos).
Defined.
